(** * The scanning task engine of rspamd: [src/libserver/task.c]

    A shallow embedding of the task state machine, the message loader,
    the principal-recipient resolver and the log formatter, with the
    properties the specification states about them.

    Conventions.  C integers are [Z] with their width written out:
    [guint] and [gint] are 32 bits wide, [gsize] and [gulong] 64 bits
    (LP64).  A C string is a [string]; a [NULL] pointer is [None].  Hash
    tables looked up by key are [gmap]s; a hash table that is iterated
    is the list of its values in iteration order.  Functions of other
    modules (parser, filters, classifier, protocol layer, OS calls) are
    the fields of a class each: the engine is verified for every
    behaviour they may have. *)

From Stdlib Require Import ZArith List String Ascii Bool Lia Floats.
From stdpp Require Import base option list sorting gmap strings pretty.

Local Open Scope Z_scope.

(** ** C arithmetic *)

Module CInt.

Definition guint_bits : Z := 32.
Definition gsize_bits : Z := 64.

(** Conversion to an unsigned type of [w] bits. *)
Definition wrap (w x : Z) : Z := x mod 2 ^ w.

Definition to_guint (x : Z) : Z := wrap guint_bits x.
Definition to_gsize (x : Z) : Z := wrap gsize_bits x.
Definition to_gulong (x : Z) : Z := wrap gsize_bits x.

Definition G_MININT : Z := - 2 ^ 31.
Definition G_MAXINT : Z := 2 ^ 31 - 1.

End CInt.

(** ** Outcomes of C code

    A C function either returns, or leaves the behaviour the language
    defines (a shift that overflows [int], an array read past its
    length), or is still running when the fuel of the model is spent. *)

Inductive fault : Set :=
| UndefinedShift      (* [1 << n] not representable in [gint] *)
| UndefinedConversion (* a [gdouble] converted to [gint] out of its range *)
| OutOfBounds         (* [g_ptr_array_index] past the array's length *)
| OutOfFuel.          (* the recursion did not end within the fuel given *)

Inductive outcome (A : Type) : Type :=
| Ret (a : A)
| Fault (f : fault).

Arguments Ret {A} a.
Arguments Fault {A} f.

Definition obind {A B} (m : outcome A) (k : A -> outcome B) : outcome B :=
  match m with
  | Ret a => k a
  | Fault f => Fault f
  end.

Notation "'do' x <- m ; k" := (obind m (fun x => k))
  (at level 10, x name, m at level 100, k at level 200).

(** ** Declarations of the headers

    [task.c] includes [task.h], [rspamd.h], [filter.h] and [cfg.h]; they
    give the constants below their values.  The model takes the values
    as parameters; what a theorem needs of them is among its hypotheses. *)

Class task_h : Type := {
  (* enum rspamd_task_stage *)
  RSPAMD_TASK_STAGE_READ_MESSAGE : Z;
  RSPAMD_TASK_STAGE_PRE_FILTERS : Z;
  RSPAMD_TASK_STAGE_FILTERS : Z;
  RSPAMD_TASK_STAGE_CLASSIFIERS_PRE : Z;
  RSPAMD_TASK_STAGE_CLASSIFIERS : Z;
  RSPAMD_TASK_STAGE_CLASSIFIERS_POST : Z;
  RSPAMD_TASK_STAGE_COMPOSITES : Z;
  RSPAMD_TASK_STAGE_POST_FILTERS : Z;
  RSPAMD_TASK_STAGE_LEARN_PRE : Z;
  RSPAMD_TASK_STAGE_LEARN : Z;
  RSPAMD_TASK_STAGE_LEARN_POST : Z;
  RSPAMD_TASK_STAGE_DONE : Z;
  (* task flags *)
  RSPAMD_TASK_FLAG_MIME : Z;
  RSPAMD_TASK_FLAG_JSON : Z;
  RSPAMD_TASK_FLAG_PASS_ALL : Z;
  RSPAMD_TASK_FLAG_SKIP : Z;
  RSPAMD_TASK_FLAG_HAS_CONTROL : Z;
  RSPAMD_TASK_FLAG_PROCESSING : Z;
  RSPAMD_TASK_FLAG_FILE : Z;
  RSPAMD_TASK_FLAG_LEARN_SPAM : Z;
  RSPAMD_TASK_FLAG_LEARN_HAM : Z;
  RSPAMD_TASK_FLAG_LEARN_AUTO : Z;
  RSPAMD_TASK_FLAG_EMPTY : Z;
  RSPAMD_TASK_FLAG_NO_LOG : Z;
  (* enum rspamd_metric_action *)
  METRIC_ACTION_REJECT : Z;
  METRIC_ACTION_MAX : Z;
  (* error codes *)
  RSPAMD_PROTOCOL_ERROR : Z;
  (* log format flags *)
  RSPAMD_LOG_FLAG_CONDITION : Z;
  RSPAMD_LOG_FLAG_SYMBOLS_SCORES : Z;
  RSPAMD_LOG_FLAG_SYMBOLS_PARAMS : Z;
  (* limits.h *)
  PATH_MAX : Z;
  (* the name of the default metric *)
  DEFAULT_METRIC : string
}.

(** The stage constants are the case labels of one [switch]: a C
    compiler accepts them only when no two are equal. *)
Definition stage_labels `{task_h} : list Z :=
  [ RSPAMD_TASK_STAGE_READ_MESSAGE; RSPAMD_TASK_STAGE_PRE_FILTERS;
    RSPAMD_TASK_STAGE_FILTERS; RSPAMD_TASK_STAGE_CLASSIFIERS;
    RSPAMD_TASK_STAGE_CLASSIFIERS_PRE; RSPAMD_TASK_STAGE_CLASSIFIERS_POST;
    RSPAMD_TASK_STAGE_COMPOSITES; RSPAMD_TASK_STAGE_POST_FILTERS;
    RSPAMD_TASK_STAGE_LEARN; RSPAMD_TASK_STAGE_LEARN_PRE;
    RSPAMD_TASK_STAGE_LEARN_POST; RSPAMD_TASK_STAGE_DONE ].

(** Modelled from the spec: the values of [task.h], which is not among
    the sources.  The spec orders the stages READ_MESSAGE < PRE_FILTERS <
    ... < DONE, "each a distinct bit"; this instance gives them the bits
    0 to 11, and every flag a bit of its own.  It is used where a
    statement is evaluated on a concrete task. *)
Definition spec_task_h : task_h := {|
  RSPAMD_TASK_STAGE_READ_MESSAGE := 1;
  RSPAMD_TASK_STAGE_PRE_FILTERS := 2;
  RSPAMD_TASK_STAGE_FILTERS := 4;
  RSPAMD_TASK_STAGE_CLASSIFIERS_PRE := 8;
  RSPAMD_TASK_STAGE_CLASSIFIERS := 16;
  RSPAMD_TASK_STAGE_CLASSIFIERS_POST := 32;
  RSPAMD_TASK_STAGE_COMPOSITES := 64;
  RSPAMD_TASK_STAGE_POST_FILTERS := 128;
  RSPAMD_TASK_STAGE_LEARN_PRE := 256;
  RSPAMD_TASK_STAGE_LEARN := 512;
  RSPAMD_TASK_STAGE_LEARN_POST := 1024;
  RSPAMD_TASK_STAGE_DONE := 2048;
  RSPAMD_TASK_FLAG_MIME := 1;
  RSPAMD_TASK_FLAG_JSON := 2;
  RSPAMD_TASK_FLAG_PASS_ALL := 4;
  RSPAMD_TASK_FLAG_SKIP := 8;
  RSPAMD_TASK_FLAG_HAS_CONTROL := 16;
  RSPAMD_TASK_FLAG_PROCESSING := 32;
  RSPAMD_TASK_FLAG_FILE := 64;
  RSPAMD_TASK_FLAG_LEARN_SPAM := 128;
  RSPAMD_TASK_FLAG_LEARN_HAM := 256;
  RSPAMD_TASK_FLAG_LEARN_AUTO := 512;
  RSPAMD_TASK_FLAG_EMPTY := 1024;
  RSPAMD_TASK_FLAG_NO_LOG := 2048;
  METRIC_ACTION_REJECT := 0;
  METRIC_ACTION_MAX := 6;
  RSPAMD_PROTOCOL_ERROR := 1;
  RSPAMD_LOG_FLAG_CONDITION := 1;
  RSPAMD_LOG_FLAG_SYMBOLS_SCORES := 2;
  RSPAMD_LOG_FLAG_SYMBOLS_PARAMS := 4;
  PATH_MAX := 4096;
  DEFAULT_METRIC := "default"
|}.

(** ** The data model *)

Record GError : Type := {
  error_domain : string;
  error_code : Z;
  error_message : string
}.

(** [struct rspamd_email_address]: [addr] may be [NULL]; [addr_len] is
    the length of the string it points to. *)
Record rspamd_email_address : Type := {
  addr : option string
}.

Definition addr_len (a : rspamd_email_address) : Z :=
  match addr a with
  | Some s => Z.of_nat (String.length s)
  | None => 0
  end.

(** An [InternetAddress] of the MIME parser: a mailbox or a group. *)
Inductive InternetAddress : Type :=
| IA_Mailbox (mailbox_addr : string)
| IA_Group.

Record symbol : Type := {
  sym_name : option string;
  sym_score : float;
  sym_options : list string
}.

(** [struct metric_result].  [symbols] is a hash table that the code
    only iterates: the list holds its values in iteration order. *)
Record metric_result : Type := {
  mres_score : float;
  mres_action : Z;
  actions_limits : Z -> float;
  mres_symbols : list symbol
}.

Inductive rspamd_log_format_type : Set :=
| RSPAMD_LOG_STRING | RSPAMD_LOG_LUA
| RSPAMD_LOG_MID | RSPAMD_LOG_QID | RSPAMD_LOG_USER
| RSPAMD_LOG_ISSPAM | RSPAMD_LOG_ACTION | RSPAMD_LOG_SCORES | RSPAMD_LOG_SYMBOLS
| RSPAMD_LOG_IP | RSPAMD_LOG_LEN | RSPAMD_LOG_DNS_REQ
| RSPAMD_LOG_SMTP_FROM | RSPAMD_LOG_MIME_FROM
| RSPAMD_LOG_SMTP_RCPT | RSPAMD_LOG_MIME_RCPT
| RSPAMD_LOG_SMTP_RCPTS | RSPAMD_LOG_MIME_RCPTS
| RSPAMD_LOG_TIME_REAL | RSPAMD_LOG_TIME_VIRTUAL.

(** [lf->data] is a [gpointer]: the literal of a STRING item, the
    registry reference of a LUA item, the content template of a variable
    (or [NULL]). *)
Inductive log_data : Type :=
| DataNull
| DataText (text : string)
| DataRef (ref : Z).

Record rspamd_log_format : Type := {
  lf_type : rspamd_log_format_type;
  lf_flags : Z;
  lf_data : log_data
}.

Record rspamd_config : Type := {
  check_all_filters : bool;
  log_format : list rspamd_log_format;
  clock_res : Z
}.

(** The byte window [task->msg]: an address and a length. *)
Record task_msg : Type := {
  begin : Z;
  len : Z
}.

(** What [rspamd_mempool_add_destructor] registers: the function and
    what it is to release (a container of the task by the name of its
    field). *)
Inductive destructor : Type :=
| g_hash_table_unref (table : string)
| rspamd_ptr_array_free_hard (array : string)
| rspamd_task_unmapper (map_begin map_len : Z)
| rspamd_fstring_free (buf : string).

Record rspamd_mempool : Type := {
  variables : gmap string string;
  destructors : list destructor
}.

Record rspamd_task : Type := {
  flags : Z;
  processed_stages : Z;
  pre_result_action : Z;
  err : option GError;
  checkpoint : option Z;
  (* the events registered with the session [task->s] and not finished *)
  s : Z;
  msg : task_msg;
  message_len : Z;
  request_headers : gmap string string;
  task_pool : rspamd_mempool;
  deliver_to : option string;
  from_envelope : option rspamd_email_address;
  rcpt_envelope : option (list rspamd_email_address);
  from_mime : option (list InternetAddress);
  rcpt_mime : option (list InternetAddress);
  message_id : option string;
  queue_id : option string;
  user : option string;
  from_addr : option Z;
  dns_requests : Z;
  time_real : float;
  time_virtual : float;
  results : gmap string metric_result;
  cfg : rspamd_config
}.

Definition set_flags (t : rspamd_task) (v : Z) : rspamd_task :=
  let 'Build_rspamd_task _ a2 a3 a4 a5 a6 a7 a8 a9 a10 a11 a12 a13 a14 a15
        a16 a17 a18 a19 a20 a21 a22 a23 a24 := t in
  Build_rspamd_task v a2 a3 a4 a5 a6 a7 a8 a9 a10 a11 a12 a13 a14 a15
        a16 a17 a18 a19 a20 a21 a22 a23 a24.

Definition set_processed_stages (t : rspamd_task) (v : Z) : rspamd_task :=
  let 'Build_rspamd_task a1 _ a3 a4 a5 a6 a7 a8 a9 a10 a11 a12 a13 a14 a15
        a16 a17 a18 a19 a20 a21 a22 a23 a24 := t in
  Build_rspamd_task a1 v a3 a4 a5 a6 a7 a8 a9 a10 a11 a12 a13 a14 a15
        a16 a17 a18 a19 a20 a21 a22 a23 a24.

Definition set_err (t : rspamd_task) (v : option GError) : rspamd_task :=
  let 'Build_rspamd_task a1 a2 a3 _ a5 a6 a7 a8 a9 a10 a11 a12 a13 a14 a15
        a16 a17 a18 a19 a20 a21 a22 a23 a24 := t in
  Build_rspamd_task a1 a2 a3 v a5 a6 a7 a8 a9 a10 a11 a12 a13 a14 a15
        a16 a17 a18 a19 a20 a21 a22 a23 a24.

Definition set_checkpoint (t : rspamd_task) (v : option Z) : rspamd_task :=
  let 'Build_rspamd_task a1 a2 a3 a4 _ a6 a7 a8 a9 a10 a11 a12 a13 a14 a15
        a16 a17 a18 a19 a20 a21 a22 a23 a24 := t in
  Build_rspamd_task a1 a2 a3 a4 v a6 a7 a8 a9 a10 a11 a12 a13 a14 a15
        a16 a17 a18 a19 a20 a21 a22 a23 a24.

Definition set_msg (t : rspamd_task) (v : task_msg) : rspamd_task :=
  let 'Build_rspamd_task a1 a2 a3 a4 a5 a6 _ a8 a9 a10 a11 a12 a13 a14 a15
        a16 a17 a18 a19 a20 a21 a22 a23 a24 := t in
  Build_rspamd_task a1 a2 a3 a4 a5 a6 v a8 a9 a10 a11 a12 a13 a14 a15
        a16 a17 a18 a19 a20 a21 a22 a23 a24.

Definition set_task_pool (t : rspamd_task) (v : rspamd_mempool) : rspamd_task :=
  let 'Build_rspamd_task a1 a2 a3 a4 a5 a6 a7 a8 a9 _ a11 a12 a13 a14 a15
        a16 a17 a18 a19 a20 a21 a22 a23 a24 := t in
  Build_rspamd_task a1 a2 a3 a4 a5 a6 a7 a8 a9 v a11 a12 a13 a14 a15
        a16 a17 a18 a19 a20 a21 a22 a23 a24.

Definition set_pre_result_action (t : rspamd_task) (v : Z) : rspamd_task :=
  let 'Build_rspamd_task
        a1 a2 _ a4 a5 a6 a7 a8 a9 a10 a11 a12 a13 a14 a15 a16 a17 a18 a19
        a20 a21 a22 a23 a24 := t in
  Build_rspamd_task
        a1 a2 v a4 a5 a6 a7 a8 a9 a10 a11 a12 a13 a14 a15 a16 a17 a18 a19
        a20 a21 a22 a23 a24.

Definition set_message_len (t : rspamd_task) (v : Z) : rspamd_task :=
  let 'Build_rspamd_task
        a1 a2 a3 a4 a5 a6 a7 _ a9 a10 a11 a12 a13 a14 a15 a16 a17 a18 a19
        a20 a21 a22 a23 a24 := t in
  Build_rspamd_task
        a1 a2 a3 a4 a5 a6 a7 v a9 a10 a11 a12 a13 a14 a15 a16 a17 a18 a19
        a20 a21 a22 a23 a24.

Definition set_request_headers
    (t : rspamd_task) (v : gmap string string) : rspamd_task :=
  let 'Build_rspamd_task
        a1 a2 a3 a4 a5 a6 a7 a8 _ a10 a11 a12 a13 a14 a15 a16 a17 a18 a19
        a20 a21 a22 a23 a24 := t in
  Build_rspamd_task
        a1 a2 a3 a4 a5 a6 a7 a8 v a10 a11 a12 a13 a14 a15 a16 a17 a18 a19
        a20 a21 a22 a23 a24.

Definition set_deliver_to (t : rspamd_task) (v : option string) : rspamd_task :=
  let 'Build_rspamd_task
        a1 a2 a3 a4 a5 a6 a7 a8 a9 a10 _ a12 a13 a14 a15 a16 a17 a18 a19 a20
        a21 a22 a23 a24 := t in
  Build_rspamd_task
        a1 a2 a3 a4 a5 a6 a7 a8 a9 a10 v a12 a13 a14 a15 a16 a17 a18 a19 a20
        a21 a22 a23 a24.

Definition set_from_envelope
    (t : rspamd_task) (v : option rspamd_email_address) : rspamd_task :=
  let 'Build_rspamd_task
        a1 a2 a3 a4 a5 a6 a7 a8 a9 a10 a11 _ a13 a14 a15 a16 a17 a18 a19 a20
        a21 a22 a23 a24 := t in
  Build_rspamd_task
        a1 a2 a3 a4 a5 a6 a7 a8 a9 a10 a11 v a13 a14 a15 a16 a17 a18 a19 a20
        a21 a22 a23 a24.

Definition set_rcpt_envelope
    (t : rspamd_task) (v : option (list rspamd_email_address)) : rspamd_task :=
  let 'Build_rspamd_task
        a1 a2 a3 a4 a5 a6 a7 a8 a9 a10 a11 a12 _ a14 a15 a16 a17 a18 a19 a20
        a21 a22 a23 a24 := t in
  Build_rspamd_task
        a1 a2 a3 a4 a5 a6 a7 a8 a9 a10 a11 a12 v a14 a15 a16 a17 a18 a19 a20
        a21 a22 a23 a24.

Definition set_rcpt_mime
    (t : rspamd_task) (v : option (list InternetAddress)) : rspamd_task :=
  let 'Build_rspamd_task
        a1 a2 a3 a4 a5 a6 a7 a8 a9 a10 a11 a12 a13 a14 _ a16 a17 a18 a19 a20
        a21 a22 a23 a24 := t in
  Build_rspamd_task
        a1 a2 a3 a4 a5 a6 a7 a8 a9 a10 a11 a12 a13 a14 v a16 a17 a18 a19 a20
        a21 a22 a23 a24.

Definition set_results
    (t : rspamd_task) (v : gmap string metric_result) : rspamd_task :=
  let 'Build_rspamd_task
        a1 a2 a3 a4 a5 a6 a7 a8 a9 a10 a11 a12 a13 a14 a15 a16 a17 a18 a19
        a20 a21 a22 _ a24 := t in
  Build_rspamd_task
        a1 a2 a3 a4 a5 a6 a7 a8 a9 a10 a11 a12 a13 a14 a15 a16 a17 a18 a19
        a20 a21 a22 v a24.

Definition set_s (t : rspamd_task) (v : Z) : rspamd_task :=
  let 'Build_rspamd_task
        a1 a2 a3 a4 a5 _ a7 a8 a9 a10 a11 a12 a13 a14 a15 a16 a17 a18 a19
        a20 a21 a22 a23 a24 := t in
  Build_rspamd_task
        a1 a2 a3 a4 a5 v a7 a8 a9 a10 a11 a12 a13 a14 a15 a16 a17 a18 a19
        a20 a21 a22 a23 a24.

(** [rspamd_mempool_add_destructor]: the list is kept newest first, the
    order in which the pool runs it. *)
Definition rspamd_mempool_add_destructor (t : rspamd_task) (d : destructor) : rspamd_task :=
  set_task_pool t {| variables := variables (task_pool t);
                     destructors := d :: destructors (task_pool t) |}.

Definition rspamd_mempool_set_variable (t : rspamd_task) (k v : string) : rspamd_task :=
  set_task_pool t {| variables := <[k := v]> (variables (task_pool t));
                     destructors := destructors (task_pool t) |}.

Definition rspamd_mempool_get_variable (t : rspamd_task) (k : string) : option string :=
  variables (task_pool t) !! k.

(** [g_set_error] of GLib: it stores the new error when the location is
    empty and leaves an error that is already there in place. *)
Definition g_set_error (t : rspamd_task) (e : GError) : rspamd_task :=
  match err t with
  | None => set_err t (Some e)
  | Some _ => t
  end.

Definition rspamd_task_quark : string := "task-error".

(** A bit test [x & m], as a C condition. *)
Definition has_bits (x m : Z) : bool := negb (Z.land x m =? 0).

Section Macros.
Context `{task_h}.

(** Modelled from the spec: the macros of [task.h] ("processed-terminal",
    "skipped", "empty-message"), which test one bit each. *)
Definition RSPAMD_TASK_IS_PROCESSED (t : rspamd_task) : bool :=
  has_bits (processed_stages t) RSPAMD_TASK_STAGE_DONE.
Definition RSPAMD_TASK_IS_SKIPPED (t : rspamd_task) : bool :=
  has_bits (flags t) RSPAMD_TASK_FLAG_SKIP.
Definition RSPAMD_TASK_IS_EMPTY (t : rspamd_task) : bool :=
  has_bits (flags t) RSPAMD_TASK_FLAG_EMPTY.

(** [rspamd_task_new] for a configuration [cfg]; the two clocks are read
    at the call. *)
Definition rspamd_task_new
    (cfg : rspamd_config) (ticks virtual_ticks : float) : rspamd_task :=
  {| flags :=
       Z.lor (if check_all_filters cfg then RSPAMD_TASK_FLAG_PASS_ALL else 0)
             (Z.lor RSPAMD_TASK_FLAG_MIME RSPAMD_TASK_FLAG_JSON);
     processed_stages := 0;
     pre_result_action := METRIC_ACTION_MAX;
     err := None;
     checkpoint := None;
     s := 0;
     msg := {| begin := 0; len := 0 |};
     message_len := 0;
     request_headers := ∅;
     task_pool :=
       {| variables := ∅;
          destructors :=
            [ rspamd_ptr_array_free_hard "received";
              rspamd_ptr_array_free_hard "text_parts";
              rspamd_ptr_array_free_hard "parts";
              g_hash_table_unref "urls";
              g_hash_table_unref "emails";
              g_hash_table_unref "raw_headers";
              g_hash_table_unref "reply_headers";
              g_hash_table_unref "request_headers";
              g_hash_table_unref "results" ] |};
     deliver_to := None;
     from_envelope := None;
     rcpt_envelope := None;
     from_mime := None;
     rcpt_mime := None;
     message_id := Some "undef";
     queue_id := Some "undef";
     user := None;
     from_addr := None;
     dns_requests := 0;
     time_real := ticks;
     time_virtual := virtual_ticks;
     results := ∅;
     cfg := cfg |}.
End Macros.

(** ** The stage selector *)

Module Select.
Section SelectModel.
Context `{task_h}.

(** [for (st = 1; mask != 1; st ++) mask = (unsigned int)mask >> 1;]
    on the unsigned value of [mask].  A 32-bit value other than 0
    reaches 1 within 31 shifts, so 32 rounds are the whole loop. *)
Fixpoint highest_bit_loop (rounds : nat) (mask st : Z) : outcome Z :=
  if mask =? 1 then Ret st
  else match rounds with
       | O => Fault OutOfFuel
       | S rounds' => highest_bit_loop rounds' (Z.shiftr mask 1) (st + 1)
       end.

(** [1 << st] in [gint]: defined when the result fits, i.e. [st <= 30]. *)
Definition shl1 (st : Z) : outcome Z :=
  if (0 <=? st) && (st <=? 30) then Ret (Z.shiftl 1 st) else Fault UndefinedShift.

Fixpoint rspamd_task_select_processing_stage
    (fuel : nat) (task : rspamd_task) (stages : Z) : outcome (Z * rspamd_task) :=
  match fuel with
  | O => Fault OutOfFuel
  | S fuel' =>
      let mask := processed_stages task in
      do st <- (if mask =? 0 then Ret 0 else highest_bit_loop 32 mask 1);
      do st <- shl1 st;
      if has_bits stages st then Ret (st, task)
      else if st <? RSPAMD_TASK_STAGE_DONE then
        (* We assume that the stage that was not requested is done *)
        rspamd_task_select_processing_stage fuel'
          (set_processed_stages task (Z.lor (processed_stages task) st)) stages
      else Ret (RSPAMD_TASK_STAGE_DONE, task)
  end.

(** The index of the lowest bit above every bit set in a bitmap. *)
Definition next_bit (bitmap : Z) : Z :=
  if bitmap =? 0 then 0 else Z.log2 bitmap + 1.

(** What the selector answers on the bitmap [ps] for the request [req],
    when the terminal stage is the bit [dbit]: the result [r] and the
    bitmap [ps'] it leaves.  With [h] the lowest bit above all bits of
    [ps]: [r] is the lowest bit of [req] from [h] on below the terminal
    bit, and the terminal stage when there is none; the bits from [h]
    up to [r] (none of them in [req]) have been added to the bitmap, and
    no other. *)
Definition selected (dbit ps req r ps' : Z) : Prop :=
  let h := next_bit ps in
  (forall k, h <= k < dbit -> Z.testbit req k = true ->
     (forall j, h <= j < k -> Z.testbit req j = false) -> r = 2 ^ k)
  /\ ((forall j, h <= j < dbit -> Z.testbit req j = false) -> r = 2 ^ dbit)
  /\ (r = 2 ^ dbit \/ exists k, h <= k < dbit /\ r = 2 ^ k)
  /\ (forall j, 0 <= j ->
        Z.testbit ps' j = Z.testbit ps j || ((h <=? j) && (j <? Z.log2 r))).

End SelectModel.
End Select.

(** ** The pipeline engine *)

Module Process.

(** The result of [rspamd_stat_classify]. *)
Inductive rspamd_stat_result : Set :=
| RSPAMD_STAT_PROCESS_OK
| RSPAMD_STAT_PROCESS_ERROR.

(** The stage handlers live in other modules.  Each receives the task
    and may change any part of it; those that can fail also report a
    result, and the statistics calls fill [stat_error]. *)
Class stage_handlers : Type := {
  rspamd_message_parse : rspamd_task -> bool * rspamd_task;
  rspamd_lua_call_pre_filters : rspamd_task -> rspamd_task;
  rspamd_symbols_cache_process_symbols : rspamd_task -> bool * rspamd_task;
  rspamd_stat_classify :
    rspamd_task -> Z -> rspamd_stat_result * option GError * rspamd_task;
  rspamd_make_composites : rspamd_task -> rspamd_task;
  rspamd_lua_call_post_filters : rspamd_task -> rspamd_task;
  rspamd_stat_check_autolearn : rspamd_task -> rspamd_task;
  (* task, the [spam] argument, the stage *)
  rspamd_stat_learn :
    rspamd_task -> Z -> Z -> bool * option GError * rspamd_task
}.

(** The calls the engine makes to the handlers, in the order made. *)
Inductive handler_call : Set :=
| call_message_parse
| call_pre_filters
| call_process_filters
| call_stat_classify (st : Z)
| call_make_composites
| call_post_filters
| call_check_autolearn
| call_stat_learn (st : Z).

(** Modelled from the spec: [rspamd_session_events_pending (task->s)] of
    the session module, which is not among the sources ("are there
    pending events?").  The field [s] of the task stands for the
    session and holds the number of its pending events. *)
Definition rspamd_session_events_pending (session : Z) : Z := session.

Section ProcessModel.
Context `{task_h} `{stage_handlers}.

Definition mark_done (task : rspamd_task) : rspamd_task :=
  set_processed_stages task
    (Z.lor (processed_stages task) RSPAMD_TASK_STAGE_DONE).

Definition rspamd_process_filters (task : rspamd_task) : bool * rspamd_task :=
  rspamd_symbols_cache_process_symbols task.

(** The [switch (st)] of [rspamd_task_process]: the value of [ret], the
    task and the calls made. *)
Definition dispatch_stage (st : Z) (task : rspamd_task) (calls : list handler_call)
  : bool * rspamd_task * list handler_call :=
  if st =? RSPAMD_TASK_STAGE_READ_MESSAGE then
    let '(ok, task) := rspamd_message_parse task in
    (ok, task, calls ++ [call_message_parse])
  else if st =? RSPAMD_TASK_STAGE_PRE_FILTERS then
    (true, rspamd_lua_call_pre_filters task, calls ++ [call_pre_filters])
  else if st =? RSPAMD_TASK_STAGE_FILTERS then
    let '(ok, task) := rspamd_process_filters task in
    (ok, task, calls ++ [call_process_filters])
  else if (st =? RSPAMD_TASK_STAGE_CLASSIFIERS)
          || (st =? RSPAMD_TASK_STAGE_CLASSIFIERS_PRE)
          || (st =? RSPAMD_TASK_STAGE_CLASSIFIERS_POST) then
    if negb (RSPAMD_TASK_IS_EMPTY task) then
      (* a classify error is logged and its GError freed *)
      let '(_, _, task) := rspamd_stat_classify task st in
      (true, task, calls ++ [call_stat_classify st])
    else (true, task, calls)
  else if st =? RSPAMD_TASK_STAGE_COMPOSITES then
    (true, rspamd_make_composites task, calls ++ [call_make_composites])
  else if st =? RSPAMD_TASK_STAGE_POST_FILTERS then
    let task := rspamd_lua_call_post_filters task in
    let calls := calls ++ [call_post_filters] in
    if has_bits (flags task) RSPAMD_TASK_FLAG_LEARN_AUTO
       && negb (RSPAMD_TASK_IS_EMPTY task) then
      (true, rspamd_stat_check_autolearn task, calls ++ [call_check_autolearn])
    else (true, task, calls)
  else if (st =? RSPAMD_TASK_STAGE_LEARN)
          || (st =? RSPAMD_TASK_STAGE_LEARN_PRE)
          || (st =? RSPAMD_TASK_STAGE_LEARN_POST) then
    if has_bits (flags task)
         (Z.lor RSPAMD_TASK_FLAG_LEARN_SPAM RSPAMD_TASK_FLAG_LEARN_HAM) then
      match err task with
      | None =>
          let '(ok, stat_error, task) :=
            rspamd_stat_learn task
              (Z.land (flags task) RSPAMD_TASK_FLAG_LEARN_SPAM) st in
          let calls := calls ++ [call_stat_learn st] in
          if negb ok then
            let task :=
              if negb (has_bits (flags task) RSPAMD_TASK_FLAG_LEARN_AUTO)
              then set_err task stat_error else task in
            (true, mark_done task, calls)
          else (true, task, calls)
      | Some _ => (true, task, calls)
      end
    else (true, task, calls)
  else if st =? RSPAMD_TASK_STAGE_DONE then
    (true, mark_done task, calls)
  else
    (* TODO: not implemented stage *)
    (true, task, calls).

(** The selector raises the highest bit of [processed_stages] at each of
    its calls and stops at bit 30, so it never needs more fuel than this. *)
Definition select_fuel : nat := 33.

(** [rspamd_task_process]; [fuel] bounds its tail recursion. *)
Fixpoint rspamd_task_process
    (fuel : nat) (task : rspamd_task) (stages : Z) (calls : list handler_call)
  : outcome (bool * rspamd_task * list handler_call) :=
  match fuel with
  | O => Fault OutOfFuel
  | S fuel' =>
      (* Avoid nested calls *)
      if has_bits (flags task) RSPAMD_TASK_FLAG_PROCESSING then
        Ret (true, task, calls)
      else if RSPAMD_TASK_IS_PROCESSED task then
        Ret (true, task, calls)
      else if negb (pre_result_action task =? METRIC_ACTION_MAX) then
        (* Skip all if we have result here *)
        Ret (true, mark_done task, calls)
      else
        let task :=
          set_flags task (Z.lor (flags task) RSPAMD_TASK_FLAG_PROCESSING) in
        do sel <-
          Select.rspamd_task_select_processing_stage select_fuel task stages;
        let '(st, task) := sel in
        let '(ret, task, calls) := dispatch_stage st task calls in
        let task := if RSPAMD_TASK_IS_SKIPPED task then mark_done task else task in
        let task :=
          set_flags task
            (Z.land (flags task) (Z.lnot RSPAMD_TASK_FLAG_PROCESSING)) in
        if negb ret || RSPAMD_TASK_IS_PROCESSED task then
          (* Set processed flags *)
          Ret (ret, (if negb ret then mark_done task else task), calls)
        else if negb (rspamd_session_events_pending (s task) =? 0) then
          (* We have events pending, so we consider this stage as incomplete *)
          Ret (ret, task, calls)
        else
          (* Mark the current stage as done and go to the next stage *)
          let task := set_processed_stages task (Z.lor (processed_stages task) st) in
          let task := set_checkpoint task None in
          rspamd_task_process fuel' task stages calls
  end.

(** [rspamd_task_fin]: whether the session is to terminate; the reply
    is written exactly when it is. *)
Definition rspamd_task_fin
    (fuel : nat) (all_stages : Z) (task : rspamd_task) (calls : list handler_call)
  : outcome (bool * rspamd_task * list handler_call) :=
  if RSPAMD_TASK_IS_PROCESSED task then Ret (true, task, calls)
  else
    do r <- rspamd_task_process fuel task all_stages calls;
    let '(ok, task, calls) := r in
    if negb ok then Ret (true, task, calls)
    else if RSPAMD_TASK_IS_PROCESSED task then Ret (true, task, calls)
    else Ret (false, task, calls).

(** The task after the [switch], the check of the skip flag and the
    release of the in-progress flag. *)
Definition after_stage (t2 : rspamd_task) : rspamd_task :=
  let t3 := if RSPAMD_TASK_IS_SKIPPED t2 then mark_done t2 else t2 in
  set_flags t3 (Z.land (flags t3) (Z.lnot RSPAMD_TASK_FLAG_PROCESSING)).

(** [rspamd_learn_task_spam]: it always answers [TRUE].  The field
    [task->classifier], which it assigns, is not among the fields of
    [rspamd_task] above: the value assigned is the last component of the
    result.  The argument [err] is not used. *)
Definition rspamd_learn_task_spam
    (task : rspamd_task) (is_spam : bool) (classifier : option string)
  : bool * rspamd_task * option string :=
  let task :=
    if is_spam
    then set_flags task (Z.lor (flags task) RSPAMD_TASK_FLAG_LEARN_SPAM)
    else set_flags task (Z.lor (flags task) RSPAMD_TASK_FLAG_LEARN_HAM) in
  (true, task, classifier).

(** The stage in whose [case] of [rspamd_task_process] a call is made. *)
Definition stage_of_call (c : handler_call) : Z :=
  match c with
  | call_message_parse => RSPAMD_TASK_STAGE_READ_MESSAGE
  | call_pre_filters => RSPAMD_TASK_STAGE_PRE_FILTERS
  | call_process_filters => RSPAMD_TASK_STAGE_FILTERS
  | call_stat_classify st => st
  | call_make_composites => RSPAMD_TASK_STAGE_COMPOSITES
  | call_post_filters => RSPAMD_TASK_STAGE_POST_FILTERS
  | call_check_autolearn => RSPAMD_TASK_STAGE_POST_FILTERS
  | call_stat_learn st => st
  end.

(** The calls that hand the message to the statistics for a verdict:
    the classifier and the check for automatic learning. *)
Definition classifier_call (c : handler_call) : bool :=
  match c with
  | call_stat_classify _ | call_check_autolearn => true
  | _ => false
  end.

(** No handler changes what [field] reads of the task. *)
Record handlers_keep {A : Type} (field : rspamd_task -> A) : Prop := {
  keep_message_parse : forall t,
    field (snd (rspamd_message_parse t)) = field t;
  keep_pre_filters : forall t,
    field (rspamd_lua_call_pre_filters t) = field t;
  keep_process_symbols : forall t,
    field (snd (rspamd_symbols_cache_process_symbols t)) = field t;
  keep_stat_classify : forall t st,
    field (snd (rspamd_stat_classify t st)) = field t;
  keep_make_composites : forall t,
    field (rspamd_make_composites t) = field t;
  keep_post_filters : forall t,
    field (rspamd_lua_call_post_filters t) = field t;
  keep_check_autolearn : forall t,
    field (rspamd_stat_check_autolearn t) = field t;
  keep_stat_learn : forall t spam st,
    field (snd (rspamd_stat_learn t spam st)) = field t
}.

End ProcessModel.
End Process.

(** ** The message loader *)

Module Load.

(** The result of a system call: a value, or [-1] with the text of
    [strerror (errno)]. *)
Inductive sys (A : Type) : Type :=
| SysOk (a : A)
| SysErr (strerror : string).

Arguments SysOk {A} a.
Arguments SysErr {A} strerror.

(** What the loader does to the descriptors and mappings it obtains. *)
Inductive os_event : Set :=
| os_close (fd : Z)
| os_munmap (map size : Z).

(** An HTTP message is opaque to the loader: the protocol layer reads it. *)
Definition rspamd_http_message : Type := list (string * string).

(** The operating system, the protocol layer and the utilities the
    loader calls. *)
Class loader_env : Type := {
  rspamd_protocol_handle_headers :
    rspamd_task -> rspamd_http_message -> rspamd_task;
  rspamd_protocol_handle_control : rspamd_task -> Z -> rspamd_task;
  (* [ucl_parser_add_chunk] on [len] bytes at an address: the object
     parsed, if the chunk parses *)
  ucl_parser_add_chunk : Z -> Z -> option Z;
  rspamd_decode_url : string -> string;
  (* [rspamd_strtoul (s, len, &value)]: the content of [value] after the
     call, from the token and the content before it *)
  rspamd_strtoul : string -> Z -> Z;
  shm_open : string -> sys Z;
  fstat : Z -> sys Z;
  stat : string -> sys Z;
  open : string -> sys Z;
  (* [mmap (NULL, size, PROT_READ, MAP_SHARED, fd, 0)] *)
  mmap : Z -> Z -> sys Z
}.

(** Modelled from the spec: [rspamd_strlcpy (dst, src, siz)] of the
    string utilities, which are not among the sources ("longer values
    are truncated by the copy"): it copies at most [siz - 1] characters. *)
Definition rspamd_strlcpy (src : string) (siz : Z) : string :=
  substring 0 (Z.to_nat (siz - 1)) src.

Definition first_char_is (c : ascii) (str : string) : bool :=
  match str with
  | String c' _ => if ascii_dec c c' then true else false
  | EmptyString => false
  end.

Section LoadModel.
Context `{task_h} `{loader_env}.

(** The path named by a header: copied into [filepath[PATH_MAX]],
    URL-decoded, and stripped of its first and last character when it
    begins with a double quote and is longer than two characters. *)
Definition header_path (tok : string) : string :=
  let filepath :=
    rspamd_decode_url
      (rspamd_strlcpy tok (Z.min PATH_MAX (Z.of_nat (String.length tok) + 1))) in
  let flen := Z.of_nat (String.length filepath) in
  if first_char_is (ascii_of_nat 34) filepath && (2 <? flen) then
    substring 1 (Z.to_nat (flen - 2)) filepath
  else filepath.

Definition protocol_error (message : string) : GError :=
  {| error_domain := rspamd_task_quark;
     error_code := RSPAMD_PROTOCOL_ERROR;
     error_message := message |}.

Definition map_message
    (task : rspamd_task) (map offset size st_size : Z) : rspamd_task :=
  let task := set_msg task {| begin := map + offset; len := size |} in
  let task := set_flags task (Z.lor (flags task) RSPAMD_TASK_FLAG_FILE) in
  rspamd_mempool_add_destructor task (rspamd_task_unmapper map st_size).

(** The branch of [rspamd_task_load_message] for the [shm] header. *)
Definition load_shm (task : rspamd_task) (tok : string)
  : bool * rspamd_task * list os_event :=
  let fp := header_path tok in
  match shm_open fp with
  | SysErr e =>
      (false,
       g_set_error task
         (protocol_error ("Cannot open shm segment (" +:+ fp +:+ "): " +:+ e)),
       [])
  | SysOk fd =>
      match fstat fd with
      | SysErr e =>
          (false,
           g_set_error task
             (protocol_error ("Cannot stat shm segment (" +:+ fp +:+ "): " +:+ e)),
           [os_close fd])
      | SysOk st_size =>
          match mmap st_size fd with
          | SysErr e =>
              (false,
               g_set_error task
                 (protocol_error ("Cannot mmap file (" +:+ fp +:+ "): " +:+ e)),
               [os_close fd])
          | SysOk map =>
              let invalid := (false, task, [os_close fd; os_munmap map st_size]) in
              let offset_read :=
                match request_headers task !! "shm-offset" with
                | Some tok =>
                    let offset := rspamd_strtoul tok 0 in
                    if CInt.to_gulong st_size <? offset
                    then None        (* invalid offset: logged *)
                    else Some offset
                | None => Some 0
                end in
              match offset_read with
              | None => invalid
              | Some offset =>
                  let shmem_size := CInt.to_gulong st_size in
                  let size_read :=
                    match request_headers task !! "shm-length" with
                    | Some tok =>
                        let shmem_size := rspamd_strtoul tok shmem_size in
                        if CInt.to_gulong st_size <? shmem_size
                        then None    (* invalid length: logged *)
                        else Some shmem_size
                    | None => Some shmem_size
                    end in
                  match size_read with
                  | None => invalid
                  | Some shmem_size =>
                      (true, map_message task map offset shmem_size st_size,
                       [os_close fd])
                  end
              end
          end
      end
  end.

(** The branch for the [file] and [path] headers. *)
Definition load_file (task : rspamd_task) (tok : string)
  : bool * rspamd_task * list os_event :=
  let fp := header_path tok in
  match stat fp with
  | SysErr e =>
      (false,
       g_set_error task
         (protocol_error ("Invalid file (" +:+ fp +:+ "): " +:+ e)),
       [])
  | SysOk st_size =>
      match open fp with
      | SysErr e =>
          (false,
           g_set_error task
             (protocol_error ("Cannot open file (" +:+ fp +:+ "): " +:+ e)),
           [])
      | SysOk fd =>
          match mmap st_size fd with
          | SysErr e =>
              (false,
               g_set_error task
                 (protocol_error ("Cannot mmap file (" +:+ fp +:+ "): " +:+ e)),
               [os_close fd])
          | SysOk map =>
              (true, map_message task map 0 st_size st_size, [os_close fd])
          end
      end
  end.

(** Plain data: the message is the [len] bytes at [start]. *)
Definition load_inline (task : rspamd_task) (start length : Z)
  : bool * rspamd_task * list os_event :=
  let task := set_msg task {| begin := start; len := length |} in
  let task :=
    if len (msg task) =? 0
    then set_flags task (Z.lor (flags task) RSPAMD_TASK_FLAG_EMPTY)
    else task in
  if has_bits (flags task) RSPAMD_TASK_FLAG_HAS_CONTROL then
    (* We have control chunk, so we need to process it separately *)
    if len (msg task) <? message_len task then
      (false, g_set_error task (protocol_error "Invalid length"), [])
    else
      let control_len := CInt.to_guint (len (msg task) - message_len task) in
      if 0 <? control_len then
        let task :=
          match ucl_parser_add_chunk (begin (msg task)) control_len with
          | None => task      (* the parser's error is logged *)
          | Some control_obj => rspamd_protocol_handle_control task control_obj
          end in
        (true,
         set_msg task
           {| begin := begin (msg task) + control_len;
              len := CInt.to_gsize (len (msg task) - control_len) |},
         [])
      else (true, task, [])
  else (true, task, []).

(** The task after [rspamd_protocol_handle_headers], called when the
    request came with an HTTP message. *)
Definition with_headers
    (task : rspamd_task) (http : option rspamd_http_message) : rspamd_task :=
  match http with
  | Some m => rspamd_protocol_handle_headers task m
  | None => task
  end.

Definition rspamd_task_load_message
    (task : rspamd_task) (http : option rspamd_http_message) (start length : Z)
  : bool * rspamd_task * list os_event :=
  let task := with_headers task http in
  match request_headers task !! "shm" with
  | Some tok => load_shm task tok
  | None =>
      let tok :=
        match request_headers task !! "file" with
        | Some tok => Some tok
        | None => request_headers task !! "path"
        end in
      match tok with
      | Some tok => load_file task tok
      | None => load_inline task start length
      end
  end.

(** No [shm], [file] or [path] header: the message is the inline data. *)
Definition inline_request (task : rspamd_task) : Prop :=
  request_headers task !! "shm" = None
  /\ request_headers task !! "file" = None
  /\ request_headers task !! "path" = None.

(** The task once the loader has recorded the inline window: [msg] is
    the whole input, and the empty-message flag is set for no input. *)
Definition with_inline_window (task : rspamd_task) (start length : Z) : rspamd_task :=
  let task := set_msg task {| begin := start; len := length |} in
  if length =? 0
  then set_flags task (Z.lor (flags task) RSPAMD_TASK_FLAG_EMPTY)
  else task.

(** The header that names a file to map: [file], or else [path]. *)
Definition file_header (task : rspamd_task) : option string :=
  match request_headers task !! "file" with
  | Some tok => Some tok
  | None => request_headers task !! "path"
  end.

(** The loader obtains the descriptor [fd]: from [shm_open] for a [shm]
    header; from [open], which it calls after a successful [stat], for a
    [file] or [path] header. *)
Definition opens_descriptor (task : rspamd_task) (fd : Z) : Prop :=
  match request_headers task !! "shm" with
  | Some tok => shm_open (header_path tok) = SysOk fd
  | None =>
      match file_header task with
      | Some tok =>
          (exists st_size, stat (header_path tok) = SysOk st_size)
          /\ open (header_path tok) = SysOk fd
      | None => False
      end
  end.

(** The loader maps [st_size] bytes at the address [map]. *)
Definition maps_segment (task : rspamd_task) (map st_size : Z) : Prop :=
  match request_headers task !! "shm" with
  | Some tok =>
      exists fd,
        shm_open (header_path tok) = SysOk fd
        /\ fstat fd = SysOk st_size
        /\ mmap st_size fd = SysOk map
  | None =>
      match file_header task with
      | Some tok =>
          exists fd,
            stat (header_path tok) = SysOk st_size
            /\ open (header_path tok) = SysOk fd
            /\ mmap st_size fd = SysOk map
      | None => False
      end
  end.

Definition is_close (e : os_event) : bool :=
  match e with
  | os_close _ => true
  | os_munmap _ _ => false
  end.

Definition is_munmap (e : os_event) : bool :=
  match e with
  | os_close _ => false
  | os_munmap _ _ => true
  end.

End LoadModel.
End Load.

(** ** GLib and GMime containers *)

(** [g_ptr_array_index (array, i)] is the macro [array->pdata[i]]: it
    checks nothing, and an index past the length reads outside the
    array. *)
Definition g_ptr_array_index {A : Type} (array : list A) (i : Z) : outcome A :=
  if i <? 0 then Fault OutOfBounds
  else match nth_error array (Z.to_nat i) with
       | Some a => Ret a
       | None => Fault OutOfBounds
       end.

(** [internet_address_list_get_address (list, i)] of GMime returns
    [NULL] for an index outside the list. *)
Definition internet_address_list_get_address
    (ialist : list InternetAddress) (i : Z) : option InternetAddress :=
  if i <? 0 then None else nth_error ialist (Z.to_nat i).

Definition internet_address_list_length (ialist : list InternetAddress) : Z :=
  Z.of_nat (length ialist).

Definition strlen (str : string) : Z := Z.of_nat (String.length str).

(** ** The principal recipient *)

Module Recipient.

Class str_util : Type := {
  (* [rspamd_str_lc]: the string in lower case *)
  rspamd_str_lc : string -> string
}.

Section RecipientModel.
Context `{str_util}.

Definition rspamd_task_cache_principal_recipient
    (task : rspamd_task) (rcpt : option string) (length : Z)
  : option string * rspamd_task :=
  match rcpt with
  | None => (None, task)
  | Some rcpt =>
      let rcpt_lc := rspamd_str_lc (Load.rspamd_strlcpy rcpt (length + 1)) in
      (Some rcpt_lc, rspamd_mempool_set_variable task "recipient" rcpt_lc)
  end.

(** The part of [rspamd_task_get_principal_recipient] after the envelope
    recipients: the first address of [rcpt_mime], if it is a mailbox. *)
Definition principal_mime_recipient (task : rspamd_task)
  : option string * rspamd_task :=
  let iaelt :=
    match rcpt_mime task with
    | Some ialist => internet_address_list_get_address ialist 0
    | None => None
    end in
  match iaelt with
  | Some (IA_Mailbox val) =>
      rspamd_task_cache_principal_recipient task (Some val) (strlen val)
  | _ => (None, task)
  end.

Definition rspamd_task_get_principal_recipient (task : rspamd_task)
  : outcome (option string * rspamd_task) :=
  match rspamd_mempool_get_variable task "recipient" with
  | Some val => Ret (Some val, task)
  | None =>
      match deliver_to task with
      | Some to =>
          Ret (rspamd_task_cache_principal_recipient task (Some to) (strlen to))
      | None =>
          match rcpt_envelope task with
          | Some array =>
              do a <- g_ptr_array_index array 0;
              match addr a with
              | Some str =>
                  Ret (rspamd_task_cache_principal_recipient task
                         (Some str) (addr_len a))
              | None => Ret (principal_mime_recipient task)
              end
          | None => Ret (principal_mime_recipient task)
          end
      end
  end.

End RecipientModel.
End Recipient.

(** ** The log formatter *)

Module Log.

(** Do not print more than this amount of elts *)
Definition max_log_elts : Z := 7.

(** Address printing, clocks, the action names, the [printf] conversions
    of [rspamd_snprintf] and the Lua callbacks of the log format. *)
Class log_env : Type := {
  rspamd_ip_is_valid : Z -> bool;
  rspamd_inet_address_to_string : Z -> string;
  rspamd_action_to_str : Z -> string;
  rspamd_log_check_time : float -> float -> Z -> string;
  rspamd_get_ticks : float;
  rspamd_get_virtual_ticks : float;
  print_gsize : Z -> string;          (* "%uz" *)
  print_guint : Z -> string;          (* "%uD" *)
  print_double2 : float -> string;    (* "%.2f" *)
  print_null : string;                (* "%s" of a NULL pointer *)
  (* the callback of a LUA item: the string it returns, if it does *)
  lua_log_call : Z -> rspamd_task -> option string
}.

(** [strcmp]: negative, zero or positive as the first string is below,
    equal to or above the second, byte by byte.  Only the sign is
    specified; the model returns -1, 0 or 1. *)
Definition strcmp (a b : string) : Z :=
  match String.compare a b with
  | Eq => 0
  | Lt => -1
  | Gt => 1
  end.

(** The conversion of a [gdouble] to [gint]: the fraction is dropped;
    a value that [gint] cannot hold, an infinity or a NaN is undefined. *)
Definition double_to_gint (d : float) : outcome Z :=
  match Prim2SF d with
  | S754_zero _ => Ret 0
  | S754_finite negative m e =>
      let magnitude :=
        if 0 <=? e then Z.shiftl (Z.pos m) e else Z.shiftr (Z.pos m) (- e) in
      let v := if negative then - magnitude else magnitude in
      if (CInt.G_MININT <=? v) && (v <=? CInt.G_MAXINT) then Ret v
      else Fault UndefinedConversion
  | S754_infinity _ => Fault UndefinedConversion
  | S754_nan => Fault UndefinedConversion
  end.

(** Sort by symbol's score -> name *)
Definition rspamd_task_compare_log_sym (s1 s2 : symbol) : outcome Z :=
  let w1 := PrimFloat.abs (sym_score s1) in
  let w2 := PrimFloat.abs (sym_score s2) in
  match PrimFloat.eqb w1 w2, sym_name s1, sym_name s2 with
  | true, Some name1, Some name2 => Ret (strcmp name1 name2)
  | _, _, _ => double_to_gint (PrimFloat.mul (PrimFloat.sub w2 w1) 1000%float)
  end.

Section Sort.
Context {A : Type} (compare_func : A -> A -> outcome Z).

(** [g_ptr_array_sort] of GLib sorts the pointers with a merge sort,
    [msort_with_tmp] of its [gqsort.c], which is the one of the [qsort]
    of the C library.

    The merge of two sorted runs [b1] and [b2]:
    while both have elements, it takes the head of [b1] when the
    comparator answers at most 0 for the two heads ([cmp (b1, b2, arg)
    <= 0]) and the head of [b2] otherwise; what is left of one run
    follows. *)
Fixpoint merge (b1 : list A) : list A -> outcome (list A) :=
  fix merge_b2 (b2 : list A) : outcome (list A) :=
    match b1, b2 with
    | [], _ => Ret b2
    | _, [] => Ret b1
    | x :: b1', y :: b2' =>
        do c <- compare_func x y;
        if c <=? 0 then do rest <- merge b1' b2; Ret (x :: rest)
        else do rest <- merge_b2 b2'; Ret (y :: rest)
    end.

(** [msort_with_tmp (p, b, n)]: an array of at most one element is
    left as it is; otherwise the first [n1 = n / 2] elements and the
    [n2 = n - n1] others are sorted, each by itself, and merged.
    [depth] bounds the depth of the recursion. *)
Fixpoint msort_with_tmp (depth : nat) (b : list A) : outcome (list A) :=
  match depth with
  | O => Fault OutOfFuel
  | S depth' =>
      let n := length b in
      if (n <=? 1)%nat then Ret b
      else
        let n1 := (n / 2)%nat in
        do b1 <- msort_with_tmp depth' (take n1 b);
        do b2 <- msort_with_tmp depth' (drop n1 b);
        merge b1 b2
  end.

(** An array of [n] elements is halved fewer than [n + 1] times. *)
Definition g_ptr_array_sort (array : list A) : outcome (list A) :=
  msort_with_tmp (S (length array)) array.

(** [x] goes before [y]: the comparator answers a negative number. *)
Definition precedes (x y : A) : Prop :=
  exists z, compare_func x y = Ret z /\ z < 0.

(** The comparator is a strict total order on the elements of [l]: it
    answers, and not 0, for two different elements; swapping the
    arguments swaps the sign; and going before is transitive. *)
Record strict_total_on (l : list A) : Prop := {
  cmp_decides : forall x y, x ∈ l -> y ∈ l -> x <> y ->
    exists z, compare_func x y = Ret z /\ z <> 0;
  cmp_antisym : forall x y z z', x ∈ l -> y ∈ l ->
    compare_func x y = Ret z -> compare_func y x = Ret z' -> (z < 0 <-> 0 < z');
  cmp_trans : forall x y w, x ∈ l -> y ∈ l -> w ∈ l ->
    precedes x y -> precedes y w -> precedes x w
}.

End Sort.

(** The order the specification gives the SYMBOLS list: the greater
    absolute score first, and the lower name first among equal ones. *)
Definition sym_before (a b : symbol) : Prop :=
  let wa := PrimFloat.abs (sym_score a) in
  let wb := PrimFloat.abs (sym_score b) in
  PrimFloat.ltb wb wa = true
  \/ (PrimFloat.eqb wa wb = true
      /\ exists na nb,
           sym_name a = Some na /\ sym_name b = Some nb
           /\ String.compare na nb = Lt).

(** On the symbols of [l] the comparator is a strict total order, and it
    is the order of the specification.  (It is not when two absolute
    scores differ by less than 0.001: the difference times 1000 is
    then converted to 0.) *)
Record comparator_orders (l : list symbol) : Prop := {
  orders_strictly : strict_total_on rspamd_task_compare_log_sym l;
  orders_as_specified : forall x y, x ∈ l -> y ∈ l ->
    precedes rspamd_task_compare_log_sym x y -> sym_before x y
}.

(** The double nearest to the score [k / 10]. *)
Definition tenth (k : Z) : float :=
  let m := PrimFloat.div (PrimFloat.of_uint63 (Uint63.of_Z (Z.abs k))) 10%float in
  if k <? 0 then PrimFloat.opp m else m.

(** The scores -10.0, -9.9, ..., 9.9, 10.0. *)
Definition tenths : list float := tenth <$> seqZ (-100) 201.

(** The absolute value of a score in thousandths, the fraction dropped. *)
Definition score_key (score : float) : Z :=
  match double_to_gint (PrimFloat.mul (PrimFloat.abs score) 1000%float) with
  | Ret k => k
  | Fault _ => 0
  end.

(** On the scores [a] and [b] the arithmetic of the comparator agrees
    with the keys: the absolute values are equal, or the first is below
    the second, exactly when the keys are; and the difference times 1000
    converts to a [gint] of the sign of the difference of the keys. *)
Definition comparator_agrees (a b : float) : bool :=
  let wa := PrimFloat.abs a in
  let wb := PrimFloat.abs b in
  Bool.eqb (PrimFloat.eqb wa wb) (score_key a =? score_key b)
  && Bool.eqb (PrimFloat.ltb wa wb) (score_key a <? score_key b)
  && match double_to_gint (PrimFloat.mul (PrimFloat.sub wb wa) 1000%float) with
     | Ret z => Z.sgn z =? Z.sgn (score_key b - score_key a)
     | Fault _ => false
     end.

Definition content_of (lf : rspamd_log_format) : option string :=
  match lf_data lf with
  | DataText content => Some content
  | _ => None
  end.

(** The loop of [rspamd_task_log_write_var] over the content template:
    [pending] is the text between [c] and [p]. *)
Fixpoint write_var_loop (res var pending content : string) : string :=
  match content with
  | EmptyString =>
      if 0 <? strlen pending then res +:+ pending else res
  | String ch content' =>
      if Ascii.eqb ch "$"%char then
        let res := if 0 <? strlen pending then res +:+ pending else res in
        write_var_loop (res +:+ var) var EmptyString content'
      else
        write_var_loop res var (pending +:+ String ch EmptyString) content'
  end.

Definition rspamd_task_log_write_var
    (logbuf var : string) (content : option string) : string :=
  match content with
  | None => logbuf +:+ var      (* Just output variable *)
  | Some content => write_var_loop logbuf var EmptyString content
  end.

(** The loop of [rspamd_task_write_ialist], from index [i] on. *)
Fixpoint write_ialist_loop
    (rounds : nat) (i lim : Z) (ialist : list InternetAddress) (varbuf : string)
  : string :=
  match rounds with
  | O => varbuf
  | S rounds' =>
      let varbuf :=
        match internet_address_list_get_address ialist i with
        | Some (IA_Mailbox a) => varbuf +:+ a
        | _ => varbuf
        end in
      let varbuf :=
        if (0 <? strlen varbuf) && negb (i =? lim - 1)
        then varbuf +:+ "," else varbuf in
      if max_log_elts <=? i then varbuf +:+ "..."
      else write_ialist_loop rounds' (i + 1) lim ialist varbuf
  end.

(** The list as [rspamd_task_write_ialist] renders it into [varbuf]. *)
Definition render_ialist (ialist : list InternetAddress) (lim : Z) : string :=
  let lim := if lim <=? 0 then internet_address_list_length ialist else lim in
  write_ialist_loop (Z.to_nat lim) 0 lim ialist EmptyString.

Definition rspamd_task_write_ialist
    (ialist : list InternetAddress) (lim : Z)
    (lf : rspamd_log_format) (logbuf : string) : string :=
  let varbuf := render_ialist ialist lim in
  if 0 <? strlen varbuf
  then rspamd_task_log_write_var logbuf varbuf (content_of lf)
  else logbuf.

(** The loop of [rspamd_task_write_addr_list], from index [i] on. *)
Fixpoint write_addr_list_loop
    (rounds : nat) (i lim : Z) (addrs : list rspamd_email_address)
    (varbuf : string) : outcome string :=
  match rounds with
  | O => Ret varbuf
  | S rounds' =>
      do a <- g_ptr_array_index addrs i;
      let varbuf :=
        match addr a with
        | Some str => varbuf +:+ str
        | None => varbuf
        end in
      let varbuf :=
        if (0 <? strlen varbuf) && negb (i =? lim - 1)
        then varbuf +:+ "," else varbuf in
      if max_log_elts <=? i then Ret (varbuf +:+ "...")
      else write_addr_list_loop rounds' (i + 1) lim addrs varbuf
  end.

(** The list as [rspamd_task_write_addr_list] renders it into [varbuf]. *)
Definition render_addr_list
    (addrs : list rspamd_email_address) (lim : Z) : outcome string :=
  let lim := if lim <=? 0 then Z.of_nat (length addrs) else lim in
  write_addr_list_loop (Z.to_nat lim) 0 lim addrs EmptyString.

Definition rspamd_task_write_addr_list
    (addrs : list rspamd_email_address) (lim : Z)
    (lf : rspamd_log_format) (logbuf : string) : outcome string :=
  do varbuf <- render_addr_list addrs lim;
  Ret (if 0 <? strlen varbuf
       then rspamd_task_log_write_var logbuf varbuf (content_of lf)
       else logbuf).

(** [varbuf] followed by each of [names] with a comma after it. *)
Fixpoint with_entries (varbuf : string) (names : list string) : string :=
  match names with
  | [] => varbuf
  | name :: rest => with_entries ((varbuf +:+ name) +:+ ",") rest
  end.

(** An envelope address with the string [str]. *)
Definition address (str : string) : rspamd_email_address := {| addr := Some str |}.

(** A content template with the value [var] in the place of every ['$']:
    the text that a template stands for, character by character. *)
Fixpoint expand_template (var content : string) : string :=
  match content with
  | EmptyString => EmptyString
  | String ch content' =>
      if Ascii.eqb ch "$"%char then var +:+ expand_template var content'
      else String ch (expand_template var content')
  end.

Section LogModel.
Context `{task_h} `{log_env}.

Definition rspamd_task_log_check_condition
    (task : rspamd_task) (lf : rspamd_log_format) : bool :=
  match lf_type lf with
  | RSPAMD_LOG_MID =>
      match message_id task with
      | Some id => negb (strcmp id "undef" =? 0)
      | None => false
      end
  | RSPAMD_LOG_QID =>
      match queue_id task with
      | Some id => negb (strcmp id "undef" =? 0)
      | None => false
      end
  | RSPAMD_LOG_USER => bool_decide (is_Some (user task))
  | RSPAMD_LOG_IP =>
      match from_addr task with
      | Some a => rspamd_ip_is_valid a
      | None => false
      end
  | RSPAMD_LOG_SMTP_RCPT | RSPAMD_LOG_SMTP_RCPTS =>
      match rcpt_envelope task with
      | Some array => 0 <? Z.of_nat (length array)
      | None => false
      end
  | RSPAMD_LOG_MIME_RCPT | RSPAMD_LOG_MIME_RCPTS =>
      match rcpt_mime task with
      | Some ialist => 0 <? internet_address_list_length ialist
      | None => false
      end
  | RSPAMD_LOG_SMTP_FROM => bool_decide (is_Some (from_envelope task))
  | RSPAMD_LOG_MIME_FROM =>
      match from_mime task with
      | Some ialist => 0 <? internet_address_list_length ialist
      | None => false
      end
  | _ => true
  end.

Definition print_str (str : option string) : string :=
  match str with
  | Some text => text
  | None => print_null
  end.

(** The options of a symbol between the braces. *)
Fixpoint write_options (j : Z) (options : list string) : string :=
  match options with
  | [] => EmptyString
  | opt :: rest =>
      opt +:+ ";" +:+
      (if max_log_elts <=? j then "...;" else write_options (j + 1) rest)
  end.

(** What one round of the loop over [sorted_symbols] prints. *)
Definition write_symbol (lf : rspamd_log_format) (first : bool) (sym : symbol)
  : string :=
  (if first then print_str (sym_name sym) else "," +:+ print_str (sym_name sym))
  +:+ (if has_bits (lf_flags lf) RSPAMD_LOG_FLAG_SYMBOLS_SCORES
       then "(" +:+ print_double2 (sym_score sym) +:+ ")" else EmptyString)
  +:+ (if has_bits (lf_flags lf) RSPAMD_LOG_FLAG_SYMBOLS_PARAMS
       then "{" +:+ write_options 0 (sym_options sym) +:+ "}" else EmptyString).

Fixpoint write_symbols
    (lf : rspamd_log_format) (first : bool) (sorted_symbols : list symbol)
    (symbuf : string) : string :=
  match sorted_symbols with
  | [] => symbuf
  | sym :: rest =>
      write_symbols lf false rest (symbuf +:+ write_symbol lf first sym)
  end.

(** [rspamd_task_log_metric_res]: the token [res], and the task, whose
    pool owns the buffer of a SYMBOLS rendering. *)
Definition rspamd_task_log_metric_res
    (task : rspamd_task) (lf : rspamd_log_format)
  : outcome (string * rspamd_task) :=
  match results task !! DEFAULT_METRIC with
  | None => Ret (EmptyString, task)
  | Some mres =>
      match lf_type lf with
      | RSPAMD_LOG_ISSPAM =>
          Ret (if RSPAMD_TASK_IS_SKIPPED task then "S"
               else if mres_action mres =? METRIC_ACTION_REJECT then "T"
               else "F",
               task)
      | RSPAMD_LOG_ACTION => Ret (rspamd_action_to_str (mres_action mres), task)
      | RSPAMD_LOG_SCORES =>
          Ret (print_double2 (mres_score mres) +:+ "/" +:+
               print_double2 (actions_limits mres METRIC_ACTION_REJECT),
               task)
      | RSPAMD_LOG_SYMBOLS =>
          do sorted_symbols <-
            g_ptr_array_sort rspamd_task_compare_log_sym (mres_symbols mres);
          let symbuf := write_symbols lf true sorted_symbols EmptyString in
          Ret (symbuf,
               rspamd_mempool_add_destructor task (rspamd_fstring_free symbuf))
      | _ => Ret (EmptyString, task)
      end
  end.

(** The end of [rspamd_task_log_variable]: [var] is written when it is
    not empty. *)
Definition write_nonempty_var
    (lf : rspamd_log_format) (logbuf var : string) : string :=
  if 0 <? strlen var
  then rspamd_task_log_write_var logbuf var (content_of lf)
  else logbuf.

Definition rspamd_task_log_variable
    (task : rspamd_task) (lf : rspamd_log_format) (logbuf : string)
  : outcome (string * rspamd_task) :=
  let finish var := Ret (write_nonempty_var lf logbuf var, task) in
  match lf_type lf with
  (* String vars *)
  | RSPAMD_LOG_MID => finish (default "undef" (message_id task))
  | RSPAMD_LOG_QID => finish (default "undef" (queue_id task))
  | RSPAMD_LOG_USER => finish (default "undef" (user task))
  | RSPAMD_LOG_IP =>
      finish
        match from_addr task with
        | Some a =>
            if rspamd_ip_is_valid a then rspamd_inet_address_to_string a
            else "undef"
        | None => "undef"
        end
  (* Numeric vars *)
  | RSPAMD_LOG_LEN => finish (print_gsize (len (msg task)))
  | RSPAMD_LOG_DNS_REQ => finish (print_guint (dns_requests task))
  | RSPAMD_LOG_TIME_REAL =>
      finish (rspamd_log_check_time (time_real task) rspamd_get_ticks
                (clock_res (cfg task)))
  | RSPAMD_LOG_TIME_VIRTUAL =>
      finish (rspamd_log_check_time (time_virtual task) rspamd_get_virtual_ticks
                (clock_res (cfg task)))
  (* InternetAddress vars *)
  | RSPAMD_LOG_SMTP_FROM =>
      finish
        match from_envelope task with
        | Some from => default EmptyString (addr from)
        | None => EmptyString
        end
  | RSPAMD_LOG_MIME_FROM =>
      match from_mime task with
      | Some ialist => Ret (rspamd_task_write_ialist ialist 1 lf logbuf, task)
      | None => finish EmptyString
      end
  | RSPAMD_LOG_SMTP_RCPT =>
      match rcpt_envelope task with
      | Some addrs =>
          do res <- rspamd_task_write_addr_list addrs 1 lf logbuf; Ret (res, task)
      | None => finish EmptyString
      end
  | RSPAMD_LOG_MIME_RCPT =>
      match rcpt_mime task with
      | Some ialist => Ret (rspamd_task_write_ialist ialist 1 lf logbuf, task)
      | None => finish EmptyString
      end
  | RSPAMD_LOG_SMTP_RCPTS =>
      match rcpt_envelope task with
      | Some addrs =>
          do res <- rspamd_task_write_addr_list addrs (-1) lf logbuf; Ret (res, task)
      | None => finish EmptyString
      end
  | RSPAMD_LOG_MIME_RCPTS =>
      match rcpt_mime task with
      | Some ialist => Ret (rspamd_task_write_ialist ialist (-1) lf logbuf, task)
      | None => finish EmptyString
      end
  | _ =>
      do res <- rspamd_task_log_metric_res task lf;
      Ret (write_nonempty_var lf logbuf (fst res), snd res)
  end.

(** The value a variable item resolves to: what
    [rspamd_task_log_variable] has in [var], or the list writers in
    [varbuf], when it comes to writing. *)
Definition log_variable_value
    (task : rspamd_task) (lf : rspamd_log_format) : outcome string :=
  match lf_type lf with
  | RSPAMD_LOG_MID => Ret (default "undef" (message_id task))
  | RSPAMD_LOG_QID => Ret (default "undef" (queue_id task))
  | RSPAMD_LOG_USER => Ret (default "undef" (user task))
  | RSPAMD_LOG_IP =>
      Ret match from_addr task with
          | Some a =>
              if rspamd_ip_is_valid a then rspamd_inet_address_to_string a
              else "undef"
          | None => "undef"
          end
  | RSPAMD_LOG_LEN => Ret (print_gsize (len (msg task)))
  | RSPAMD_LOG_DNS_REQ => Ret (print_guint (dns_requests task))
  | RSPAMD_LOG_TIME_REAL =>
      Ret (rspamd_log_check_time (time_real task) rspamd_get_ticks
             (clock_res (cfg task)))
  | RSPAMD_LOG_TIME_VIRTUAL =>
      Ret (rspamd_log_check_time (time_virtual task) rspamd_get_virtual_ticks
             (clock_res (cfg task)))
  | RSPAMD_LOG_SMTP_FROM =>
      Ret match from_envelope task with
          | Some from => default EmptyString (addr from)
          | None => EmptyString
          end
  | RSPAMD_LOG_MIME_FROM =>
      Ret match from_mime task with
          | Some ialist => render_ialist ialist 1
          | None => EmptyString
          end
  | RSPAMD_LOG_SMTP_RCPT =>
      match rcpt_envelope task with
      | Some addrs => render_addr_list addrs 1
      | None => Ret EmptyString
      end
  | RSPAMD_LOG_MIME_RCPT =>
      Ret match rcpt_mime task with
          | Some ialist => render_ialist ialist 1
          | None => EmptyString
          end
  | RSPAMD_LOG_SMTP_RCPTS =>
      match rcpt_envelope task with
      | Some addrs => render_addr_list addrs (-1)
      | None => Ret EmptyString
      end
  | RSPAMD_LOG_MIME_RCPTS =>
      Ret match rcpt_mime task with
          | Some ialist => render_ialist ialist (-1)
          | None => EmptyString
          end
  | _ => do res <- rspamd_task_log_metric_res task lf; Ret (fst res)
  end.

(** The loop of [rspamd_task_write_log] over the items of the format. *)
Fixpoint write_log_items
    (task : rspamd_task) (items : list rspamd_log_format) (logbuf : string)
  : outcome (string * rspamd_task) :=
  match items with
  | [] => Ret (logbuf, task)
  | lf :: rest =>
      match lf_type lf with
      | RSPAMD_LOG_STRING =>
          write_log_items task rest
            match lf_data lf with
            | DataText text => logbuf +:+ text
            | _ => logbuf
            end
      | RSPAMD_LOG_LUA =>
          write_log_items task rest
            match lf_data lf with
            | DataRef ref =>
                match lua_log_call ref task with
                | Some lua_str => logbuf +:+ lua_str
                | None => logbuf
                end
            | _ => logbuf
            end
      | _ =>
          (* We have a variable in log format *)
          if has_bits (lf_flags lf) RSPAMD_LOG_FLAG_CONDITION
             && negb (rspamd_task_log_check_condition task lf)
          then write_log_items task rest logbuf
          else
            do res <- rspamd_task_log_variable task lf logbuf;
            write_log_items (snd res) rest (fst res)
      end
  end.

(** [rspamd_task_write_log]: the record handed to the logger, if any. *)
Definition rspamd_task_write_log (task : rspamd_task)
  : outcome (option string * rspamd_task) :=
  match log_format (cfg task) with
  | [] => Ret (None, task)
  | items =>
      if has_bits (flags task) RSPAMD_TASK_FLAG_NO_LOG then Ret (None, task)
      else
        do res <- write_log_items task items EmptyString;
        Ret (Some (fst res), snd res)
  end.

End LogModel.
End Log.

(** ** Collaborators to run the model with

    Simple stand-ins for the other modules, for the runs of the model on
    concrete tasks at the end of the file. *)

Module Fixtures.

(** Handlers that succeed and leave the task as it is. *)
Definition quiet_handlers : Process.stage_handlers := {|
  Process.rspamd_message_parse := fun task => (true, task);
  Process.rspamd_lua_call_pre_filters := fun task => task;
  Process.rspamd_symbols_cache_process_symbols := fun task => (true, task);
  Process.rspamd_stat_classify :=
    fun task _ => (Process.RSPAMD_STAT_PROCESS_OK, None, task);
  Process.rspamd_make_composites := fun task => task;
  Process.rspamd_lua_call_post_filters := fun task => task;
  Process.rspamd_stat_check_autolearn := fun task => task;
  Process.rspamd_stat_learn := fun task _ _ => (true, None, task)
|}.

Definition learn_error : GError :=
  {| error_domain := "stat-error"; error_code := 500;
     error_message := "cannot learn" |}.

(** The same, with a learner that fails. *)
Definition failing_learner : Process.stage_handlers := {|
  Process.rspamd_message_parse := fun task => (true, task);
  Process.rspamd_lua_call_pre_filters := fun task => task;
  Process.rspamd_symbols_cache_process_symbols := fun task => (true, task);
  Process.rspamd_stat_classify :=
    fun task _ => (Process.RSPAMD_STAT_PROCESS_OK, None, task);
  Process.rspamd_make_composites := fun task => task;
  Process.rspamd_lua_call_post_filters := fun task => task;
  Process.rspamd_stat_check_autolearn := fun task => task;
  Process.rspamd_stat_learn := fun task _ _ => (false, Some learn_error, task)
|}.

Definition digit_of (c : ascii) : option Z :=
  let n := Z.of_nat (nat_of_ascii c) in
  if (48 <=? n) && (n <=? 57) then Some (n - 48) else None.

Fixpoint decimal_from (acc : Z) (str : string) : option Z :=
  match str with
  | EmptyString => Some acc
  | String c rest =>
      match digit_of c with
      | Some d => decimal_from (acc * 10 + d) rest
      | None => None
      end
  end.

(** An unsigned decimal; the content of [value] is kept when the token
    is not one. *)
Definition strtoul_decimal (tok : string) (value : Z) : Z :=
  match decimal_from 0 tok with
  | Some v => if v <? 2 ^ 64 then v else 2 ^ 64 - 1
  | None => value
  end.

(** One shared-memory segment, [/seg] of 10 bytes, and one file. *)
Definition test_loader : Load.loader_env := {|
  Load.rspamd_protocol_handle_headers :=
    fun task http => set_request_headers task (list_to_map http ∪ request_headers task);
  Load.rspamd_protocol_handle_control := fun task _ => task;
  Load.ucl_parser_add_chunk := fun _ _ => Some 0;
  Load.rspamd_decode_url := fun path => path;
  Load.rspamd_strtoul := strtoul_decimal;
  Load.shm_open :=
    fun name => if String.eqb name "/seg" then Load.SysOk 3
                else Load.SysErr "No such file or directory";
  Load.fstat := fun fd => if fd =? 3 then Load.SysOk 10 else Load.SysErr "Bad file descriptor";
  Load.stat :=
    fun path => if String.eqb path "/tmp/x.eml" then Load.SysOk 120
                else Load.SysErr "No such file or directory";
  Load.open :=
    fun path => if String.eqb path "/tmp/x.eml" then Load.SysOk 4
                else Load.SysErr "No such file or directory";
  Load.mmap := fun size fd => Load.SysOk (65536 * fd)
|}.

Definition lower (c : ascii) : ascii :=
  let n := nat_of_ascii c in
  if (65 <=? n)%nat && (n <=? 90)%nat then ascii_of_nat (n + 32) else c.

Fixpoint str_lc (str : string) : string :=
  match str with
  | EmptyString => EmptyString
  | String c rest => String (lower c) (str_lc rest)
  end.

Definition ascii_lower : Recipient.str_util := {|
  Recipient.rspamd_str_lc := str_lc
|}.

(** A number with two decimals, rounded half away from zero. *)
Definition fixed2 (d : float) : string :=
  let half := if PrimFloat.ltb d 0%float then (-0.5)%float else 0.5%float in
  match Log.double_to_gint (PrimFloat.add (PrimFloat.mul d 100%float) half) with
  | Ret v =>
      (if v <? 0 then "-" else EmptyString)
      +:+ pretty (Z.abs v / 100) +:+ "."
      +:+ pretty (Z.abs v mod 100 / 10) +:+ pretty (Z.abs v mod 10)
  | Fault _ => "nan"
  end.

Definition test_log : Log.log_env := {|
  Log.rspamd_ip_is_valid := fun a => negb (a =? 0);
  Log.rspamd_inet_address_to_string := fun _ => "192.0.2.1";
  Log.rspamd_action_to_str := fun a => if a =? 0 then "reject" else "no action";
  Log.rspamd_log_check_time := fun _ _ _ => "1.0ms";
  Log.rspamd_get_ticks := 0%float;
  Log.rspamd_get_virtual_ticks := 0%float;
  Log.print_gsize := fun n => pretty n;
  Log.print_guint := fun n => pretty n;
  Log.print_double2 := fixed2;
  Log.print_null := "(NULL)";
  Log.lua_log_call := fun _ _ => None
|}.

Definition test_cfg : rspamd_config :=
  {| check_all_filters := false; log_format := []; clock_res := 3 |}.

(** A task as [rspamd_task_new] returns it. *)
Definition new_task : rspamd_task :=
  @rspamd_task_new spec_task_h test_cfg 0%float 0%float.

#[local] Existing Instance spec_task_h.

(** All the stages of the header. *)
Definition RSPAMD_TASK_PROCESS_ALL : Z := 2 * RSPAMD_TASK_STAGE_DONE - 1.

(** READ_MESSAGE and FILTERS are done; COMPOSITES and DONE are asked for. *)
Definition stage_skip_task : rspamd_task :=
  set_processed_stages new_task
    (Z.lor RSPAMD_TASK_STAGE_READ_MESSAGE RSPAMD_TASK_STAGE_FILTERS).
Definition stage_skip_request : Z :=
  Z.lor RSPAMD_TASK_STAGE_COMPOSITES RSPAMD_TASK_STAGE_DONE.

(** A pre-filter has forced the action REJECT. *)
Definition rejected_task : rspamd_task :=
  set_pre_result_action new_task METRIC_ACTION_REJECT.

(** The same task inside a handler: the processing-in-progress flag is
    set. *)
Definition rejected_task_in_progress : rspamd_task :=
  set_flags rejected_task (Z.lor (flags rejected_task) RSPAMD_TASK_FLAG_PROCESSING).

(** Every stage before LEARN_PRE is done, and the message is to be
    learned as spam. *)
Definition learn_task : rspamd_task :=
  set_processed_stages
    (set_flags new_task (Z.lor (flags new_task) RSPAMD_TASK_FLAG_LEARN_SPAM))
    (RSPAMD_TASK_STAGE_LEARN_PRE - 1).

(** That task when the learner is called. *)
Definition learn_task_running : rspamd_task :=
  set_flags learn_task (Z.lor (flags learn_task) RSPAMD_TASK_FLAG_PROCESSING).

(** A request for the segment [/seg], which has 10 bytes, from offset 100. *)
Definition shm_offset_task : rspamd_task :=
  set_request_headers new_task
    (<["shm-offset" := "100"]> (<["shm" := "/seg"]> ∅)).

(** A request for 11 bytes of the same segment. *)
Definition shm_length_task : rspamd_task :=
  set_request_headers new_task
    (<["shm-length" := "11"]> (<["shm" := "/seg"]> ∅)).

(** A request for the segment from offset 4. *)
Definition shm_task : rspamd_task :=
  set_request_headers new_task
    (<["shm-offset" := "4"]> (<["shm" := "/seg"]> ∅)).

(** A message with a control chunk, said to have 5 bytes after it. *)
Definition control_task : rspamd_task :=
  set_message_len
    (set_flags new_task (Z.lor (flags new_task) RSPAMD_TASK_FLAG_HAS_CONTROL)) 5.

(** A message with a control chunk and nothing after it. *)
Definition control_only_task : rspamd_task :=
  set_flags new_task (Z.lor (flags new_task) RSPAMD_TASK_FLAG_HAS_CONTROL).

(** No recipient is cached, there is no [deliver_to], the envelope has a
    recipient array with nothing in it, and the MIME headers name one
    recipient. *)
Definition empty_envelope_task : rspamd_task :=
  set_rcpt_mime (set_rcpt_envelope new_task (Some []))
    (Some [IA_Mailbox "User@Example.org"]).

Definition eight_names : list string :=
  ["r0"; "r1"; "r2"; "r3"; "r4"; "r5"; "r6"; "r7"].

(** Eight, and nine, recipients in the envelope; eight in the MIME
    headers. *)
Definition eight_rcpt_task : rspamd_task :=
  set_rcpt_envelope new_task (Some (Log.address <$> eight_names)).
Definition nine_rcpt_task : rspamd_task :=
  set_rcpt_envelope new_task (Some (Log.address <$> eight_names ++ ["r8"])).
Definition eight_mime_task : rspamd_task :=
  set_rcpt_mime new_task (Some (IA_Mailbox <$> eight_names)).

(** The items [$smtp_rcpts], [$mime_rcpts], [$symbols] and
    [$smtp_from] of a log format, the last with a content template. *)
Definition smtp_rcpts : rspamd_log_format :=
  {| lf_type := RSPAMD_LOG_SMTP_RCPTS; lf_flags := 0; lf_data := DataNull |}.
Definition mime_rcpts : rspamd_log_format :=
  {| lf_type := RSPAMD_LOG_MIME_RCPTS; lf_flags := 0; lf_data := DataNull |}.
Definition symbols_item (item_flags : Z) : rspamd_log_format :=
  {| lf_type := RSPAMD_LOG_SYMBOLS; lf_flags := item_flags; lf_data := DataNull |}.
Definition smtp_from : rspamd_log_format :=
  {| lf_type := RSPAMD_LOG_SMTP_FROM; lf_flags := 0;
     lf_data := DataText "from=<$>" |}.

Definition sym (name : string) (score : float) : symbol :=
  {| sym_name := Some name; sym_score := score; sym_options := [] |}.

Definition metric_of (symbols : list symbol) : metric_result :=
  {| mres_score := 0%float; mres_action := 5;
     actions_limits := fun _ => 15%float;
     mres_symbols := symbols |}.

(** A task whose default metric holds [symbols], iterated in this order. *)
Definition task_with_symbols (symbols : list symbol) : rspamd_task :=
  set_results new_task (<[DEFAULT_METRIC := metric_of symbols]> ∅).

(** The string of a result, if there is one. *)
Definition rendered (res : outcome (string * rspamd_task)) : option string :=
  match res with
  | Ret (str, _) => Some str
  | Fault _ => None
  end.

(** The symbols A: 1, B: -3, C: 3. *)
Definition three_symbols : list symbol :=
  [sym "A" 1%float; sym "B" (-3)%float; sym "C" 3%float].

(** Two symbols whose absolute scores differ by less than 0.001, the
    second by name having the greater. *)
Definition near_a : symbol := sym "A" 1%float.
Definition near_b : symbol := sym "B" 1.000244140625%float.

(** Four symbols whose absolute scores go up by 5/8192, about 0.0006:
    two scores next to each other are less than 0.001 apart, two others
    are more. *)
Definition near_four : list symbol :=
  [sym "A" 1%float; sym "B" 1.0006103515625%float;
   sym "C" 1.001220703125%float; sym "D" 1.0018310546875%float].

(** A new task with one event of the session pending. *)
Definition pending_task : rspamd_task := set_s new_task 1.

(** A new task with the empty-message flag, and one with the skip flag. *)
Definition empty_task : rspamd_task :=
  set_flags new_task (Z.lor (flags new_task) RSPAMD_TASK_FLAG_EMPTY).
Definition skipped_task : rspamd_task :=
  set_flags new_task (Z.lor (flags new_task) RSPAMD_TASK_FLAG_SKIP).

(** A bitmap with bit 30. *)
Definition overflow_task : rspamd_task := set_processed_stages new_task (2 ^ 30).

(** Requests for a file that is there and for one that is not, the
    second on a task that holds an error already. *)
Definition file_task : rspamd_task :=
  set_request_headers new_task (<["file" := "/tmp/x.eml"]> ∅).
Definition missing_file_task : rspamd_task :=
  set_request_headers new_task (<["file" := "/missing"]> ∅).
Definition failed_task : rspamd_task := set_err missing_file_task (Some learn_error).

(** A task with a [deliver_to], and one with two envelope recipients. *)
Definition deliver_task : rspamd_task :=
  set_deliver_to new_task (Some "Postmaster@Example.org").
Definition two_rcpt_task : rspamd_task :=
  set_rcpt_envelope new_task
    (Some [Log.address "a@example.org"; Log.address "b@example.org"]).

(** The item [$smtp_rcpt], plain and with the condition flag. *)
Definition smtp_rcpt : rspamd_log_format :=
  {| lf_type := RSPAMD_LOG_SMTP_RCPT; lf_flags := 0; lf_data := DataNull |}.
Definition smtp_rcpt_if : rspamd_log_format :=
  {| lf_type := RSPAMD_LOG_SMTP_RCPT; lf_flags := RSPAMD_LOG_FLAG_CONDITION;
     lf_data := DataNull |}.

(** The cases of a membership in a list that is written out. *)
Ltac elements H :=
  repeat (apply elem_of_cons in H as [->|H]);
  try (apply elem_of_nil in H; contradiction).

End Fixtures.

(** * Properties *)

(** ** Bits and records *)

Lemma Ret_inj {A : Type} (a b : A) : Ret a = Ret b -> a = b.
Proof. intros Heq. now injection Heq. Qed.

Lemma has_bits_pow2 (x k : Z) : 0 <= k -> has_bits x (2 ^ k) = Z.testbit x k.
Proof.
  intros Hk. unfold has_bits.
  destruct (Z.testbit x k) eqn:Hb.
  - apply negb_true_iff, Z.eqb_neq. intros H0.
    assert (Hk' : Z.testbit (Z.land x (2 ^ k)) k = true).
    { rewrite Z.land_spec, Hb, Z.pow2_bits_true by lia. reflexivity. }
    rewrite H0, Z.bits_0 in Hk'. discriminate.
  - apply negb_false_iff, Z.eqb_eq. apply Z.bits_inj'. intros j Hj.
    rewrite Z.land_spec, Z.bits_0, Z.pow2_bits_eqb by lia.
    destruct (Z.eqb_spec k j) as [->|]; [now rewrite Hb | apply andb_false_r].
Qed.

Lemma set_processed_stages_same (t : rspamd_task) :
  set_processed_stages t (processed_stages t) = t.
Proof. now destruct t. Qed.

Lemma set_processed_stages_twice (t : rspamd_task) (a b : Z) :
  set_processed_stages (set_processed_stages t a) b = set_processed_stages t b.
Proof. now destruct t. Qed.

Lemma processed_stages_set (t : rspamd_task) (a : Z) :
  processed_stages (set_processed_stages t a) = a.
Proof. now destruct t. Qed.

Lemma lor_pow2_set (x k : Z) : 0 <= k -> Z.testbit x k = true -> Z.lor x (2 ^ k) = x.
Proof.
  intros Hk Hb. apply Z.bits_inj'. intros j Hj.
  rewrite Z.lor_spec, Z.pow2_bits_eqb by lia.
  destruct (Z.eqb_spec k j) as [<-|]; [now rewrite Hb | apply orb_false_r].
Qed.

Lemma has_bits_lor_r (x m : Z) : m <> 0 -> has_bits (Z.lor x m) m = true.
Proof.
  intros Hm. unfold has_bits. apply negb_true_iff, Z.eqb_neq. intros H0.
  apply Hm. apply Z.bits_inj'. intros j Hj.
  apply (f_equal (fun z => Z.testbit z j)) in H0.
  rewrite Z.land_spec, Z.lor_spec, Z.bits_0 in H0. rewrite Z.bits_0.
  destruct (Z.testbit m j); [|reflexivity].
  now rewrite orb_true_r in H0.
Qed.

Lemma has_bits_lor_l (x y m : Z) : has_bits x m = true -> has_bits (Z.lor x y) m = true.
Proof.
  unfold has_bits. rewrite !negb_true_iff, !Z.eqb_neq. intros Hx H0. apply Hx.
  apply Z.bits_inj'. intros j Hj.
  apply (f_equal (fun z => Z.testbit z j)) in H0.
  rewrite Z.land_spec, Z.lor_spec, Z.bits_0 in H0.
  rewrite Z.land_spec, Z.bits_0.
  destruct (Z.testbit x j), (Z.testbit m j); try reflexivity. discriminate.
Qed.

(** What the setters leave alone. *)

Lemma flags_set_processed_stages (t : rspamd_task) (v : Z) :
  flags (set_processed_stages t v) = flags t.
Proof. now destruct t. Qed.

Lemma err_set_processed_stages (t : rspamd_task) (v : Z) :
  err (set_processed_stages t v) = err t.
Proof. now destruct t. Qed.

Lemma err_set_flags (t : rspamd_task) (v : Z) : err (set_flags t v) = err t.
Proof. now destruct t. Qed.

Lemma err_set_err (t : rspamd_task) (e : option GError) : err (set_err t e) = e.
Proof. now destruct t. Qed.

Lemma flags_set_flags (t : rspamd_task) (v : Z) : flags (set_flags t v) = v.
Proof. now destruct t. Qed.

Lemma flags_set_err (t : rspamd_task) (e : option GError) :
  flags (set_err t e) = flags t.
Proof. now destruct t. Qed.

Lemma processed_stages_set_flags (t : rspamd_task) (v : Z) :
  processed_stages (set_flags t v) = processed_stages t.
Proof. now destruct t. Qed.

Lemma processed_stages_set_err (t : rspamd_task) (e : option GError) :
  processed_stages (set_err t e) = processed_stages t.
Proof. now destruct t. Qed.

Lemma pre_result_action_set_flags (t : rspamd_task) (v : Z) :
  pre_result_action (set_flags t v) = pre_result_action t.
Proof. now destruct t. Qed.

Create Rewrite HintDb task_fields.

#[export] Hint Rewrite
  processed_stages_set flags_set_processed_stages err_set_processed_stages
  err_set_flags err_set_err flags_set_flags flags_set_err
  processed_stages_set_flags processed_stages_set_err
  pre_result_action_set_flags : task_fields.

Lemma flags_set_msg (t : rspamd_task) (m : task_msg) : flags (set_msg t m) = flags t.
Proof. now destruct t. Qed.

Lemma err_set_msg (t : rspamd_task) (m : task_msg) : err (set_msg t m) = err t.
Proof. now destruct t. Qed.

Lemma msg_set_msg (t : rspamd_task) (m : task_msg) : msg (set_msg t m) = m.
Proof. now destruct t. Qed.

Lemma msg_set_flags (t : rspamd_task) (v : Z) : msg (set_flags t v) = msg t.
Proof. now destruct t. Qed.

Lemma msg_set_err (t : rspamd_task) (e : option GError) : msg (set_err t e) = msg t.
Proof. now destruct t. Qed.

Lemma message_len_set_msg (t : rspamd_task) (m : task_msg) :
  message_len (set_msg t m) = message_len t.
Proof. now destruct t. Qed.

Lemma message_len_set_flags (t : rspamd_task) (v : Z) :
  message_len (set_flags t v) = message_len t.
Proof. now destruct t. Qed.

#[export] Hint Rewrite
  flags_set_msg err_set_msg msg_set_msg msg_set_flags msg_set_err
  message_len_set_msg message_len_set_flags : task_fields.

Lemma flags_set_checkpoint (t : rspamd_task) (c : option Z) :
  flags (set_checkpoint t c) = flags t.
Proof. now destruct t. Qed.

Lemma processed_stages_set_checkpoint (t : rspamd_task) (c : option Z) :
  processed_stages (set_checkpoint t c) = processed_stages t.
Proof. now destruct t. Qed.

Lemma s_set_checkpoint (t : rspamd_task) (c : option Z) : s (set_checkpoint t c) = s t.
Proof. now destruct t. Qed.

Lemma s_set_flags (t : rspamd_task) (v : Z) : s (set_flags t v) = s t.
Proof. now destruct t. Qed.

Lemma s_set_processed_stages (t : rspamd_task) (v : Z) :
  s (set_processed_stages t v) = s t.
Proof. now destruct t. Qed.

Lemma s_set_err (t : rspamd_task) (e : option GError) : s (set_err t e) = s t.
Proof. now destruct t. Qed.

Lemma err_set_checkpoint (t : rspamd_task) (c : option Z) :
  err (set_checkpoint t c) = err t.
Proof. now destruct t. Qed.

#[export] Hint Rewrite
  flags_set_checkpoint processed_stages_set_checkpoint s_set_checkpoint
  s_set_flags s_set_processed_stages s_set_err err_set_checkpoint : task_fields.

Lemma task_pool_set_flags (t : rspamd_task) (v : Z) :
  task_pool (set_flags t v) = task_pool t.
Proof. now destruct t. Qed.

Lemma task_pool_set_msg (t : rspamd_task) (m : task_msg) :
  task_pool (set_msg t m) = task_pool t.
Proof. now destruct t. Qed.

Lemma task_pool_set_err (t : rspamd_task) (e : option GError) :
  task_pool (set_err t e) = task_pool t.
Proof. now destruct t. Qed.

Lemma task_pool_set_task_pool (t : rspamd_task) (p : rspamd_mempool) :
  task_pool (set_task_pool t p) = p.
Proof. now destruct t. Qed.

Lemma err_set_task_pool (t : rspamd_task) (p : rspamd_mempool) :
  err (set_task_pool t p) = err t.
Proof. now destruct t. Qed.

Lemma msg_set_task_pool (t : rspamd_task) (p : rspamd_mempool) :
  msg (set_task_pool t p) = msg t.
Proof. now destruct t. Qed.

Lemma flags_set_task_pool (t : rspamd_task) (p : rspamd_mempool) :
  flags (set_task_pool t p) = flags t.
Proof. now destruct t. Qed.

#[export] Hint Rewrite
  task_pool_set_flags task_pool_set_msg task_pool_set_err task_pool_set_task_pool
  err_set_task_pool msg_set_task_pool flags_set_task_pool : task_fields.

(** Bits of a flag word that another flag does not share. *)

Lemma has_bits_clear (x m : Z) : has_bits (Z.land x (Z.lnot m)) m = false.
Proof.
  unfold has_bits. apply negb_false_iff, Z.eqb_eq.
  rewrite <- Z.land_assoc, (Z.land_comm (Z.lnot m)), Z.land_lnot_diag.
  apply Z.land_0_r.
Qed.

Lemma has_bits_lor_other (x p m : Z) :
  Z.land p m = 0 -> has_bits (Z.lor x p) m = has_bits x m.
Proof.
  intros Hpm. unfold has_bits. now rewrite Z.land_lor_distr_l, Hpm, Z.lor_0_r.
Qed.

Lemma has_bits_clear_other (x p m : Z) :
  Z.land p m = 0 -> has_bits (Z.land x (Z.lnot p)) m = has_bits x m.
Proof.
  intros Hpm. unfold has_bits. f_equal. f_equal.
  apply Z.bits_inj'. intros j Hj.
  apply (f_equal (fun z => Z.testbit z j)) in Hpm.
  rewrite Z.land_spec, Z.bits_0 in Hpm.
  rewrite !Z.land_spec, Z.lnot_spec by assumption.
  destruct (Z.testbit p j), (Z.testbit m j), (Z.testbit x j);
    try reflexivity; discriminate.
Qed.

Lemma has_bits_lor_part (x a m : Z) :
  has_bits a m = true -> has_bits (Z.lor x a) m = true.
Proof. rewrite Z.lor_comm. apply has_bits_lor_l. Qed.

Lemma has_bits_self_lor_l (a b : Z) : a <> 0 -> has_bits a (Z.lor a b) = true.
Proof.
  intros Ha. unfold has_bits. apply negb_true_iff, Z.eqb_neq. intros Hz.
  apply Ha. apply Z.bits_inj'. intros j Hj.
  apply (f_equal (fun z => Z.testbit z j)) in Hz.
  rewrite Z.land_spec, Z.lor_spec, Z.bits_0 in Hz. rewrite Z.bits_0.
  now destruct (Z.testbit a j).
Qed.

Lemma has_bits_self_lor_r (a b : Z) : b <> 0 -> has_bits b (Z.lor a b) = true.
Proof. rewrite Z.lor_comm. apply has_bits_self_lor_l. Qed.

(** A bitmap below [2 ^ (d + 1)] without the bit [d] is below [2 ^ d]. *)
Lemma below_clear_bit (x d : Z) :
  0 <= d -> 0 <= x < 2 ^ (d + 1) -> Z.testbit x d = false -> x < 2 ^ d.
Proof.
  intros Hd Hx Hb. destruct (Z_lt_ge_dec x (2 ^ d)) as [|Hge]; [assumption|].
  exfalso. assert (Hlog : Z.log2 x = d).
  { apply Z.log2_unique; [lia|]. rewrite <- Z.add_1_r. lia. }
  assert (Hpos : 0 < x) by (pose proof (Z.pow_pos_nonneg 2 d); lia).
  pose proof (Z.bit_log2 x Hpos) as Hbit. rewrite Hlog, Hb in Hbit. discriminate.
Qed.

(** Adding the bit [k] to a bitmap below [2 ^ k]. *)
Lemma lor_next_pow2 (x k : Z) :
  0 <= k -> 0 <= x < 2 ^ k ->
  2 ^ k <= Z.lor x (2 ^ k) < 2 ^ (k + 1) /\ Z.log2 (Z.lor x (2 ^ k)) = k.
Proof.
  intros Hk Hx. assert (Hp : 0 < 2 ^ k) by (apply Z.pow_pos_nonneg; lia).
  assert (Hlog : Z.log2 (Z.lor x (2 ^ k)) = k).
  { rewrite Z.log2_lor, Z.log2_pow2 by lia.
    destruct (Z.eq_dec x 0) as [->|Hne]; [simpl; lia|].
    assert (Z.log2 x < k) by (apply Z.log2_lt_pow2; lia). lia. }
  split; [|assumption].
  assert (Hnn : 0 <= Z.lor x (2 ^ k)) by (apply Z.lor_nonneg; lia).
  assert (Hne : Z.lor x (2 ^ k) <> 0) by (intros H0; apply Z.lor_eq_0_iff in H0; lia).
  pose proof (Z.log2_spec (Z.lor x (2 ^ k))) as Hspec.
  rewrite Hlog in Hspec. rewrite <- Z.add_1_r in Hspec.
  replace (Z.succ k) with (k + 1) in Hspec by lia. lia.
Qed.

(** In an unsigned type, of whatever width, a difference exceeds its
    minuend only when the subtraction wrapped. *)
Lemma wrapped_difference (w a b : Z) :
  0 <= w -> 0 <= a -> 0 <= b -> a < CInt.wrap w (a - b) -> a < b.
Proof.
  intros Hw Ha Hb Hlt. unfold CInt.wrap in Hlt.
  destruct (Z_lt_ge_dec a b) as [|Hge]; [assumption|].
  assert (0 < 2 ^ w) by (apply Z.pow_pos_nonneg; lia).
  pose proof (Z.mod_le (a - b) (2 ^ w)). lia.
Qed.

Lemma CInt_wrap_small (w x : Z) : 0 <= x < 2 ^ w -> CInt.wrap w x = x.
Proof. intros Hx. unfold CInt.wrap. now apply Z.mod_small. Qed.

(** ** The stage selector *)

Module SelectFacts.
Import Select.

Section SelectProofs.
Context `{task_h}.

Lemma highest_bit_loop_log2 (rounds : nat) : forall mask st,
  1 <= mask < 2 ^ (Z.of_nat rounds + 1) ->
  highest_bit_loop rounds mask st = Ret (st + Z.log2 mask).
Proof.
  induction rounds as [|n IH]; intros mask st Hm; cbn [highest_bit_loop].
  - assert (mask = 1) as -> by (simpl in Hm; lia).
    simpl. f_equal. lia.
  - destruct (Z.eqb_spec mask 1) as [->|Hne].
    + simpl. f_equal. lia.
    + assert (Hlog : 1 <= Z.log2 mask) by (apply Z.log2_le_pow2; lia).
      rewrite IH.
      * rewrite Z.log2_shiftr by lia. f_equal. lia.
      * rewrite Z.shiftr_div_pow2 by lia. change (2 ^ 1) with 2.
        replace (Z.of_nat (S n) + 1) with (Z.succ (Z.of_nat n + 1)) in Hm by lia.
        rewrite Z.pow_succ_r in Hm by lia.
        split; [apply Z.div_le_lower_bound | apply Z.div_lt_upper_bound]; lia.
Qed.

Lemma next_bit_nonneg (ps : Z) : 0 <= next_bit ps.
Proof.
  unfold next_bit. destruct (ps =? 0); [lia|].
  pose proof (Z.log2_nonneg ps). lia.
Qed.

Lemma next_bit_le (ps n : Z) : 0 <= ps -> 0 <= n -> ps < 2 ^ n <-> next_bit ps <= n.
Proof.
  intros Hps Hn. unfold next_bit.
  destruct (Z.eqb_spec ps 0) as [->|Hne].
  - split; intros _; [lia | apply Z.pow_pos_nonneg; lia].
  - rewrite Z.log2_lt_pow2 by lia. lia.
Qed.

Lemma next_bit_lor (ps : Z) :
  0 <= ps -> next_bit (Z.lor ps (2 ^ next_bit ps)) = next_bit ps + 1.
Proof.
  intros Hps. pose proof (next_bit_nonneg ps) as Hh.
  assert (Hpow : 0 < 2 ^ next_bit ps) by (apply Z.pow_pos_nonneg; lia).
  assert (Hlog : Z.log2 (Z.lor ps (2 ^ next_bit ps)) = next_bit ps).
  { rewrite Z.log2_lor, Z.log2_pow2 by lia.
    unfold next_bit. destruct (Z.eqb_spec ps 0) as [->|]; simpl; lia. }
  unfold next_bit at 1.
  destruct (Z.eqb_spec (Z.lor ps (2 ^ next_bit ps)) 0) as [H0|_]; [|lia].
  apply Z.lor_eq_0_iff in H0. lia.
Qed.

Lemma testbit_lor_next (ps j : Z) :
  0 <= ps ->
  Z.testbit (Z.lor ps (2 ^ next_bit ps)) j = Z.testbit ps j || (next_bit ps =? j).
Proof.
  intros Hps. pose proof (next_bit_nonneg ps).
  now rewrite Z.lor_spec, Z.pow2_bits_eqb by lia.
Qed.

(** The index of the next bit is what the loop of the selector computes. *)
Lemma selector_index (ps : Z) :
  0 <= ps < 2 ^ 32 ->
  (if ps =? 0 then Ret 0 else highest_bit_loop 32 ps 1) = Ret (next_bit ps).
Proof.
  intros Hps. unfold next_bit. destruct (Z.eqb_spec ps 0) as [|Hne]; [reflexivity|].
  rewrite highest_bit_loop_log2.
  - f_equal. lia.
  - change (2 ^ (Z.of_nat 32 + 1)) with (2 * 2 ^ 32). lia.
Qed.


Lemma select_stage_aux (dbit req : Z) :
  RSPAMD_TASK_STAGE_DONE = 2 ^ dbit -> 0 <= dbit <= 30 -> 0 <= req ->
  forall (fuel : nat) (task : rspamd_task),
  0 <= processed_stages task < 2 ^ 30 ->
  processed_stages task < 2 ^ dbit \/ req < 2 ^ (dbit + 1) ->
  dbit + 1 - next_bit (processed_stages task) < Z.of_nat fuel ->
  (0 < fuel)%nat ->
  exists r ps',
    rspamd_task_select_processing_stage fuel task req
      = Ret (r, set_processed_stages task ps')
    /\ selected dbit (processed_stages task) req r ps'.
Proof.
  intros HD Hd Hreq. induction fuel as [|fuel IH]; intros task Hps Hdom Hfuel Hpos; [lia|].
  set (ps := processed_stages task) in *.
  set (h := next_bit ps) in *.
  assert (Hh0 : 0 <= h) by apply next_bit_nonneg.
  assert (Hh30 : h <= 30) by (apply next_bit_le; lia).
  assert (Hhd : ps < 2 ^ dbit <-> h <= dbit) by (apply next_bit_le; lia).
  cbn [rspamd_task_select_processing_stage]. fold ps.
  rewrite selector_index by (change (2 ^ 32) with (4 * 2 ^ 30); lia).
  fold h. cbn [obind]. unfold shl1.
  replace ((0 <=? h) && (h <=? 30)) with true
    by (symmetry; apply andb_true_iff; split; apply Z.leb_le; lia).
  cbn [obind]. rewrite Z.shiftl_1_l, has_bits_pow2 by lia.
  destruct (Z.testbit req h) eqn:Hbit.
  - (* the next bit is requested *)
    assert (Hle : h <= dbit).
    { destruct Hdom as [Hlt|Hlt]; [now apply Hhd|].
      destruct (Z_le_gt_dec h dbit) as [|Hgt]; [assumption|].
      rewrite Z.bits_above_log2 in Hbit; [discriminate|lia|].
      destruct (Z.eq_dec req 0) as [->|]; [simpl; lia|].
      apply Z.log2_lt_pow2; [lia|].
      apply Z.lt_le_trans with (2 ^ (dbit + 1)); [lia|].
      apply Z.pow_le_mono_r; lia. }
    exists (2 ^ h), ps. split; [now rewrite set_processed_stages_same|].
    unfold selected. fold h. repeat split.
    + intros k Hk _ Hmin. destruct (Z.eq_dec k h) as [->|Hne]; [reflexivity|].
      rewrite Hmin in Hbit by lia. discriminate.
    + intros Hnone. destruct (Z.eq_dec h dbit) as [->|Hne]; [reflexivity|].
      rewrite Hnone in Hbit by lia. discriminate.
    + destruct (Z.eq_dec h dbit) as [->|Hne]; [now left|].
      right. exists h. split; [lia|reflexivity].
    + intros j Hj. rewrite Z.log2_pow2 by lia.
      replace ((h <=? j) && (j <? h)) with false; [now rewrite orb_false_r|].
      symmetry. apply andb_false_iff.
      destruct (Z.leb_spec h j); [right; apply Z.ltb_ge; lia | now left].
  - rewrite HD. destruct (Z.ltb_spec (2 ^ h) (2 ^ dbit)) as [Hlt|Hge].
    + (* the next bit is not requested and is below the terminal bit *)
      apply Z.pow_lt_mono_r_iff in Hlt; [|lia|lia].
      set (task1 := set_processed_stages task (Z.lor ps (2 ^ h))).
      assert (Hps1 : processed_stages task1 = Z.lor ps (2 ^ h))
        by apply processed_stages_set.
      assert (Hnext : next_bit (processed_stages task1) = h + 1)
        by (rewrite Hps1; apply next_bit_lor; lia).
      assert (Hpos1 : 0 <= processed_stages task1)
        by (rewrite Hps1; apply Z.lor_nonneg; split; [lia|apply Z.pow_nonneg; lia]).
      destruct (IH task1) as (r & ps' & Hrun & HA & HB & HL & HM).
      * split; [assumption|]. apply next_bit_le; lia.
      * left. apply next_bit_le; lia.
      * lia.
      * lia.
      * exists r, ps'. split.
        { rewrite Hrun. unfold task1. now rewrite set_processed_stages_twice. }
        rewrite Hnext in HA, HB, HL, HM.
        unfold selected. fold h. repeat split.
        -- intros k Hk Hreqk Hmin. destruct (Z.eq_dec k h) as [->|Hne].
           ++ rewrite Hreqk in Hbit. discriminate.
           ++ apply HA; [lia|assumption|]. intros j Hj. apply Hmin. lia.
        -- intros Hnone. apply HB. intros j Hj. apply Hnone. lia.
        -- destruct HL as [HL|(k & Hk & HL)]; [now left|].
           right. exists k. split; [lia|assumption].
        -- intros j Hj. rewrite HM, Hps1 by assumption.
           unfold h. rewrite testbit_lor_next by lia. fold h.
           assert (Hlog : h + 1 <= Z.log2 r).
           { destruct HL as [->|(k & Hk & ->)]; rewrite Z.log2_pow2; lia. }
           rewrite <- orb_assoc. f_equal.
           destruct (Z.eqb_spec h j) as [<-|Hne].
           ++ symmetry. rewrite orb_true_l. apply andb_true_iff.
              split; [apply Z.leb_le|apply Z.ltb_lt]; lia.
           ++ rewrite orb_false_l. f_equal.
              destruct (Z.leb_spec (h + 1) j), (Z.leb_spec h j); try reflexivity; lia.
    + (* We are done *)
      apply Z.pow_le_mono_r_iff in Hge; [|lia|lia].
      exists (2 ^ dbit), ps. split; [now rewrite set_processed_stages_same|].
      unfold selected. fold h. repeat split.
      * intros k Hk. lia.
      * now left.
      * intros j Hj. rewrite Z.log2_pow2 by lia.
        replace ((h <=? j) && (j <? dbit)) with false; [now rewrite orb_false_r|].
        symmetry. apply andb_false_iff.
        destruct (Z.leb_spec h j); [right; apply Z.ltb_ge; lia | now left].
Qed.


(** C1.  The stage selector is correct.  Let the terminal stage DONE be
    the bit [dbit], the bitmap of completed stages [processed_stages
    task] fit 30 bits (so that the next bit is a [gint]), and either
    DONE be not yet in the bitmap or the request [req] name no bit above
    DONE.  Then the selector returns, with result [r], and changes
    nothing of the task but the bitmap, which becomes [ps'], where
    ([selected]): [r] is the lowest bit of [req] that is strictly above
    the highest bit of the bitmap (from bit 0 when the bitmap is 0) and
    below DONE, or DONE when [req] has no such bit; and the bits
    strictly above the highest bit of the old bitmap and below [r],
    which are not in [req], are exactly the bits added to the bitmap. *)
Theorem select_stage_correct
    (dbit : Z) (task : rspamd_task) (req : Z) (fuel : nat) :
  RSPAMD_TASK_STAGE_DONE = 2 ^ dbit -> 0 <= dbit <= 30 ->
  0 <= processed_stages task < 2 ^ 30 ->
  0 <= req ->
  processed_stages task < RSPAMD_TASK_STAGE_DONE
    \/ req < 2 * RSPAMD_TASK_STAGE_DONE ->
  (32 <= fuel)%nat ->
  exists r ps',
    rspamd_task_select_processing_stage fuel task req
      = Ret (r, set_processed_stages task ps')
    /\ selected dbit (processed_stages task) req r ps'.
Proof.
  intros HD Hd Hps Hreq Hdom Hfuel.
  apply select_stage_aux; try assumption; try lia.
  - rewrite HD in Hdom. destruct Hdom as [Hlt|Hlt]; [now left|right].
    rewrite Z.pow_add_r, Z.pow_1_r by lia. lia.
  - pose proof (next_bit_nonneg (processed_stages task)). lia.
Qed.

(** The selector changes nothing of the task but the bitmap. *)
Lemma select_only_bitmap (req : Z) (fuel : nat) : forall task st task',
  rspamd_task_select_processing_stage fuel task req = Ret (st, task') ->
  exists ps', task' = set_processed_stages task ps'.
Proof.
  induction fuel as [|fuel IH]; intros task st task'; cbn [rspamd_task_select_processing_stage];
    [discriminate|].
  destruct (if processed_stages task =? 0 then _ else _) as [i|]; [|discriminate].
  cbn [obind]. destruct (shl1 i) as [b|]; [|discriminate]. cbn [obind].
  destruct (has_bits req b).
  - intros [= <- <-]. exists (processed_stages task).
    now rewrite set_processed_stages_same.
  - destruct (b <? RSPAMD_TASK_STAGE_DONE).
    + intros Hrec. apply IH in Hrec as [ps' ->]. exists ps'.
      apply set_processed_stages_twice.
    + intros [= <- <-]. exists (processed_stages task).
      now rewrite set_processed_stages_same.
Qed.

(** The selector in numbers, for a bitmap below the terminal bit: the
    result is the bit [k], from the next bit of the bitmap up to the
    terminal bit; the bitmap it leaves is below [2 ^ k]; and a stage
    below the terminal one is returned only when it was asked for. *)
Lemma select_stage_bounds (dbit req : Z) :
  RSPAMD_TASK_STAGE_DONE = 2 ^ dbit -> 0 <= dbit <= 30 ->
  forall (fuel : nat) (task : rspamd_task),
  0 <= processed_stages task < 2 ^ dbit ->
  dbit + 1 - next_bit (processed_stages task) < Z.of_nat fuel ->
  exists k ps',
    rspamd_task_select_processing_stage fuel task req
      = Ret (2 ^ k, set_processed_stages task ps')
    /\ next_bit (processed_stages task) <= k <= dbit
    /\ processed_stages task <= ps' < 2 ^ k
    /\ (k < dbit -> Z.testbit req k = true).
Proof.
  intros HD Hd. induction fuel as [|fuel IH]; intros task Hps Hfuel.
  { pose proof (next_bit_le (processed_stages task) dbit). lia. }
  set (ps := processed_stages task) in *.
  set (h := next_bit ps) in *.
  assert (Hh0 : 0 <= h) by apply next_bit_nonneg.
  assert (Hhd : h <= dbit) by (apply next_bit_le; lia).
  assert (Hpsh : ps < 2 ^ h) by (apply next_bit_le; lia).
  cbn [rspamd_task_select_processing_stage]. fold ps.
  rewrite selector_index.
  2:{ split; [lia|]. apply Z.lt_le_trans with (2 ^ dbit); [lia|].
      apply Z.pow_le_mono_r; lia. }
  fold h. cbn [obind]. unfold shl1.
  replace ((0 <=? h) && (h <=? 30)) with true
    by (symmetry; apply andb_true_iff; split; apply Z.leb_le; lia).
  cbn [obind]. rewrite Z.shiftl_1_l, has_bits_pow2 by lia.
  destruct (Z.testbit req h) eqn:Hbit.
  - exists h, ps. split; [now rewrite set_processed_stages_same|].
    repeat split; try lia. intros _. assumption.
  - rewrite HD. destruct (Z.ltb_spec (2 ^ h) (2 ^ dbit)) as [Hlt|Hge].
    + apply Z.pow_lt_mono_r_iff in Hlt; [|lia|lia].
      set (task1 := set_processed_stages task (Z.lor ps (2 ^ h))).
      assert (Hps1 : processed_stages task1 = Z.lor ps (2 ^ h))
        by apply processed_stages_set.
      assert (Hnext : next_bit (processed_stages task1) = h + 1)
        by (rewrite Hps1; apply next_bit_lor; lia).
      assert (Hpos1 : 0 <= processed_stages task1)
        by (rewrite Hps1; apply Z.lor_nonneg; split; [lia|apply Z.pow_nonneg; lia]).
      assert (Hle1 : ps <= processed_stages task1).
      { rewrite Hps1. destruct (Z.eq_dec ps 0) as [->|Hne].
        - rewrite Z.lor_0_l. apply Z.pow_nonneg. lia.
        - assert (Hlog : Z.log2 ps < Z.log2 (Z.lor ps (2 ^ h))).
          { rewrite Z.log2_lor, Z.log2_pow2 by (try apply Z.pow_nonneg; lia).
            unfold h, next_bit. destruct (Z.eqb_spec ps 0); lia. }
          apply Z.log2_lt_cancel in Hlog. lia. }
      destruct (IH task1) as (k & ps' & Hrun & Hk & Hb & Hreq).
      * split; [assumption|]. apply next_bit_le; lia.
      * lia.
      * exists k, ps'. split.
        { rewrite Hrun. unfold task1. now rewrite set_processed_stages_twice. }
        repeat split; try lia. assumption.
    + apply Z.pow_le_mono_r_iff in Hge; [|lia|lia].
      assert (h = dbit) as Heq by lia.
      exists dbit, ps. split; [now rewrite set_processed_stages_same|].
      repeat split; try lia.
Qed.

(** Selecting once more on the task the selector has left gives the
    same stage and changes nothing. *)
Lemma select_fixed (req : Z) (fuel : nat) : forall task st task',
  rspamd_task_select_processing_stage fuel task req = Ret (st, task') ->
  forall n, rspamd_task_select_processing_stage (S n) task' req = Ret (st, task').
Proof.
  induction fuel as [|fuel IH]; intros task st task';
    cbn [rspamd_task_select_processing_stage]; [discriminate|].
  destruct (if processed_stages task =? 0 then _ else _) as [i|] eqn:Hi;
    [|discriminate].
  cbn [obind]. destruct (shl1 i) as [b|] eqn:Hb; [|discriminate]. cbn [obind].
  destruct (has_bits req b) eqn:Hreq.
  - intros [= <- <-] n. cbn [rspamd_task_select_processing_stage].
    rewrite Hi. cbn [obind]. rewrite Hb. cbn [obind]. now rewrite Hreq.
  - destruct (b <? RSPAMD_TASK_STAGE_DONE) eqn:Hlt.
    + intros Hrec n. now apply (IH _ _ _ Hrec).
    + intros [= <- <-] n. cbn [rspamd_task_select_processing_stage].
      rewrite Hi. cbn [obind]. rewrite Hb. cbn [obind]. now rewrite Hreq, Hlt.
Qed.

(** X1.  A stage that is selected and not completed is selected again.  In
    the domain of the selector (the terminal stage a bit [dbit <= 30],
    the bitmap within 30 bits, the terminal bit not yet in the bitmap or
    no bit above it in the request) the selector returns, and a second
    call on the task it leaves returns the same stage and leaves the
    same task. *)
Theorem select_stage_again
    (dbit : Z) (task : rspamd_task) (req : Z) (fuel : nat) :
  RSPAMD_TASK_STAGE_DONE = 2 ^ dbit -> 0 <= dbit <= 30 ->
  0 <= processed_stages task < 2 ^ 30 ->
  0 <= req ->
  processed_stages task < RSPAMD_TASK_STAGE_DONE
    \/ req < 2 * RSPAMD_TASK_STAGE_DONE ->
  (32 <= fuel)%nat ->
  exists st task',
    rspamd_task_select_processing_stage fuel task req = Ret (st, task')
    /\ rspamd_task_select_processing_stage fuel task' req = Ret (st, task').
Proof.
  intros HD Hd Hps Hreq Hdom Hfuel.
  destruct (select_stage_aux dbit req HD Hd Hreq fuel task Hps)
    as (r & ps' & Hrun & _).
  - rewrite HD in Hdom. destruct Hdom as [Hlt|Hlt]; [now left|right].
    rewrite Z.pow_add_r, Z.pow_1_r by lia. lia.
  - pose proof (next_bit_nonneg (processed_stages task)). lia.
  - lia.
  - exists r, (set_processed_stages task ps'). split; [assumption|].
    destruct fuel as [|n]; [lia|]. now apply (select_fixed req (S n) task).
Qed.

(** X2.  The selector computes the next bit as [1 << st] in [gint].  For a
    bitmap whose highest bit is bit 30 or bit 31 this is [1 << 31] or
    [1 << 32], which C leaves undefined: the selector has no result
    there, whatever the request. *)
Theorem select_stage_shift_overflow (task : rspamd_task) (req : Z) (fuel : nat) :
  2 ^ 30 <= processed_stages task < 2 ^ 32 ->
  rspamd_task_select_processing_stage (S fuel) task req = Fault UndefinedShift.
Proof.
  intros Hps. cbn [rspamd_task_select_processing_stage].
  rewrite selector_index by lia. cbn [obind].
  assert (Hlog : 30 <= Z.log2 (processed_stages task))
    by (apply Z.log2_le_pow2; lia).
  unfold next_bit. destruct (Z.eqb_spec (processed_stages task) 0); [lia|].
  unfold shl1.
  destruct (Z.leb_spec (Z.log2 (processed_stages task) + 1) 30); [lia|].
  now rewrite andb_false_r.
Qed.

End SelectProofs.
End SelectFacts.

(** ** The pipeline engine *)

Module ProcessFacts.
Import Process.

Section ProcessProofs.
Context `{task_h} `{stage_handlers}.

Lemma mark_done_processed (task : rspamd_task) :
  RSPAMD_TASK_STAGE_DONE <> 0 -> RSPAMD_TASK_IS_PROCESSED (mark_done task) = true.
Proof.
  intros HD. unfold RSPAMD_TASK_IS_PROCESSED, mark_done.
  rewrite processed_stages_set. now apply has_bits_lor_r.
Qed.

Lemma mark_done_again (task : rspamd_task) :
  RSPAMD_TASK_IS_PROCESSED task = true ->
  RSPAMD_TASK_IS_PROCESSED (mark_done task) = true.
Proof.
  unfold RSPAMD_TASK_IS_PROCESSED, mark_done. rewrite processed_stages_set.
  apply has_bits_lor_l.
Qed.

Lemma err_mark_done (task : rspamd_task) : err (mark_done task) = err task.
Proof. unfold mark_done. now autorewrite with task_fields. Qed.

Lemma flags_mark_done (task : rspamd_task) : flags (mark_done task) = flags task.
Proof. unfold mark_done. now autorewrite with task_fields. Qed.

(** A task that is already terminal is not changed by marking it so,
    when DONE is one bit. *)
Lemma mark_done_idle (dbit : Z) (task : rspamd_task) :
  RSPAMD_TASK_STAGE_DONE = 2 ^ dbit -> 0 <= dbit ->
  RSPAMD_TASK_IS_PROCESSED task = true -> mark_done task = task.
Proof.
  intros HD Hd. unfold RSPAMD_TASK_IS_PROCESSED, mark_done. rewrite HD.
  rewrite has_bits_pow2 by assumption. intros Hb.
  rewrite lor_pow2_set by assumption. apply set_processed_stages_same.
Qed.

(** C2, as amended.  When the action of [pre_result] is not the MAX
    sentinel and the processing-in-progress flag is clear at entry,
    [rspamd_task_process] returns success with the task changed in
    nothing but [processed_stages], to which the DONE bit is added
    ([mark_done]); [err] is as it was; no handler is called (the list
    of calls is the one given); and the task is terminal afterwards. *)
Theorem pre_result_short_circuit
    (dbit : Z) (task : rspamd_task) (stages : Z)
    (calls : list handler_call) (fuel : nat) :
  RSPAMD_TASK_STAGE_DONE = 2 ^ dbit -> 0 <= dbit ->
  pre_result_action task <> METRIC_ACTION_MAX ->
  has_bits (flags task) RSPAMD_TASK_FLAG_PROCESSING = false ->
  (0 < fuel)%nat ->
  rspamd_task_process fuel task stages calls = Ret (true, mark_done task, calls)
  /\ RSPAMD_TASK_IS_PROCESSED (mark_done task) = true
  /\ err (mark_done task) = err task.
Proof.
  intros HD Hd Hpre Hflag Hfuel.
  assert (HD0 : RSPAMD_TASK_STAGE_DONE <> 0).
  { rewrite HD. pose proof (Z.pow_pos_nonneg 2 dbit). lia. }
  destruct fuel as [|fuel]; [lia|].
  split; [|split; [now apply mark_done_processed | apply err_mark_done]].
  cbn [rspamd_task_process]. rewrite Hflag.
  destruct (RSPAMD_TASK_IS_PROCESSED task) eqn:Hproc.
  - now rewrite (mark_done_idle dbit).
  - destruct (Z.eqb_spec (pre_result_action task) METRIC_ACTION_MAX);
      [contradiction|reflexivity].
Qed.

(** The LEARN labels are reached past every label before them. *)
Lemma dispatch_learn_stage (st : Z) (task : rspamd_task) (calls : list handler_call) :
  NoDup stage_labels ->
  st = RSPAMD_TASK_STAGE_LEARN \/ st = RSPAMD_TASK_STAGE_LEARN_PRE
    \/ st = RSPAMD_TASK_STAGE_LEARN_POST ->
  has_bits (flags task)
    (Z.lor RSPAMD_TASK_FLAG_LEARN_SPAM RSPAMD_TASK_FLAG_LEARN_HAM) = true ->
  err task = None ->
  dispatch_stage st task calls =
    let '(ok, stat_error, task') :=
      rspamd_stat_learn task (Z.land (flags task) RSPAMD_TASK_FLAG_LEARN_SPAM) st in
    if negb ok then
      (true,
       mark_done (if negb (has_bits (flags task') RSPAMD_TASK_FLAG_LEARN_AUTO)
                  then set_err task' stat_error else task'),
       calls ++ [call_stat_learn st])
    else (true, task', calls ++ [call_stat_learn st]).
Proof.
  intros HND Hst Hlearn Herr. unfold stage_labels in HND.
  rewrite !NoDup_cons, !not_elem_of_cons in HND.
  unfold dispatch_stage.
  repeat match goal with
  | |- context [?a =? ?b] =>
      destruct (Z.eqb_spec a b);
      [ try (exfalso; subst; intuition congruence) | ]
  end; cbn [orb]; try (exfalso; intuition congruence);
  rewrite Hlearn, Herr; reflexivity.
Qed.

(** C8.  A task that [rspamd_task_process] takes up (no nested call, not
    terminal, no forced result) with a LEARN stage selected, learn-spam
    or learn-ham set and no error recorded, and whose learner fails
    with [stat_error], leaving the task [t2]: the call returns success
    after that one handler call, the task is terminal (the DONE bit is
    set), and [err] is the learner's error when the learn-auto flag is
    not set, and is not assigned (it is what the learner left in the
    task) when the flag is set. *)
Theorem learner_failure
    (task : rspamd_task) (stages : Z) (calls : list handler_call) (fuel : nat)
    (st : Z) (t1 t2 : rspamd_task) (stat_error : option GError) :
  NoDup stage_labels -> RSPAMD_TASK_STAGE_DONE <> 0 ->
  has_bits (flags task) RSPAMD_TASK_FLAG_PROCESSING = false ->
  RSPAMD_TASK_IS_PROCESSED task = false ->
  pre_result_action task = METRIC_ACTION_MAX ->
  Select.rspamd_task_select_processing_stage select_fuel
    (set_flags task (Z.lor (flags task) RSPAMD_TASK_FLAG_PROCESSING)) stages
    = Ret (st, t1) ->
  st = RSPAMD_TASK_STAGE_LEARN \/ st = RSPAMD_TASK_STAGE_LEARN_PRE
    \/ st = RSPAMD_TASK_STAGE_LEARN_POST ->
  has_bits (flags task)
    (Z.lor RSPAMD_TASK_FLAG_LEARN_SPAM RSPAMD_TASK_FLAG_LEARN_HAM) = true ->
  err task = None ->
  rspamd_stat_learn t1 (Z.land (flags t1) RSPAMD_TASK_FLAG_LEARN_SPAM) st
    = (false, stat_error, t2) ->
  (0 < fuel)%nat ->
  exists task',
    rspamd_task_process fuel task stages calls
      = Ret (true, task', calls ++ [call_stat_learn st])
    /\ (has_bits (flags t2) RSPAMD_TASK_FLAG_LEARN_AUTO = false ->
        err task' = stat_error)
    /\ (has_bits (flags t2) RSPAMD_TASK_FLAG_LEARN_AUTO = true ->
        err task' = err t2)
    /\ RSPAMD_TASK_IS_PROCESSED task' = true.
Proof.
  intros HND HD Hflag Hproc Hpre Hsel Hst Hlearn Herr Hfail Hfuel.
  destruct fuel as [|fuel]; [lia|].
  cbn [rspamd_task_process]. rewrite Hflag, Hproc, Hpre, Z.eqb_refl.
  cbn [negb]. rewrite Hsel. cbn [obind].
  destruct (SelectFacts.select_only_bitmap _ _ _ _ _ Hsel) as [ps' Ht1].
  assert (Hf1 : flags t1 = Z.lor (flags task) RSPAMD_TASK_FLAG_PROCESSING)
    by (rewrite Ht1; now autorewrite with task_fields).
  assert (He1 : err t1 = None)
    by (rewrite Ht1; now autorewrite with task_fields).
  rewrite (dispatch_learn_stage st t1 calls HND Hst);
    [| rewrite Hf1; now apply has_bits_lor_l | assumption].
  rewrite Hfail. cbn [negb].
  set (t3 := mark_done _).
  assert (Hp3 : RSPAMD_TASK_IS_PROCESSED t3 = true)
    by (now apply mark_done_processed).
  set (t4 := if RSPAMD_TASK_IS_SKIPPED t3 then mark_done t3 else t3).
  assert (Hp4 : RSPAMD_TASK_IS_PROCESSED t4 = true)
    by (unfold t4; destruct (RSPAMD_TASK_IS_SKIPPED t3);
        [now apply mark_done_again | assumption]).
  assert (He4 : err t4 = err t3)
    by (unfold t4; destruct (RSPAMD_TASK_IS_SKIPPED t3);
        [apply err_mark_done | reflexivity]).
  set (t5 := set_flags t4 _).
  assert (Hp5 : RSPAMD_TASK_IS_PROCESSED t5 = true)
    by (unfold RSPAMD_TASK_IS_PROCESSED, t5 in *; now autorewrite with task_fields).
  rewrite Hp5. cbn [negb orb].
  exists t5. split; [reflexivity|].
  assert (He5 : err t5 = err t3)
    by (unfold t5; now autorewrite with task_fields).
  rewrite He5. unfold t3. rewrite err_mark_done.
  repeat split; try assumption.
  - intros ->. cbn [negb]. now autorewrite with task_fields.
  - intros ->. reflexivity.
Qed.

Lemma s_mark_done (task : rspamd_task) : s (mark_done task) = s task.
Proof. unfold mark_done. now autorewrite with task_fields. Qed.

Lemma processed_stages_mark_done (task : rspamd_task) :
  processed_stages (mark_done task)
  = Z.lor (processed_stages task) RSPAMD_TASK_STAGE_DONE.
Proof. unfold mark_done. now autorewrite with task_fields. Qed.

Lemma mark_done_twice (task : rspamd_task) : mark_done (mark_done task) = mark_done task.
Proof.
  unfold mark_done. rewrite processed_stages_set, set_processed_stages_twice.
  now rewrite <- Z.lor_assoc, Z.lor_diag.
Qed.

(** What a [case] of the [switch] leaves of a field that no handler
    changes and that does not depend on [err] or on the bitmap. *)
Lemma dispatch_keeps {A : Type} (field : rspamd_task -> A)
    (st : Z) (task : rspamd_task) (calls : list handler_call) :
  handlers_keep field ->
  (forall t e, field (set_err t e) = field t) ->
  (forall t, field (mark_done t) = field t) ->
  field (snd (fst (dispatch_stage st task calls))) = field task.
Proof.
  intros Hkeep Herr Hdone. unfold dispatch_stage.
  repeat match goal with
  | |- context [match ?x with _ => _ end] => destruct x eqn:?
  end; cbn [fst snd];
  rewrite ?Hdone, ?Herr;
  try reflexivity;
  repeat match goal with
  | E : ?h = (_, _) |- _ =>
      apply (f_equal snd) in E; cbn [snd] in E; rewrite <- E; clear E
  end;
  rewrite ?(keep_check_autolearn _ Hkeep);
  first [ apply (keep_message_parse _ Hkeep)
        | apply (keep_pre_filters _ Hkeep)
        | apply (keep_process_symbols _ Hkeep)
        | apply (keep_stat_classify _ Hkeep)
        | apply (keep_make_composites _ Hkeep)
        | apply (keep_post_filters _ Hkeep)
        | apply (keep_stat_learn _ Hkeep) ].
Qed.

Lemma handlers_keep_map {A B : Type} (field : rspamd_task -> A) (f : A -> B) :
  handlers_keep field -> handlers_keep (fun t => f (field t)).
Proof.
  intros [H1 H2 H3 H4 H5 H6 H7 H8].
  split; intros; f_equal; auto.
Qed.

(** Two bitmaps without the bit [d] that agree once it is added. *)
Lemma lor_pow2_cancel (a b d : Z) :
  0 <= d -> Z.testbit a d = false -> Z.testbit b d = false ->
  Z.lor a (2 ^ d) = Z.lor b (2 ^ d) -> a = b.
Proof.
  intros Hd Ha Hb Heq. apply Z.bits_inj'. intros j Hj.
  apply (f_equal (fun z => Z.testbit z j)) in Heq.
  rewrite !Z.lor_spec, Z.pow2_bits_eqb in Heq by assumption.
  destruct (Z.eqb_spec d j) as [Hdj|Hne]; [subst j; congruence|].
  now rewrite !orb_false_r in Heq.
Qed.

Lemma after_stage_idle (t2 : rspamd_task) :
  has_bits (flags (after_stage t2)) RSPAMD_TASK_FLAG_PROCESSING = false.
Proof. unfold after_stage. rewrite flags_set_flags. apply has_bits_clear. Qed.

Lemma after_stage_bitmap (t2 : rspamd_task) :
  Z.lor (processed_stages (after_stage t2)) RSPAMD_TASK_STAGE_DONE
  = Z.lor (processed_stages t2) RSPAMD_TASK_STAGE_DONE.
Proof.
  unfold after_stage. rewrite processed_stages_set_flags.
  destruct (RSPAMD_TASK_IS_SKIPPED t2); [|reflexivity].
  rewrite processed_stages_mark_done. now rewrite <- Z.lor_assoc, Z.lor_diag.
Qed.

Lemma after_stage_events (t2 : rspamd_task) : s (after_stage t2) = s t2.
Proof.
  unfold after_stage. rewrite s_set_flags.
  destruct (RSPAMD_TASK_IS_SKIPPED t2); [apply s_mark_done | reflexivity].
Qed.

(** One round of [rspamd_task_process] on a task it takes up. *)
Lemma process_round (fuel : nat) (task : rspamd_task) (stages : Z)
    (calls : list handler_call) (st : Z) (t1 : rspamd_task) :
  has_bits (flags task) RSPAMD_TASK_FLAG_PROCESSING = false ->
  RSPAMD_TASK_IS_PROCESSED task = false ->
  pre_result_action task = METRIC_ACTION_MAX ->
  Select.rspamd_task_select_processing_stage select_fuel
    (set_flags task (Z.lor (flags task) RSPAMD_TASK_FLAG_PROCESSING)) stages
    = Ret (st, t1) ->
  rspamd_task_process (S fuel) task stages calls =
    let ret := fst (fst (dispatch_stage st t1 calls)) in
    let t4 := after_stage (snd (fst (dispatch_stage st t1 calls))) in
    let calls := snd (dispatch_stage st t1 calls) in
    if negb ret || RSPAMD_TASK_IS_PROCESSED t4 then
      Ret (ret, (if negb ret then mark_done t4 else t4), calls)
    else if negb (rspamd_session_events_pending (s t4) =? 0) then
      Ret (ret, t4, calls)
    else
      rspamd_task_process fuel
        (set_checkpoint
           (set_processed_stages t4 (Z.lor (processed_stages t4) st)) None)
        stages calls.
Proof.
  intros Hflag Hproc Hpre Hsel. cbn [rspamd_task_process].
  rewrite Hflag, Hproc, Hpre, Z.eqb_refl. cbn [negb]. rewrite Hsel. cbn [obind].
  destruct (dispatch_stage st t1 calls) as [[ret t2] calls2]. reflexivity.
Qed.

(** [rspamd_task_process] returns, when the handlers leave the bitmap of
    completed stages alone and the bitmap holds stage bits only.  On a
    call that is not nested the in-progress flag is clear at the return,
    and the task is terminal unless the call answers [TRUE] with events
    of the session pending. *)
Lemma process_exit (dbit stages : Z) :
  RSPAMD_TASK_STAGE_DONE = 2 ^ dbit -> 0 <= dbit <= 30 ->
  handlers_keep processed_stages ->
  forall (fuel : nat) (task : rspamd_task) (calls : list handler_call),
  0 <= processed_stages task < 2 ^ (dbit + 1) ->
  has_bits (flags task) RSPAMD_TASK_FLAG_PROCESSING = false ->
  dbit + 1 - Select.next_bit (processed_stages task) < Z.of_nat fuel ->
  exists ret task' calls',
    rspamd_task_process fuel task stages calls = Ret (ret, task', calls')
    /\ has_bits (flags task') RSPAMD_TASK_FLAG_PROCESSING = false
    /\ (RSPAMD_TASK_IS_PROCESSED task' = true
        \/ (ret = true /\ RSPAMD_TASK_IS_PROCESSED task' = false /\ s task' <> 0)).
Proof.
  intros HD Hd Hkeep.
  assert (HD0 : RSPAMD_TASK_STAGE_DONE <> 0).
  { rewrite HD. pose proof (Z.pow_pos_nonneg 2 dbit). lia. }
  induction fuel as [|fuel IH]; intros task calls Hps Hflag Hfuel.
  { exfalso. destruct (Z_lt_ge_dec (processed_stages task) (2 ^ dbit)) as [Hlt|Hge].
    - pose proof (proj1 (SelectFacts.next_bit_le (processed_stages task) dbit
                           ltac:(lia) ltac:(lia)) Hlt). lia.
    - pose proof (proj1 (SelectFacts.next_bit_le (processed_stages task) (dbit + 1)
                           ltac:(lia) ltac:(lia)) ltac:(lia)). lia. }
  destruct (RSPAMD_TASK_IS_PROCESSED task) eqn:Hproc.
  { exists true, task, calls. cbn [rspamd_task_process]. rewrite Hflag, Hproc.
    repeat split; auto. }
  destruct (Z.eqb_spec (pre_result_action task) METRIC_ACTION_MAX) as [Hpre|Hpre].
  2:{ exists true, (mark_done task), calls. cbn [rspamd_task_process].
      rewrite Hflag, Hproc.
      destruct (Z.eqb_spec (pre_result_action task) METRIC_ACTION_MAX);
        [contradiction|]. cbn [negb]. split; [reflexivity|].
      rewrite flags_mark_done. split; [assumption|]. left.
      now apply mark_done_processed. }
  assert (Hbit : Z.testbit (processed_stages task) dbit = false).
  { unfold RSPAMD_TASK_IS_PROCESSED in Hproc. rewrite HD in Hproc.
    now rewrite has_bits_pow2 in Hproc by lia. }
  assert (Hlow : processed_stages task < 2 ^ dbit)
    by (apply below_clear_bit; [lia|assumption|assumption]).
  set (t0 := set_flags task (Z.lor (flags task) RSPAMD_TASK_FLAG_PROCESSING)).
  assert (Hps0 : processed_stages t0 = processed_stages task)
    by apply processed_stages_set_flags.
  destruct (SelectFacts.select_stage_bounds dbit stages HD Hd select_fuel t0)
    as (k & ps' & Hsel & Hk & Hb & _).
  { rewrite Hps0. lia. }
  { rewrite Hps0. pose proof (SelectFacts.next_bit_nonneg (processed_stages task)).
    unfold select_fuel. lia. }
  rewrite Hps0 in Hk, Hb.
  set (t1 := set_processed_stages t0 ps') in *.
  rewrite (process_round fuel task stages calls (2 ^ k) t1 Hflag Hproc Hpre Hsel).
  cbn zeta.
  set (ret := fst (fst (dispatch_stage (2 ^ k) t1 calls))).
  set (t2 := snd (fst (dispatch_stage (2 ^ k) t1 calls))).
  set (calls2 := snd (dispatch_stage (2 ^ k) t1 calls)).
  set (t4 := after_stage t2).
  assert (Hidle : has_bits (flags t4) RSPAMD_TASK_FLAG_PROCESSING = false)
    by apply after_stage_idle.
  assert (Hbm : Z.lor (processed_stages t4) RSPAMD_TASK_STAGE_DONE
                = Z.lor ps' RSPAMD_TASK_STAGE_DONE).
  { unfold t4. rewrite after_stage_bitmap. unfold t2.
    rewrite (dispatch_keeps (fun t => Z.lor (processed_stages t) RSPAMD_TASK_STAGE_DONE)).
    - unfold t1. now rewrite processed_stages_set.
    - now apply (handlers_keep_map processed_stages
                   (fun ps => Z.lor ps RSPAMD_TASK_STAGE_DONE)).
    - intros t e. now rewrite processed_stages_set_err.
    - intros t. rewrite processed_stages_mark_done.
      now rewrite <- Z.lor_assoc, Z.lor_diag. }
  destruct ret.
  2:{ cbn [negb orb]. exists false, (mark_done t4), calls2.
      split; [reflexivity|]. rewrite flags_mark_done. split; [assumption|].
      left. now apply mark_done_processed. }
  cbn [negb orb].
  destruct (RSPAMD_TASK_IS_PROCESSED t4) eqn:Hproc4.
  { exists true, t4, calls2. repeat split; auto. }
  unfold rspamd_session_events_pending.
  destruct (Z.eqb_spec (s t4) 0) as [Hs|Hs]; cbn [negb].
  2:{ exists true, t4, calls2. repeat split; auto. }
  (* Mark the current stage as done and go to the next stage *)
  assert (Hbit4 : Z.testbit (processed_stages t4) dbit = false).
  { unfold RSPAMD_TASK_IS_PROCESSED in Hproc4. rewrite HD in Hproc4.
    now rewrite has_bits_pow2 in Hproc4 by lia. }
  assert (Hps4 : processed_stages t4 = ps').
  { apply (lor_pow2_cancel _ _ dbit); [lia|assumption| |now rewrite <- HD].
    destruct (Z.eq_dec ps' 0) as [->|Hne]; [apply Z.bits_0|].
    apply Z.bits_above_log2; [lia|].
    apply Z.log2_lt_pow2; [lia|].
    apply Z.lt_le_trans with (2 ^ k); [lia|]. apply Z.pow_le_mono_r; lia. }
  pose proof (SelectFacts.next_bit_nonneg (processed_stages task)) as Hh0.
  destruct (lor_next_pow2 ps' k ltac:(lia) ltac:(lia)) as [Hrange Hlog].
  set (t5 := set_checkpoint _ None).
  assert (Hps5 : processed_stages t5 = Z.lor ps' (2 ^ k)).
  { unfold t5. autorewrite with task_fields. now rewrite Hps4. }
  destruct (IH t5 calls2) as (ret' & task' & calls' & Hrun & Hpost).
  - rewrite Hps5. split; [lia|].
    apply Z.lt_le_trans with (2 ^ (k + 1)); [lia|]. apply Z.pow_le_mono_r; lia.
  - unfold t5. now autorewrite with task_fields.
  - rewrite Hps5. unfold Select.next_bit.
    destruct (Z.eqb_spec (Z.lor ps' (2 ^ k)) 0); [lia|]. lia.
  - exists ret', task', calls'. split; assumption.
Qed.

Lemma process_exit_32 (dbit stages : Z) (fuel : nat) (task : rspamd_task)
    (calls : list handler_call) :
  RSPAMD_TASK_STAGE_DONE = 2 ^ dbit -> 0 <= dbit <= 30 ->
  handlers_keep processed_stages ->
  0 <= processed_stages task < 2 * RSPAMD_TASK_STAGE_DONE ->
  has_bits (flags task) RSPAMD_TASK_FLAG_PROCESSING = false ->
  (32 <= fuel)%nat ->
  exists ret task' calls',
    rspamd_task_process fuel task stages calls = Ret (ret, task', calls')
    /\ has_bits (flags task') RSPAMD_TASK_FLAG_PROCESSING = false
    /\ (RSPAMD_TASK_IS_PROCESSED task' = true
        \/ (ret = true /\ RSPAMD_TASK_IS_PROCESSED task' = false /\ s task' <> 0)).
Proof.
  intros HD Hd Hkeep Hps Hflag Hfuel.
  apply (process_exit dbit stages HD Hd Hkeep); [|assumption|].
  - rewrite HD in Hps. rewrite Z.pow_add_r, Z.pow_1_r by lia. lia.
  - pose proof (SelectFacts.next_bit_nonneg (processed_stages task)). lia.
Qed.

(** X3.  The exit contract of [rspamd_task_process].  With handlers that
    leave the bitmap of completed stages alone, a call that is not
    nested, on a task whose bitmap holds stage bits only, returns; it
    answers [FALSE] only with the task terminal; and it returns a task
    that is not terminal only with the answer [TRUE] and events of the
    session pending. *)
Theorem process_terminal_or_pending
    (dbit : Z) (task : rspamd_task) (stages : Z)
    (calls : list handler_call) (fuel : nat) :
  RSPAMD_TASK_STAGE_DONE = 2 ^ dbit -> 0 <= dbit <= 30 ->
  handlers_keep processed_stages ->
  0 <= processed_stages task < 2 * RSPAMD_TASK_STAGE_DONE ->
  has_bits (flags task) RSPAMD_TASK_FLAG_PROCESSING = false ->
  (32 <= fuel)%nat ->
  exists ret task' calls',
    rspamd_task_process fuel task stages calls = Ret (ret, task', calls')
    /\ (ret = false -> RSPAMD_TASK_IS_PROCESSED task' = true)
    /\ (RSPAMD_TASK_IS_PROCESSED task' = false ->
        ret = true /\ rspamd_session_events_pending (s task') <> 0).
Proof.
  intros HD Hd Hkeep Hps Hflag Hfuel.
  destruct (process_exit_32 dbit stages fuel task calls HD Hd Hkeep Hps Hflag Hfuel)
    as (ret & task' & calls' & Hrun & _ & Hpost).
  exists ret, task', calls'. split; [assumption|].
  destruct Hpost as [Hterm|(Hret & Hnot & Hpend)].
  - split; [auto|]. intros Hn. congruence.
  - split; [congruence|]. auto.
Qed.

(** X4.  [rspamd_task_process] never leaves the task locked: under the same
    conditions the in-progress flag, clear at the call, is clear at the
    return, whatever the handlers did to the flags. *)
Theorem process_releases_flag
    (dbit : Z) (task : rspamd_task) (stages : Z)
    (calls : list handler_call) (fuel : nat) :
  RSPAMD_TASK_STAGE_DONE = 2 ^ dbit -> 0 <= dbit <= 30 ->
  handlers_keep processed_stages ->
  0 <= processed_stages task < 2 * RSPAMD_TASK_STAGE_DONE ->
  has_bits (flags task) RSPAMD_TASK_FLAG_PROCESSING = false ->
  (32 <= fuel)%nat ->
  exists ret task' calls',
    rspamd_task_process fuel task stages calls = Ret (ret, task', calls')
    /\ has_bits (flags task') RSPAMD_TASK_FLAG_PROCESSING = false.
Proof.
  intros HD Hd Hkeep Hps Hflag Hfuel.
  destruct (process_exit_32 dbit stages fuel task calls HD Hd Hkeep Hps Hflag Hfuel)
    as (ret & task' & calls' & Hrun & Hidle & _).
  now exists ret, task', calls'.
Qed.

(** X5.  [rspamd_task_fin] outside a run of the engine.  Let the
    in-progress flag be clear at the call ([rspamd_task_fin] is not
    called from a handler of [rspamd_task_process]), let the bitmap of
    the task hold stage bits only, [DONE] being a single bit below bit
    31, and let the handlers leave the bitmap alone.  Then
    [rspamd_task_fin] returns, and it answers that the session is to
    terminate exactly when the task is terminal at its return; when it
    asks for one more iteration, events of the session are pending.
    (With the in-progress flag set the nested call of the engine returns
    at once, and [rspamd_task_fin] asks for one more iteration also with
    no event pending.) *)
Theorem fin_true_iff_terminal
    (dbit : Z) (task : rspamd_task) (all_stages : Z)
    (calls : list handler_call) (fuel : nat) :
  RSPAMD_TASK_STAGE_DONE = 2 ^ dbit -> 0 <= dbit <= 30 ->
  handlers_keep processed_stages ->
  0 <= processed_stages task < 2 * RSPAMD_TASK_STAGE_DONE ->
  has_bits (flags task) RSPAMD_TASK_FLAG_PROCESSING = false ->
  (32 <= fuel)%nat ->
  exists task' calls',
    rspamd_task_fin fuel all_stages task calls
      = Ret (RSPAMD_TASK_IS_PROCESSED task', task', calls')
    /\ (RSPAMD_TASK_IS_PROCESSED task' = false ->
        rspamd_session_events_pending (s task') <> 0).
Proof.
  intros HD Hd Hkeep Hps Hflag Hfuel. unfold rspamd_task_fin.
  destruct (RSPAMD_TASK_IS_PROCESSED task) eqn:Hproc.
  { exists task, calls. rewrite Hproc. split; [reflexivity|discriminate]. }
  destruct (process_exit_32 dbit all_stages fuel task calls HD Hd Hkeep Hps Hflag Hfuel)
    as (ret & task' & calls' & Hrun & _ & Hpost).
  rewrite Hrun. cbn [obind]. exists task', calls'.
  destruct Hpost as [Hterm|(-> & Hnot & Hpend)].
  - rewrite Hterm. split; [|discriminate]. now destruct ret.
  - cbn [negb]. rewrite Hnot. split; [reflexivity|]. auto.
Qed.

(** The ways in which a call of [rspamd_task_process] returns. *)
Lemma process_cases (fuel : nat) (task : rspamd_task) (stages : Z)
    (calls : list handler_call) (r : bool * rspamd_task * list handler_call) :
  rspamd_task_process (S fuel) task stages calls = Ret r ->
  (r = (true, task, calls)
   /\ (has_bits (flags task) RSPAMD_TASK_FLAG_PROCESSING = true
       \/ RSPAMD_TASK_IS_PROCESSED task = true))
  \/ (r = (true, mark_done task, calls)
      /\ has_bits (flags task) RSPAMD_TASK_FLAG_PROCESSING = false)
  \/ exists st t1,
       has_bits (flags task) RSPAMD_TASK_FLAG_PROCESSING = false
       /\ Select.rspamd_task_select_processing_stage select_fuel
            (set_flags task (Z.lor (flags task) RSPAMD_TASK_FLAG_PROCESSING)) stages
          = Ret (st, t1)
       /\ let ret := fst (fst (dispatch_stage st t1 calls)) in
          let t4 := after_stage (snd (fst (dispatch_stage st t1 calls))) in
          let calls2 := snd (dispatch_stage st t1 calls) in
          (r = (ret, (if negb ret then mark_done t4 else t4), calls2)
           /\ (ret = false \/ RSPAMD_TASK_IS_PROCESSED t4 = true))
          \/ (r = (true, t4, calls2)
              /\ RSPAMD_TASK_IS_PROCESSED t4 = false /\ s t4 <> 0)
          \/ (RSPAMD_TASK_IS_PROCESSED t4 = false /\ s t4 = 0
              /\ rspamd_task_process fuel
                   (set_checkpoint
                      (set_processed_stages t4 (Z.lor (processed_stages t4) st)) None)
                   stages calls2 = Ret r).
Proof.
  intros Hrun.
  destruct (has_bits (flags task) RSPAMD_TASK_FLAG_PROCESSING) eqn:Hflag.
  { left. cbn [rspamd_task_process] in Hrun. rewrite Hflag in Hrun.
    injection Hrun as <-. auto. }
  destruct (RSPAMD_TASK_IS_PROCESSED task) eqn:Hproc.
  { left. cbn [rspamd_task_process] in Hrun. rewrite Hflag, Hproc in Hrun.
    injection Hrun as <-. auto. }
  destruct (Z.eqb_spec (pre_result_action task) METRIC_ACTION_MAX) as [Hpre|Hpre].
  2:{ right. left. cbn [rspamd_task_process] in Hrun. rewrite Hflag, Hproc in Hrun.
      destruct (Z.eqb_spec (pre_result_action task) METRIC_ACTION_MAX);
        [contradiction|]. injection Hrun as <-. auto. }
  right. right.
  destruct (Select.rspamd_task_select_processing_stage select_fuel
              (set_flags task (Z.lor (flags task) RSPAMD_TASK_FLAG_PROCESSING)) stages)
    as [[st t1]|f] eqn:Hsel.
  2:{ cbn [rspamd_task_process] in Hrun.
      rewrite Hflag, Hproc, Hpre, Z.eqb_refl, Hsel in Hrun. discriminate. }
  exists st, t1. split; [reflexivity|]. split; [reflexivity|].
  rewrite (process_round fuel task stages calls st t1 Hflag Hproc Hpre Hsel) in Hrun.
  cbn zeta in *.
  destruct (fst (fst (dispatch_stage st t1 calls))).
  2:{ cbn [negb orb] in *. injection Hrun as <-. left. auto. }
  cbn [negb orb] in *.
  destruct (RSPAMD_TASK_IS_PROCESSED (after_stage _)) eqn:Hproc4.
  { injection Hrun as <-. left. auto. }
  unfold rspamd_session_events_pending in Hrun.
  destruct (Z.eqb_spec (s (after_stage (snd (fst (dispatch_stage st t1 calls))))) 0)
    as [Hs|Hs]; cbn [negb] in Hrun.
  - right. right. auto.
  - injection Hrun as <-. right. left. auto.
Qed.

(** The selector answers a stage that was asked for, or the terminal
    stage. *)
Lemma select_requested (req : Z) (fuel : nat) : forall task st task',
  Select.rspamd_task_select_processing_stage fuel task req = Ret (st, task') ->
  has_bits req st = true \/ st = RSPAMD_TASK_STAGE_DONE.
Proof.
  induction fuel as [|fuel IH]; intros task st task';
    cbn [Select.rspamd_task_select_processing_stage]; [discriminate|].
  destruct (if processed_stages task =? 0 then _ else _) as [i|]; [|discriminate].
  cbn [obind]. destruct (Select.shl1 i) as [b|]; [|discriminate]. cbn [obind].
  destruct (has_bits req b) eqn:Hreq.
  - intros [= <- <-]. now left.
  - destruct (b <? RSPAMD_TASK_STAGE_DONE).
    + apply IH.
    + intros [= <- <-]. now right.
Qed.

(** The calls of a [case] of the [switch] are added to the calls made
    before, and belong to the stage of the [case]. *)
Lemma dispatch_calls (st : Z) (task : rspamd_task) (calls : list handler_call) :
  exists new,
    snd (dispatch_stage st task calls) = calls ++ new
    /\ Forall (fun c => stage_of_call c = st) new.
Proof.
  unfold dispatch_stage.
  repeat match goal with
  | |- context [if ?a =? ?b then _ else _] => destruct (Z.eqb_spec a b)
  | |- context [if (?a =? ?b) || _ then _ else _] =>
      destruct (Z.eqb_spec a b); cbn [orb]
  | |- context [match ?x with _ => _ end] => destruct x eqn:?
  end; cbn [fst snd];
  first [ exists []; split; [now rewrite app_nil_r | constructor]
        | eexists [_]; split; [reflexivity|];
          repeat constructor; cbn [stage_of_call]; congruence
        | eexists [_; _]; split; [now rewrite <- app_assoc|];
          repeat constructor; cbn [stage_of_call]; congruence ].
Qed.

(** With distinct labels, the [case] of the terminal stage calls no
    handler. *)
Lemma dispatch_done_quiet (task : rspamd_task) (calls : list handler_call) :
  NoDup stage_labels ->
  snd (dispatch_stage RSPAMD_TASK_STAGE_DONE task calls) = calls.
Proof.
  intros HND. unfold stage_labels in HND.
  rewrite !NoDup_cons, !not_elem_of_cons in HND.
  unfold dispatch_stage.
  repeat match goal with
  | |- context [?a =? ?b] =>
      destruct (Z.eqb_spec a b);
      [ try (exfalso; intuition congruence) | ]
  end; cbn [orb]; try (exfalso; intuition congruence); reflexivity.
Qed.

Lemma process_calls_requested (stages : Z) :
  NoDup stage_labels ->
  forall (fuel : nat) (task : rspamd_task) (calls : list handler_call) r,
  rspamd_task_process fuel task stages calls = Ret r ->
  exists new,
    snd r = calls ++ new
    /\ Forall (fun c => has_bits stages (stage_of_call c) = true) new.
Proof.
  intros HND. induction fuel as [|fuel IH]; intros task calls r Hrun; [discriminate|].
  apply process_cases in Hrun
    as [[-> _]|[[-> _]|(st & t1 & _ & Hsel & Hcase)]];
    [exists []; split; [now rewrite app_nil_r | constructor]..|].
  cbn zeta in Hcase.
  destruct (dispatch_calls st t1 calls) as (new & Hnew & Hall).
  assert (Hreq : Forall (fun c => has_bits stages (stage_of_call c) = true) new).
  { destruct (select_requested _ _ _ _ _ Hsel) as [Hst| ->].
    - eapply Forall_impl; [exact Hall|]. intros c ->. assumption.
    - rewrite dispatch_done_quiet in Hnew by assumption.
      rewrite <- (app_nil_r calls) in Hnew at 1.
      apply app_inv_head in Hnew as <-. constructor. }
  destruct Hcase as [[-> _]|[[-> _]|(_ & _ & Hrec)]].
  - exists new. now split.
  - exists new. now split.
  - apply IH in Hrec as (new' & -> & Hreq'). rewrite Hnew.
    exists (new ++ new'). split; [symmetry; apply app_assoc|].
    apply Forall_app. split; assumption.
Qed.

(** X6.  Only stages that are asked for are run.  Under the conditions of
    the exit contract and with distinct stage labels, every handler
    call that [rspamd_task_process] makes belongs to a stage that is in
    the request. *)
Theorem process_runs_requested_stages
    (dbit : Z) (task : rspamd_task) (stages : Z)
    (calls : list handler_call) (fuel : nat) :
  RSPAMD_TASK_STAGE_DONE = 2 ^ dbit -> 0 <= dbit <= 30 ->
  NoDup stage_labels ->
  handlers_keep processed_stages ->
  0 <= processed_stages task < 2 * RSPAMD_TASK_STAGE_DONE ->
  has_bits (flags task) RSPAMD_TASK_FLAG_PROCESSING = false ->
  (32 <= fuel)%nat ->
  exists ret task' new,
    rspamd_task_process fuel task stages calls = Ret (ret, task', calls ++ new)
    /\ Forall (fun c => has_bits stages (stage_of_call c) = true) new.
Proof.
  intros HD Hd HND Hkeep Hps Hflag Hfuel.
  destruct (process_exit_32 dbit stages fuel task calls HD Hd Hkeep Hps Hflag Hfuel)
    as (ret & task' & calls' & Hrun & _).
  destruct (process_calls_requested stages HND _ _ _ _ Hrun) as (new & Hnew & Hreq).
  cbn [snd] in Hnew. subst calls'. now exists ret, task', new.
Qed.

Lemma after_stage_flag (m : Z) (t2 : rspamd_task) :
  Z.land RSPAMD_TASK_FLAG_PROCESSING m = 0 ->
  has_bits (flags (after_stage t2)) m = has_bits (flags t2) m.
Proof.
  intros Hm. unfold after_stage. rewrite flags_set_flags.
  rewrite has_bits_clear_other by assumption.
  destruct (RSPAMD_TASK_IS_SKIPPED t2); [now rewrite flags_mark_done | reflexivity].
Qed.

(** For an empty message the [switch] calls neither the classifier nor
    the check for automatic learning. *)
Lemma dispatch_empty (st : Z) (task : rspamd_task) (calls : list handler_call) :
  handlers_keep RSPAMD_TASK_IS_EMPTY ->
  RSPAMD_TASK_IS_EMPTY task = true ->
  exists new,
    snd (dispatch_stage st task calls) = calls ++ new
    /\ Forall (fun c => classifier_call c = false) new.
Proof.
  intros Hkeep Hempty. unfold dispatch_stage.
  rewrite (keep_post_filters _ Hkeep), Hempty. cbn [negb]. rewrite andb_false_r.
  repeat match goal with
  | |- context [match ?x with _ => _ end] => destruct x eqn:?
  end; cbn [fst snd];
  first [ exists []; split; [now rewrite app_nil_r | constructor]
        | eexists [_]; split; [reflexivity|]; repeat constructor ].
Qed.

Lemma process_empty (stages : Z) :
  handlers_keep RSPAMD_TASK_IS_EMPTY ->
  Z.land RSPAMD_TASK_FLAG_PROCESSING RSPAMD_TASK_FLAG_EMPTY = 0 ->
  forall (fuel : nat) (task : rspamd_task) (calls : list handler_call) r,
  RSPAMD_TASK_IS_EMPTY task = true ->
  rspamd_task_process fuel task stages calls = Ret r ->
  exists new,
    snd r = calls ++ new /\ Forall (fun c => classifier_call c = false) new.
Proof.
  intros Hkeep Hbits. induction fuel as [|fuel IH]; intros task calls r Hempty Hrun;
    [discriminate|].
  apply process_cases in Hrun
    as [[-> _]|[[-> _]|(st & t1 & _ & Hsel & Hcase)]];
    [exists []; split; [now rewrite app_nil_r | constructor]..|].
  cbn zeta in Hcase.
  assert (Hempty1 : RSPAMD_TASK_IS_EMPTY t1 = true).
  { destruct (SelectFacts.select_only_bitmap _ _ _ _ _ Hsel) as [ps' ->].
    unfold RSPAMD_TASK_IS_EMPTY in *. autorewrite with task_fields.
    now apply has_bits_lor_l. }
  destruct (dispatch_empty st t1 calls Hkeep Hempty1) as (new & Hnew & Hall).
  destruct Hcase as [[-> _]|[[-> _]|(_ & _ & Hrec)]].
  - exists new. now split.
  - exists new. now split.
  - apply IH in Hrec as (new' & -> & Hall').
    + rewrite Hnew. exists (new ++ new'). split; [symmetry; apply app_assoc|].
      apply Forall_app. split; assumption.
    + unfold RSPAMD_TASK_IS_EMPTY. autorewrite with task_fields.
      rewrite after_stage_flag by assumption.
      fold (RSPAMD_TASK_IS_EMPTY (snd (fst (dispatch_stage st t1 calls)))).
      rewrite (dispatch_keeps RSPAMD_TASK_IS_EMPTY); [assumption..| |].
      * intros t e. unfold RSPAMD_TASK_IS_EMPTY. now rewrite flags_set_err.
      * intros t. unfold RSPAMD_TASK_IS_EMPTY. now rewrite flags_mark_done.
Qed.

(** X7.  An empty message is never classified.  When the empty-message flag
    is set and the handlers leave it (and the bitmap) alone, no call of
    the classifier and no check for automatic learning is among the
    calls of [rspamd_task_process], whatever stages are asked for. *)
Theorem empty_message_not_classified
    (dbit : Z) (task : rspamd_task) (stages : Z)
    (calls : list handler_call) (fuel : nat) :
  RSPAMD_TASK_STAGE_DONE = 2 ^ dbit -> 0 <= dbit <= 30 ->
  Z.land RSPAMD_TASK_FLAG_PROCESSING RSPAMD_TASK_FLAG_EMPTY = 0 ->
  handlers_keep processed_stages ->
  handlers_keep RSPAMD_TASK_IS_EMPTY ->
  0 <= processed_stages task < 2 * RSPAMD_TASK_STAGE_DONE ->
  has_bits (flags task) RSPAMD_TASK_FLAG_PROCESSING = false ->
  RSPAMD_TASK_IS_EMPTY task = true ->
  (32 <= fuel)%nat ->
  exists ret task' new,
    rspamd_task_process fuel task stages calls = Ret (ret, task', calls ++ new)
    /\ Forall (fun c => classifier_call c = false) new.
Proof.
  intros HD Hd Hbits Hkeep Hkeep' Hps Hflag Hempty Hfuel.
  destruct (process_exit_32 dbit stages fuel task calls HD Hd Hkeep Hps Hflag Hfuel)
    as (ret & task' & calls' & Hrun & _).
  destruct (process_empty stages Hkeep' Hbits _ _ _ _ Hempty Hrun)
    as (new & Hnew & Hall).
  cbn [snd] in Hnew. subst calls'. now exists ret, task', new.
Qed.

(** X8.  A skipped task is finished after the stage at hand.  Let the skip
    flag be set and the handlers leave it alone, let the in-progress
    flag be clear at the call (the call is not nested), and let the
    bitmap of the task hold stage bits only, [DONE] being a single bit
    below bit 31.  Then one call of [rspamd_task_process] makes the task
    terminal, with the handlers of at most one stage called, also when
    the stage leaves events of the session pending.  (A nested call
    returns at once and leaves the task as it is.) *)
Theorem skipped_task_finishes
    (dbit : Z) (task : rspamd_task) (stages : Z)
    (calls : list handler_call) (fuel : nat) :
  RSPAMD_TASK_STAGE_DONE = 2 ^ dbit -> 0 <= dbit <= 30 ->
  handlers_keep RSPAMD_TASK_IS_SKIPPED ->
  0 <= processed_stages task < 2 * RSPAMD_TASK_STAGE_DONE ->
  has_bits (flags task) RSPAMD_TASK_FLAG_PROCESSING = false ->
  RSPAMD_TASK_IS_SKIPPED task = true ->
  (0 < fuel)%nat ->
  exists ret task' new st,
    rspamd_task_process fuel task stages calls = Ret (ret, task', calls ++ new)
    /\ RSPAMD_TASK_IS_PROCESSED task' = true
    /\ Forall (fun c => stage_of_call c = st) new.
Proof.
  intros HD Hd Hkeep Hps Hflag Hskip Hfuel.
  assert (HD0 : RSPAMD_TASK_STAGE_DONE <> 0).
  { rewrite HD. pose proof (Z.pow_pos_nonneg 2 dbit). lia. }
  destruct fuel as [|fuel]; [lia|].
  destruct (RSPAMD_TASK_IS_PROCESSED task) eqn:Hproc.
  { exists true, task, [], 0. cbn [rspamd_task_process]. rewrite Hflag, Hproc.
    rewrite app_nil_r. repeat split; auto. }
  destruct (Z.eqb_spec (pre_result_action task) METRIC_ACTION_MAX) as [Hpre|Hpre].
  2:{ exists true, (mark_done task), [], 0. cbn [rspamd_task_process].
      rewrite Hflag, Hproc.
      destruct (Z.eqb_spec (pre_result_action task) METRIC_ACTION_MAX);
        [contradiction|]. cbn [negb]. rewrite app_nil_r.
      repeat split; auto. now apply mark_done_processed. }
  assert (Hbit : Z.testbit (processed_stages task) dbit = false).
  { unfold RSPAMD_TASK_IS_PROCESSED in Hproc. rewrite HD in Hproc.
    now rewrite has_bits_pow2 in Hproc by lia. }
  assert (Hlow : processed_stages task < 2 ^ dbit).
  { apply below_clear_bit; [lia| |assumption].
    rewrite HD in Hps. rewrite Z.pow_add_r, Z.pow_1_r by lia. lia. }
  set (t0 := set_flags task (Z.lor (flags task) RSPAMD_TASK_FLAG_PROCESSING)).
  assert (Hps0 : processed_stages t0 = processed_stages task)
    by apply processed_stages_set_flags.
  destruct (SelectFacts.select_stage_bounds dbit stages HD Hd select_fuel t0)
    as (k & ps' & Hsel & _).
  { rewrite Hps0. lia. }
  { rewrite Hps0. pose proof (SelectFacts.next_bit_nonneg (processed_stages task)).
    unfold select_fuel. lia. }
  set (t1 := set_processed_stages t0 ps') in *.
  rewrite (process_round fuel task stages calls (2 ^ k) t1 Hflag Hproc Hpre Hsel).
  cbn zeta.
  destruct (dispatch_calls (2 ^ k) t1 calls) as (new & Hnew & Hall).
  set (t2 := snd (fst (dispatch_stage (2 ^ k) t1 calls))).
  assert (Hskip2 : RSPAMD_TASK_IS_SKIPPED t2 = true).
  { unfold t2. rewrite (dispatch_keeps RSPAMD_TASK_IS_SKIPPED); [|assumption|..].
    - unfold t1, t0, RSPAMD_TASK_IS_SKIPPED in *. autorewrite with task_fields.
      now apply has_bits_lor_l.
    - intros t e. unfold RSPAMD_TASK_IS_SKIPPED. now rewrite flags_set_err.
    - intros t. unfold RSPAMD_TASK_IS_SKIPPED. now rewrite flags_mark_done. }
  assert (Hproc4 : RSPAMD_TASK_IS_PROCESSED (after_stage t2) = true).
  { unfold after_stage. rewrite Hskip2. unfold RSPAMD_TASK_IS_PROCESSED.
    rewrite processed_stages_set_flags.
    now apply (mark_done_processed t2). }
  rewrite Hproc4, orb_true_r, Hnew.
  eexists _, _, new, (2 ^ k). split; [reflexivity|]. split; [|assumption].
  destruct (negb _); [now apply mark_done_again | assumption].
Qed.

Lemma process_keeps {A : Type} (field : rspamd_task -> A) (stages : Z) :
  handlers_keep field ->
  (forall t v, field (set_flags t v) = field t) ->
  (forall t v, field (set_processed_stages t v) = field t) ->
  (forall t e, field (set_err t e) = field t) ->
  (forall t c, field (set_checkpoint t c) = field t) ->
  forall (fuel : nat) (task : rspamd_task) (calls : list handler_call) r,
  rspamd_task_process fuel task stages calls = Ret r ->
  field (snd (fst r)) = field task.
Proof.
  intros Hkeep Hflags Hstages Herr Hcheck.
  assert (Hdone : forall t, field (mark_done t) = field t)
    by (intros t; apply Hstages).
  assert (Hafter : forall t, field (after_stage t) = field t).
  { intros t. unfold after_stage. rewrite Hflags.
    destruct (RSPAMD_TASK_IS_SKIPPED t); [apply Hdone | reflexivity]. }
  induction fuel as [|fuel IH]; intros task calls r Hrun; [discriminate|].
  apply process_cases in Hrun
    as [[-> _]|[[-> _]|(st & t1 & _ & Hsel & Hcase)]];
    cbn [fst snd]; [reflexivity | apply Hdone |].
  cbn zeta in Hcase.
  assert (H1 : field t1 = field task).
  { destruct (SelectFacts.select_only_bitmap _ _ _ _ _ Hsel) as [ps' ->].
    now rewrite Hstages, Hflags. }
  assert (H4 : field (after_stage (snd (fst (dispatch_stage st t1 calls))))
               = field task)
    by (rewrite Hafter, (dispatch_keeps field); auto).
  destruct Hcase as [[-> _]|[[-> _]|(_ & _ & Hrec)]]; cbn [fst snd].
  - destruct (negb _); [now rewrite Hdone | assumption].
  - assumption.
  - apply IH in Hrec. rewrite Hrec. now rewrite Hcheck, Hstages.
Qed.

(** X9.  What the engine itself writes.  [rspamd_task_process] assigns to
    the flags, the bitmap of completed stages, [err] and the checkpoint
    of the task, and to nothing else: whatever else is read of the task
    ([field]) and is left alone by the handlers is the same at the
    return. *)
Theorem process_frame {A : Type} (field : rspamd_task -> A)
    (dbit : Z) (task : rspamd_task) (stages : Z)
    (calls : list handler_call) (fuel : nat) :
  RSPAMD_TASK_STAGE_DONE = 2 ^ dbit -> 0 <= dbit <= 30 ->
  handlers_keep processed_stages ->
  handlers_keep field ->
  (forall t v, field (set_flags t v) = field t) ->
  (forall t v, field (set_processed_stages t v) = field t) ->
  (forall t e, field (set_err t e) = field t) ->
  (forall t c, field (set_checkpoint t c) = field t) ->
  0 <= processed_stages task < 2 * RSPAMD_TASK_STAGE_DONE ->
  has_bits (flags task) RSPAMD_TASK_FLAG_PROCESSING = false ->
  (32 <= fuel)%nat ->
  exists ret task' calls',
    rspamd_task_process fuel task stages calls = Ret (ret, task', calls')
    /\ field task' = field task.
Proof.
  intros HD Hd Hkeep Hkeep' Hflags Hstages Herr Hcheck Hps Hflag Hfuel.
  destruct (process_exit_32 dbit stages fuel task calls HD Hd Hkeep Hps Hflag Hfuel)
    as (ret & task' & calls' & Hrun & _).
  exists ret, task', calls'. split; [assumption|].
  apply (process_keeps field stages Hkeep' Hflags Hstages Herr Hcheck _ _ _ _ Hrun).
Qed.

(** X10.  With handlers that finish within their call, one call runs the task
    to its end.  Let no event of the session be pending at the call, let
    the handlers leave the session and the bitmap of completed stages
    alone, let the in-progress flag be clear at the call (the call is
    not nested), and let the bitmap hold stage bits only, [DONE] being a
    single bit below bit 31.  Then [rspamd_task_process] returns with
    the task terminal.  (A nested call returns at once and leaves the
    task as it is.) *)
Theorem synchronous_run_completes
    (dbit : Z) (task : rspamd_task) (stages : Z)
    (calls : list handler_call) (fuel : nat) :
  RSPAMD_TASK_STAGE_DONE = 2 ^ dbit -> 0 <= dbit <= 30 ->
  handlers_keep processed_stages ->
  handlers_keep s ->
  0 <= processed_stages task < 2 * RSPAMD_TASK_STAGE_DONE ->
  has_bits (flags task) RSPAMD_TASK_FLAG_PROCESSING = false ->
  rspamd_session_events_pending (s task) = 0 ->
  (32 <= fuel)%nat ->
  exists ret task' calls',
    rspamd_task_process fuel task stages calls = Ret (ret, task', calls')
    /\ RSPAMD_TASK_IS_PROCESSED task' = true.
Proof.
  intros HD Hd Hkeep Hkeep' Hps Hflag Hs Hfuel.
  destruct (process_exit_32 dbit stages fuel task calls HD Hd Hkeep Hps Hflag Hfuel)
    as (ret & task' & calls' & Hrun & _ & Hpost).
  exists ret, task', calls'. split; [assumption|].
  destruct Hpost as [Hterm|(_ & _ & Hpend)]; [assumption|].
  exfalso. apply Hpend.
  rewrite <- Hs. unfold rspamd_session_events_pending.
  apply (process_keeps s stages Hkeep'
           s_set_flags s_set_processed_stages s_set_err s_set_checkpoint
           _ _ _ _ Hrun).
Qed.

(** X11.  A request to learn reaches the learner.  After
    [rspamd_learn_task_spam] on a task with no error, the [case] of a
    LEARN stage calls the learner, and [TRUE] is the value of [ret]
    whatever the learner answers.  The [spam] argument of the call is
    the learn-spam bit of the flags: not zero when [is_spam] is given,
    and otherwise what it was before, since the function sets a flag and
    clears none (the flags being different bits). *)
Theorem learn_request_reaches_learner
    (task : rspamd_task) (is_spam : bool) (classifier : option string)
    (st : Z) (calls : list handler_call) :
  NoDup stage_labels ->
  RSPAMD_TASK_FLAG_LEARN_SPAM <> 0 -> RSPAMD_TASK_FLAG_LEARN_HAM <> 0 ->
  Z.land RSPAMD_TASK_FLAG_LEARN_HAM RSPAMD_TASK_FLAG_LEARN_SPAM = 0 ->
  st = RSPAMD_TASK_STAGE_LEARN \/ st = RSPAMD_TASK_STAGE_LEARN_PRE
    \/ st = RSPAMD_TASK_STAGE_LEARN_POST ->
  err task = None ->
  let t1 := snd (fst (rspamd_learn_task_spam task is_spam classifier)) in
  let spam := Z.land (flags t1) RSPAMD_TASK_FLAG_LEARN_SPAM in
  fst (fst (rspamd_learn_task_spam task is_spam classifier)) = true
  /\ fst (fst (dispatch_stage st t1 calls)) = true
  /\ snd (dispatch_stage st t1 calls) = calls ++ [call_stat_learn st]
  /\ snd (fst (dispatch_stage st t1 calls))
     = (let '(ok, stat_error, task') := rspamd_stat_learn t1 spam st in
        if negb ok then
          mark_done (if negb (has_bits (flags task') RSPAMD_TASK_FLAG_LEARN_AUTO)
                     then set_err task' stat_error else task')
        else task')
  /\ negb (spam =? 0)
     = is_spam || has_bits (flags task) RSPAMD_TASK_FLAG_LEARN_SPAM.
Proof.
  intros HND Hspam Hham Hbits Hst Herr t1 spam.
  assert (Hlearn : has_bits (flags t1)
            (Z.lor RSPAMD_TASK_FLAG_LEARN_SPAM RSPAMD_TASK_FLAG_LEARN_HAM) = true).
  { unfold t1, rspamd_learn_task_spam. cbn [fst snd].
    destruct is_spam; rewrite flags_set_flags; apply has_bits_lor_part;
      [now apply has_bits_self_lor_l | now apply has_bits_self_lor_r]. }
  assert (Herr1 : err t1 = None).
  { unfold t1, rspamd_learn_task_spam. cbn [fst snd].
    destruct is_spam; now rewrite err_set_flags. }
  split; [reflexivity|].
  rewrite (dispatch_learn_stage st t1 calls HND Hst Hlearn Herr1). fold spam.
  destruct (rspamd_stat_learn t1 spam st) as [[ok stat_error] task'].
  split; [now destruct ok|]. split; [now destruct ok|]. split; [now destruct ok|].
  change (negb (spam =? 0)) with (has_bits (flags t1) RSPAMD_TASK_FLAG_LEARN_SPAM).
  unfold t1, rspamd_learn_task_spam. cbn [fst snd].
  destruct is_spam; rewrite flags_set_flags; cbn [orb].
  - now apply has_bits_lor_r.
  - now apply has_bits_lor_other.
Qed.

End ProcessProofs.
End ProcessFacts.

(** ** The message loader *)

Module LoadFacts.
Import Load.

Section LoadProofs.
Context `{task_h} `{loader_env}.

Lemma load_message_inline
    (task : rspamd_task) (http : option rspamd_http_message) (start length : Z) :
  inline_request (with_headers task http) ->
  rspamd_task_load_message task http start length
    = load_inline (with_headers task http) start length.
Proof.
  intros (Hshm & Hfile & Hpath). unfold rspamd_task_load_message.
  now rewrite Hshm, Hfile, Hpath.
Qed.

Lemma has_control_after_window (task : rspamd_task) (start length : Z) :
  has_bits (flags task) RSPAMD_TASK_FLAG_HAS_CONTROL = true ->
  has_bits (flags (with_inline_window task start length))
    RSPAMD_TASK_FLAG_HAS_CONTROL = true.
Proof.
  intros Hc. unfold with_inline_window. destruct (length =? 0);
    autorewrite with task_fields; [now apply has_bits_lor_l | assumption].
Qed.

(** C5, as amended.  An inline load with the has-control-chunk flag set,
    for which the control length [msg.len - message_len], as an unsigned
    number of [w] bits, exceeds [msg.len], and with no error recorded
    before, fails with the protocol error "Invalid length".  By then the
    loader has recorded the whole input as the [msg] window (and set the
    empty-message flag for an input of length 0); the window is not
    advanced, and nothing else of the task is changed. *)
Theorem control_length_check
    (task : rspamd_task) (http : option rspamd_http_message)
    (start length w : Z) :
  inline_request (with_headers task http) ->
  has_bits (flags (with_headers task http)) RSPAMD_TASK_FLAG_HAS_CONTROL = true ->
  0 <= w -> 0 <= length ->
  0 <= message_len (with_headers task http) ->
  length < CInt.wrap w (length - message_len (with_headers task http)) ->
  err (with_headers task http) = None ->
  rspamd_task_load_message task http start length
    = (false,
       set_err (with_inline_window (with_headers task http) start length)
         (Some (protocol_error "Invalid length")),
       [])
  /\ msg (set_err (with_inline_window (with_headers task http) start length)
            (Some (protocol_error "Invalid length")))
     = {| begin := start; len := length |}.
Proof.
  intros Hin Hc Hw Hlen Hmlen Hwrap Herr.
  set (t1 := with_headers task http) in *.
  apply wrapped_difference in Hwrap; [|assumption..].
  split.
  - rewrite load_message_inline by assumption. fold t1. unfold load_inline.
    rewrite msg_set_msg. cbn [len].
    fold (with_inline_window t1 start length).
    rewrite has_control_after_window by assumption.
    assert (Hm : msg (with_inline_window t1 start length)
                 = {| begin := start; len := length |})
      by (unfold with_inline_window; destruct (length =? 0);
          now autorewrite with task_fields).
    assert (Hl : message_len (with_inline_window t1 start length) = message_len t1)
      by (unfold with_inline_window; destruct (length =? 0);
          now autorewrite with task_fields).
    assert (He : err (with_inline_window t1 start length) = None)
      by (unfold with_inline_window; destruct (length =? 0);
          now autorewrite with task_fields).
    rewrite Hm, Hl. cbn [len].
    destruct (Z.ltb_spec length (message_len t1)); [|lia].
    unfold g_set_error. now rewrite He.
  - unfold with_inline_window. destruct (length =? 0);
      now autorewrite with task_fields.
Qed.


(** The bounds checks of the [shm] branch.  When the [shm-offset] or the
    [shm-length] header gives a value above the size of the segment, the
    load fails, the mapping is released, and the task is the one the
    headers left: in particular [err] is not assigned. *)
Lemma shm_out_of_bounds
    (task : rspamd_task) (http : option rspamd_http_message) (start length : Z)
    (tok : string) (fd st_size map : Z) :
  request_headers (with_headers task http) !! "shm" = Some tok ->
  shm_open (header_path tok) = SysOk fd ->
  fstat fd = SysOk st_size ->
  mmap st_size fd = SysOk map ->
  (exists otok,
      request_headers (with_headers task http) !! "shm-offset" = Some otok
      /\ CInt.to_gulong st_size < rspamd_strtoul otok 0)
  \/ (exists ltok,
      request_headers (with_headers task http) !! "shm-length" = Some ltok
      /\ CInt.to_gulong st_size < rspamd_strtoul ltok (CInt.to_gulong st_size)) ->
  rspamd_task_load_message task http start length
    = (false, with_headers task http, [os_close fd; os_munmap map st_size]).
Proof.
  intros Hshm Hopen Hstat Hmap Hbad.
  unfold rspamd_task_load_message. rewrite Hshm. unfold load_shm.
  rewrite Hopen, Hstat, Hmap.
  destruct (request_headers (with_headers task http) !! "shm-offset") as [otok|] eqn:Hoff.
  - destruct (Z.ltb_spec (CInt.to_gulong st_size) (rspamd_strtoul otok 0)) as [|Hok];
      [reflexivity|].
    destruct Hbad as [(otok' & [= <-] & Hlt)|(ltok & -> & Hlt)]; [lia|].
    now apply Z.ltb_lt in Hlt as ->.
  - destruct Hbad as [(otok' & [=] & _)|(ltok & -> & Hlt)].
    now apply Z.ltb_lt in Hlt as ->.
Qed.

Lemma err_g_set_error (task : rspamd_task) (e e' : GError) :
  err task = Some e -> g_set_error task e' = task.
Proof. intros He. unfold g_set_error. now rewrite He. Qed.

Lemma g_set_error_first (task : rspamd_task) (e : GError) :
  err task = None -> err (g_set_error task e) = Some e.
Proof. intros He. unfold g_set_error. rewrite He. apply err_set_err. Qed.

Lemma task_pool_g_set_error (task : rspamd_task) (e : GError) :
  task_pool (g_set_error task e) = task_pool task.
Proof. unfold g_set_error. destruct (err task); [reflexivity | apply task_pool_set_err]. Qed.

Lemma err_map_message (task : rspamd_task) (map offset size st_size : Z) :
  err (map_message task map offset size st_size) = err task.
Proof.
  unfold map_message, rspamd_mempool_add_destructor.
  now autorewrite with task_fields.
Qed.

Lemma msg_map_message (task : rspamd_task) (map offset size st_size : Z) :
  msg (map_message task map offset size st_size)
  = {| begin := map + offset; len := size |}.
Proof.
  unfold map_message, rspamd_mempool_add_destructor.
  now autorewrite with task_fields.
Qed.

Lemma destructors_map_message (task : rspamd_task) (map offset size st_size : Z) :
  destructors (task_pool (map_message task map offset size st_size))
  = rspamd_task_unmapper map st_size :: destructors (task_pool task).
Proof.
  unfold map_message, rspamd_mempool_add_destructor.
  now autorewrite with task_fields.
Qed.

(** X12.  Every descriptor is closed.  A descriptor that the loader obtains,
    from [shm_open] or from [open], is closed once before the loader
    returns, on the paths that fail as on those that succeed; and the
    loader closes nothing else. *)
Theorem descriptor_closed
    (task : rspamd_task) (http : option rspamd_http_message) (start length : Z)
    (fd : Z) :
  opens_descriptor (with_headers task http) fd ->
  List.filter is_close (snd (rspamd_task_load_message task http start length))
  = [os_close fd].
Proof.
  unfold opens_descriptor, file_header, rspamd_task_load_message.
  set (t1 := with_headers task http).
  destruct (request_headers t1 !! "shm") as [tok|].
  - intros Hopen. unfold load_shm. rewrite Hopen.
    destruct (fstat fd) as [st_size|]; [|reflexivity].
    destruct (mmap st_size fd) as [map|]; [|reflexivity].
    repeat match goal with
    | |- context [match ?x with _ => _ end] => destruct x
    end; reflexivity.
  - destruct (match request_headers t1 !! "file" with
              | Some tok => Some tok
              | None => request_headers t1 !! "path"
              end) as [tok|]; [|contradiction].
    intros [[st_size Hstat] Hopen]. unfold load_file. rewrite Hstat, Hopen.
    destruct (mmap st_size fd); reflexivity.
Qed.

(** X13.  Every mapping is released or handed to the pool.  When [mmap]
    succeeds, either the load succeeds, and the pool of the task has
    received the destructor that unmaps the whole mapping, which the
    loader has not unmapped itself; or the load fails, the pool is as it
    was, and the loader has unmapped the mapping, once. *)
Theorem mapping_released_or_owned
    (task : rspamd_task) (http : option rspamd_http_message) (start length : Z)
    (map st_size : Z) :
  maps_segment (with_headers task http) map st_size ->
  match rspamd_task_load_message task http start length with
  | (true, task', events) =>
      destructors (task_pool task')
      = rspamd_task_unmapper map st_size
          :: destructors (task_pool (with_headers task http))
      /\ List.filter is_munmap events = []
  | (false, task', events) =>
      destructors (task_pool task')
      = destructors (task_pool (with_headers task http))
      /\ List.filter is_munmap events = [os_munmap map st_size]
  end.
Proof.
  unfold maps_segment, file_header, rspamd_task_load_message.
  set (t1 := with_headers task http).
  destruct (request_headers t1 !! "shm") as [tok|].
  - intros (fd & Hopen & Hstat & Hmap). unfold load_shm.
    rewrite Hopen, Hstat, Hmap.
    repeat (cbn zeta;
            match goal with
            | |- context [request_headers t1 !! ?k] =>
                destruct (request_headers t1 !! k)
            | |- context [?a <? ?b] => destruct (a <? b)
            end);
    (split; [|reflexivity]);
    first [ apply destructors_map_message | reflexivity ].
  - destruct (match request_headers t1 !! "file" with
              | Some tok => Some tok
              | None => request_headers t1 !! "path"
              end) as [tok|]; [|contradiction].
    intros (fd & Hstat & Hopen & Hmap). unfold load_file.
    rewrite Hstat, Hopen, Hmap. split; [apply destructors_map_message | reflexivity].
Qed.

(** X14.  The first error stays.  A load of a task that already holds an
    error leaves that error in [err], on every path: what the loader
    would report is dropped by [g_set_error].  (The control handler of
    the protocol layer is taken to leave [err] alone.) *)
Theorem load_keeps_first_error
    (task : rspamd_task) (http : option rspamd_http_message) (start length : Z)
    (e : GError) :
  (forall t obj, err (rspamd_protocol_handle_control t obj) = err t) ->
  err (with_headers task http) = Some e ->
  err (snd (fst (rspamd_task_load_message task http start length))) = Some e.
Proof.
  intros Hcontrol Herr. unfold rspamd_task_load_message.
  set (t1 := with_headers task http) in *.
  destruct (request_headers t1 !! "shm") as [tok|].
  - unfold load_shm.
    repeat match goal with
    | |- context [match ?x with _ => _ end] => destruct x
    end; cbn [fst snd];
    rewrite ?err_map_message, ?(err_g_set_error t1 e) by assumption; assumption.
  - destruct (match request_headers t1 !! "file" with
              | Some tok => Some tok
              | None => request_headers t1 !! "path"
              end) as [tok|].
    + unfold load_file.
      repeat match goal with
      | |- context [match ?x with _ => _ end] => destruct x
      end; cbn [fst snd];
      rewrite ?err_map_message, ?(err_g_set_error t1 e) by assumption; assumption.
    + unfold load_inline. rewrite msg_set_msg. cbn [len].
      fold (with_inline_window t1 start length).
      assert (He : err (with_inline_window t1 start length) = Some e)
        by (unfold with_inline_window; destruct (length =? 0);
            now autorewrite with task_fields).
      repeat match goal with
      | |- context [match ?x with _ => _ end] => destruct x
      end; cbn [fst snd];
      rewrite ?err_set_msg, ?Hcontrol, ?(err_g_set_error _ e) by assumption;
      assumption.
Qed.

(** X15.  The window of a shared-memory message.  The offset and the length
    that the [shm-offset] and [shm-length] headers give are each
    compared with the size of the segment, and their sum is not: when
    each is within the size the load succeeds with the window
    [map + offset, size], so that a window with [st_size < offset +
    size] ends past the end of the mapping.  Without a [shm-length]
    header, [size] is the size of the whole segment, whatever the
    offset. *)
Theorem shm_window_unchecked_sum
    (task : rspamd_task) (http : option rspamd_http_message) (start length : Z)
    (tok : string) (fd st_size map : Z) :
  request_headers (with_headers task http) !! "shm" = Some tok ->
  shm_open (header_path tok) = SysOk fd ->
  fstat fd = SysOk st_size ->
  mmap st_size fd = SysOk map ->
  0 <= st_size < 2 ^ 64 ->
  let offset :=
    match request_headers (with_headers task http) !! "shm-offset" with
    | Some otok => rspamd_strtoul otok 0
    | None => 0
    end in
  let size :=
    match request_headers (with_headers task http) !! "shm-length" with
    | Some ltok => rspamd_strtoul ltok st_size
    | None => st_size
    end in
  offset <= st_size -> size <= st_size ->
  exists task',
    rspamd_task_load_message task http start length = (true, task', [os_close fd])
    /\ msg task' = {| begin := map + offset; len := size |}
    /\ (st_size < offset + size ->
        map + st_size < begin (msg task') + len (msg task')).
Proof.
  intros Hshm Hopen Hstat Hmap Hsize offset size Hoff Hlen.
  assert (Hwrap : CInt.to_gulong st_size = st_size)
    by (apply CInt_wrap_small; unfold CInt.gsize_bits; lia).
  unfold rspamd_task_load_message. rewrite Hshm. unfold load_shm.
  rewrite Hopen, Hstat, Hmap, Hwrap. subst offset size.
  set (t1 := with_headers task http) in *.
  destruct (request_headers t1 !! "shm-offset") as [otok|];
    destruct (request_headers t1 !! "shm-length") as [ltok|];
    repeat match goal with
    | |- context [?a <? ?b] => destruct (Z.ltb_spec a b); [lia|]
    end;
    (eexists; split; [reflexivity|]; rewrite msg_map_message; cbn [begin len];
     split; [reflexivity | lia]).
Qed.

(** X16.  A failure without an error.  When the loader fails on a task that
    held no error, it leaves a protocol error in [err], except at the
    two bounds checks of the [shm] branch, where it returns after it has
    unmapped the segment, with the task as the headers left it. *)
Theorem load_failure_reports_error
    (task : rspamd_task) (http : option rspamd_http_message) (start length : Z) :
  err (with_headers task http) = None ->
  fst (fst (rspamd_task_load_message task http start length)) = false ->
  (exists message,
      err (snd (fst (rspamd_task_load_message task http start length)))
      = Some (protocol_error message))
  \/ (exists fd map st_size,
        rspamd_task_load_message task http start length
        = (false, with_headers task http, [os_close fd; os_munmap map st_size])).
Proof.
  intros Herr. unfold rspamd_task_load_message.
  set (t1 := with_headers task http) in *.
  destruct (request_headers t1 !! "shm") as [tok|].
  - unfold load_shm.
    repeat match goal with
    | |- context [match ?x with _ => _ end] => destruct x
    end; cbn [fst snd]; intros Hfail; try discriminate Hfail;
    first [ left; eexists; now apply g_set_error_first
          | right; do 3 eexists; reflexivity ].
  - destruct (match request_headers t1 !! "file" with
              | Some tok => Some tok
              | None => request_headers t1 !! "path"
              end) as [tok|].
    + unfold load_file.
      repeat match goal with
      | |- context [match ?x with _ => _ end] => destruct x
      end; cbn [fst snd]; intros Hfail; try discriminate Hfail;
      left; eexists; now apply g_set_error_first.
    + unfold load_inline. rewrite msg_set_msg. cbn [len].
      fold (with_inline_window t1 start length).
      assert (He : err (with_inline_window t1 start length) = None)
        by (unfold with_inline_window; destruct (length =? 0);
            now autorewrite with task_fields).
      repeat match goal with
      | |- context [match ?x with _ => _ end] => destruct x
      end; cbn [fst snd]; intros Hfail; try discriminate Hfail;
      left; eexists; now apply g_set_error_first.
Qed.

(** X17.  A new task loads its input.  On a task as [rspamd_task_new] returns
    it, with no HTTP message (the call of the [message] command of
    [rspamadm lua]), the load succeeds for every input: the whole input
    is the message, no error is recorded and no system call is made.
    (The control flag is taken to be a bit that the initial flags and
    the empty-message flag do not share.) *)
Theorem new_task_loads_input
    (cfg : rspamd_config) (ticks virtual_ticks : float) (start length : Z) :
  has_bits (Z.lor RSPAMD_TASK_FLAG_PASS_ALL
              (Z.lor RSPAMD_TASK_FLAG_MIME RSPAMD_TASK_FLAG_JSON))
    RSPAMD_TASK_FLAG_HAS_CONTROL = false ->
  Z.land RSPAMD_TASK_FLAG_EMPTY RSPAMD_TASK_FLAG_HAS_CONTROL = 0 ->
  exists task',
    rspamd_task_load_message (rspamd_task_new cfg ticks virtual_ticks) None
      start length
    = (true, task', [])
    /\ task' = with_inline_window (rspamd_task_new cfg ticks virtual_ticks)
                 start length
    /\ msg task' = {| begin := start; len := length |}
    /\ err task' = None.
Proof.
  intros Hinit Hempty.
  set (task := rspamd_task_new cfg ticks virtual_ticks).
  assert (Hc : has_bits (flags task) RSPAMD_TASK_FLAG_HAS_CONTROL = false).
  { unfold task, rspamd_task_new. cbn [flags].
    destruct (check_all_filters cfg); [assumption|].
    rewrite Z.lor_0_l.
    destruct (has_bits (Z.lor RSPAMD_TASK_FLAG_MIME RSPAMD_TASK_FLAG_JSON)
                RSPAMD_TASK_FLAG_HAS_CONTROL) eqn:Hb; [|reflexivity].
    apply (has_bits_lor_part RSPAMD_TASK_FLAG_PASS_ALL) in Hb. congruence. }
  exists (with_inline_window task start length).
  rewrite load_message_inline by (repeat split). cbn [with_headers].
  unfold load_inline. rewrite msg_set_msg. cbn [len].
  fold (with_inline_window task start length).
  assert (Hc' : has_bits (flags (with_inline_window task start length))
                  RSPAMD_TASK_FLAG_HAS_CONTROL = false).
  { unfold with_inline_window. destruct (length =? 0);
      autorewrite with task_fields; [|assumption].
    now rewrite has_bits_lor_other. }
  rewrite Hc'. split; [reflexivity|]. split; [reflexivity|].
  unfold with_inline_window. destruct (length =? 0);
    autorewrite with task_fields; auto.
Qed.

End LoadProofs.
End LoadFacts.

(** ** The principal recipient *)

Module RecipientFacts.
Import Recipient.

Section RecipientProofs.
Context `{str_util}.

(** With a recipient in the envelope, the first one is the principal
    recipient, in lower case, and is cached. *)
Lemma principal_recipient_envelope
    (task : rspamd_task) (a : rspamd_email_address)
    (rest : list rspamd_email_address) (str : string) :
  rspamd_mempool_get_variable task "recipient" = None ->
  deliver_to task = None ->
  rcpt_envelope task = Some (a :: rest) ->
  addr a = Some str ->
  rspamd_task_get_principal_recipient task
    = Ret (Some (rspamd_str_lc str),
           rspamd_mempool_set_variable task "recipient" (rspamd_str_lc str)).
Proof.
  intros Hvar Hto Hrcpt Haddr. unfold rspamd_task_get_principal_recipient.
  rewrite Hvar, Hto, Hrcpt.
  change (g_ptr_array_index (a :: rest) 0) with (Ret a). cbn [obind].
  rewrite Haddr.
  unfold rspamd_task_cache_principal_recipient, Load.rspamd_strlcpy, addr_len.
  rewrite Haddr. replace (Z.of_nat (String.length str) + 1 - 1)
    with (Z.of_nat (String.length str)) by lia.
  rewrite Nat2Z.id.
  assert (Hsub : forall s0 : string, substring 0 (String.length s0) s0 = s0)
    by (induction s0 as [|c s0 IH]; cbn; [reflexivity | now rewrite IH]).
  now rewrite Hsub.
Qed.

(** With [rcpt_envelope] present and empty, element 0 is read all the
    same: the read is outside the array, whatever [rcpt_mime] holds. *)
Lemma principal_recipient_empty_envelope (task : rspamd_task) :
  rspamd_mempool_get_variable task "recipient" = None ->
  deliver_to task = None ->
  rcpt_envelope task = Some [] ->
  rspamd_task_get_principal_recipient task = Fault OutOfBounds.
Proof.
  intros Hvar Hto Hrcpt. unfold rspamd_task_get_principal_recipient.
  now rewrite Hvar, Hto, Hrcpt.
Qed.

Lemma get_set_variable (task : rspamd_task) (k v : string) :
  rspamd_mempool_get_variable (rspamd_mempool_set_variable task k v) k = Some v.
Proof.
  unfold rspamd_mempool_get_variable, rspamd_mempool_set_variable.
  rewrite task_pool_set_task_pool. cbn [variables]. apply lookup_insert_eq.
Qed.

Lemma cache_principal_recipient_cached
    (task : rspamd_task) (rcpt : option string) (length : Z)
    (res : option string) (task' : rspamd_task) :
  rspamd_task_cache_principal_recipient task rcpt length = (res, task') ->
  match res with
  | Some r => rspamd_mempool_get_variable task' "recipient" = Some r
  | None => task' = task
  end.
Proof.
  unfold rspamd_task_cache_principal_recipient. destruct rcpt as [rcpt|].
  - intros [= <- <-]. apply get_set_variable.
  - now intros [= <- <-].
Qed.

(** X18.  The principal recipient is cached.  When
    [rspamd_task_get_principal_recipient] answers a recipient, the pool
    of the task holds it under the name [recipient], and the next call
    answers the same recipient and changes nothing; when it answers
    [NULL], it has changed nothing. *)
Theorem principal_recipient_cached
    (task : rspamd_task) (res : option string) (task' : rspamd_task) :
  rspamd_task_get_principal_recipient task = Ret (res, task') ->
  match res with
  | Some r =>
      rspamd_mempool_get_variable task' "recipient" = Some r
      /\ rspamd_task_get_principal_recipient task' = Ret (Some r, task')
  | None => task' = task
  end.
Proof.
  intros Hrun.
  assert (Hcached : match res with
                    | Some r => rspamd_mempool_get_variable task' "recipient" = Some r
                    | None => task' = task
                    end).
  { unfold rspamd_task_get_principal_recipient in Hrun.
    destruct (rspamd_mempool_get_variable task "recipient") as [val|] eqn:Hvar.
    { injection Hrun as <- <-. assumption. }
    destruct (deliver_to task) as [to|].
    { apply Ret_inj in Hrun. now apply cache_principal_recipient_cached in Hrun. }
    assert (Hmime : forall res task',
              principal_mime_recipient task = (res, task') ->
              match res with
              | Some r => rspamd_mempool_get_variable task' "recipient" = Some r
              | None => task' = task
              end).
    { intros res0 task0. unfold principal_mime_recipient.
      destruct (match rcpt_mime task with
                | Some ialist => internet_address_list_get_address ialist 0
                | None => None
                end) as [[val|]|].
      - apply cache_principal_recipient_cached.
      - now intros [= <- <-].
      - now intros [= <- <-]. }
    destruct (rcpt_envelope task) as [array|].
    - destruct (g_ptr_array_index array 0) as [a|]; [|discriminate].
      cbn [obind] in Hrun. destruct (addr a) as [str|].
      + apply Ret_inj in Hrun. now apply cache_principal_recipient_cached in Hrun.
      + apply Ret_inj in Hrun. now apply Hmime.
    - apply Ret_inj in Hrun. now apply Hmime. }
  destruct res as [r|]; [|assumption].
  split; [assumption|].
  unfold rspamd_task_get_principal_recipient. now rewrite Hcached.
Qed.

End RecipientProofs.
End RecipientFacts.

(** ** The log formatter *)

Module LogFacts.
Import Log.

Section SortProofs.
Context {A : Type} (compare_func : A -> A -> outcome Z).

Local Abbreviation precedes := (Log.precedes compare_func).
Local Abbreviation strict_total_on := (Log.strict_total_on compare_func).
Local Abbreviation cmp_decides := (Log.cmp_decides compare_func).
Local Abbreviation cmp_antisym := (Log.cmp_antisym compare_func).
Local Abbreviation cmp_trans := (Log.cmp_trans compare_func).

Lemma precedes_asym (l : list A) (x y : A) :
  strict_total_on l -> x ∈ l -> y ∈ l -> precedes x y -> precedes y x -> False.
Proof.
  intros Hord Hx Hy (z & Hz & Hneg) (z' & Hz' & Hneg').
  pose proof (cmp_antisym l Hord x y z z' Hx Hy Hz Hz'). lia.
Qed.

Lemma merge_nil_l (b2 : list A) : merge compare_func [] b2 = Ret b2.
Proof. now destruct b2. Qed.

Lemma merge_nil_r (b1 : list A) : merge compare_func b1 [] = Ret b1.
Proof. now destruct b1. Qed.

Lemma merge_cons (x : A) (b1 : list A) (y : A) (b2 : list A) :
  merge compare_func (x :: b1) (y :: b2)
  = do c <- compare_func x y;
    if c <=? 0 then do rest <- merge compare_func b1 (y :: b2); Ret (x :: rest)
    else do rest <- merge compare_func (x :: b1) b2; Ret (y :: rest).
Proof. reflexivity. Qed.

Lemma elem_of_take_list (n : nat) (b : list A) (x : A) : x ∈ take n b -> x ∈ b.
Proof. intros Hx. rewrite <- (take_drop n b). apply elem_of_app. now left. Qed.

Lemma elem_of_drop_list (n : nat) (b : list A) (x : A) : x ∈ drop n b -> x ∈ b.
Proof. intros Hx. rewrite <- (take_drop n b). apply elem_of_app. now right. Qed.

Lemma half_length (b : list A) :
  (1 < length b)%nat -> (0 < length b / 2 < length b)%nat.
Proof.
  intros Hb. split.
  - apply Nat.div_str_pos. lia.
  - apply Nat.div_lt; lia.
Qed.

(** Under a strict total order the merge of two sorted runs with no
    element in common is sorted. *)
Lemma merge_sorted (l : list A) :
  strict_total_on l ->
  forall b1 b2,
  (forall x, x ∈ b1 -> x ∈ l) -> (forall y, y ∈ b2 -> y ∈ l) ->
  (forall x y, x ∈ b1 -> y ∈ b2 -> x <> y) ->
  StronglySorted precedes b1 -> StronglySorted precedes b2 ->
  exists out,
    merge compare_func b1 b2 = Ret out
    /\ out ≡ₚ b1 ++ b2
    /\ StronglySorted precedes out.
Proof.
  intros Hord. induction b1 as [|x b1 IH1]; intros b2 Hin1 Hin2 Hne Hs1 Hs2.
  { exists b2. rewrite merge_nil_l. split; [reflexivity|]. split; [reflexivity|assumption]. }
  induction b2 as [|y b2 IH2].
  { exists (x :: b1). rewrite merge_nil_r, app_nil_r.
    split; [reflexivity|]. split; [reflexivity|assumption]. }
  assert (Hx : x ∈ l) by (apply Hin1; left).
  assert (Hy : y ∈ l) by (apply Hin2; left).
  assert (Hxy : x <> y) by (apply Hne; left).
  pose proof Hs1 as Hs1'. pose proof Hs2 as Hs2'.
  apply StronglySorted_inv in Hs1' as [Hs1t Hall1].
  apply StronglySorted_inv in Hs2' as [Hs2t Hall2].
  rewrite Forall_forall in Hall1, Hall2.
  destruct (cmp_decides l Hord x y Hx Hy Hxy) as (z & Hz & Hz0).
  rewrite merge_cons, Hz. cbn [obind].
  destruct (Z.leb_spec z 0) as [Hle|Hgt].
  - assert (Hprec : precedes x y) by (exists z; split; [assumption|lia]).
    destruct (IH1 (y :: b2)) as (out & Hrun & Hperm & Hsorted); try assumption.
    { intros w Hw. apply Hin1. now right. }
    { intros a b Ha Hb. apply Hne; [now right | assumption]. }
    rewrite Hrun. cbn [obind]. exists (x :: out).
    split; [reflexivity|]. split; [now rewrite Hperm|].
    constructor; [assumption|]. rewrite Forall_forall. intros w Hw.
    rewrite Hperm in Hw. apply elem_of_app in Hw as [Hw|Hw]; [now apply Hall1|].
    apply elem_of_cons in Hw as [->|Hw]; [assumption|].
    apply (cmp_trans l Hord x y w); auto. apply Hin2. now right.
  - destruct (cmp_decides l Hord y x Hy Hx) as (z' & Hz' & _); [congruence|].
    assert (Hprec : precedes y x).
    { exists z'. split; [assumption|].
      apply (cmp_antisym l Hord y x z' z Hy Hx Hz' Hz). lia. }
    destruct IH2 as (out & Hrun & Hperm & Hsorted); try assumption.
    { intros w Hw. apply Hin2. now right. }
    { intros a b Ha Hb. apply Hne; [assumption | now right]. }
    rewrite Hrun. cbn [obind]. exists (y :: out).
    split; [reflexivity|]. split.
    { rewrite Hperm. apply (Permutation_middle (x :: b1) b2 y). }
    constructor; [assumption|]. rewrite Forall_forall. intros w Hw.
    rewrite Hperm in Hw. apply elem_of_app in Hw as [Hw|Hw]; [|now apply Hall2].
    apply elem_of_cons in Hw as [->|Hw]; [assumption|].
    apply (cmp_trans l Hord y x w); auto. apply Hin1. now right.
Qed.

Lemma msort_sorted (l : list A) :
  strict_total_on l ->
  forall depth b,
  (length b < depth)%nat -> NoDup b -> (forall y, y ∈ b -> y ∈ l) ->
  exists sorted,
    msort_with_tmp compare_func depth b = Ret sorted
    /\ sorted ≡ₚ b
    /\ StronglySorted precedes sorted.
Proof.
  intros Hord. induction depth as [|depth IH]; intros b Hlen Hnodup Hin; [lia|].
  cbn [msort_with_tmp]. destruct (Nat.leb_spec (length b) 1) as [Hsmall|Hbig].
  { exists b. split; [reflexivity|]. split; [reflexivity|].
    destruct b as [|x [|y b]];
      [constructor | repeat constructor | cbn [length] in Hsmall; lia]. }
  cbn zeta. set (n1 := (length b / 2)%nat).
  pose proof (half_length b Hbig) as Hn1. fold n1 in Hn1.
  rewrite <- (take_drop n1 b) in Hnodup.
  apply NoDup_app in Hnodup as (Hnd1 & Hdisj & Hnd2).
  destruct (IH (take n1 b)) as (o1 & Hr1 & Hp1 & Hs1); [|assumption| |].
  { rewrite length_take. lia. }
  { intros y Hy. apply Hin. now apply elem_of_take_list in Hy. }
  destruct (IH (drop n1 b)) as (o2 & Hr2 & Hp2 & Hs2); [|assumption| |].
  { rewrite length_drop. lia. }
  { intros y Hy. apply Hin. now apply elem_of_drop_list in Hy. }
  rewrite Hr1, Hr2. cbn [obind].
  destruct (merge_sorted l Hord o1 o2) as (out & Hrun & Hperm & Hsorted);
    try assumption.
  { intros x Hx. rewrite Hp1 in Hx. apply Hin. now apply elem_of_take_list in Hx. }
  { intros y Hy. rewrite Hp2 in Hy. apply Hin. now apply elem_of_drop_list in Hy. }
  { intros x y Hx Hy ->. rewrite Hp1 in Hx. rewrite Hp2 in Hy.
    now apply (Hdisj y). }
  exists out. split; [assumption|]. split; [|assumption].
  now rewrite Hperm, Hp1, Hp2, take_drop.
Qed.

Lemma sort_sorted (l : list A) :
  strict_total_on l ->
  forall array, NoDup array -> (forall y, y ∈ array -> y ∈ l) ->
  exists sorted,
    g_ptr_array_sort compare_func array = Ret sorted
    /\ sorted ≡ₚ array
    /\ StronglySorted precedes sorted.
Proof.
  intros Hord array Hnodup Hin. unfold g_ptr_array_sort.
  apply (msort_sorted l Hord); [lia|assumption|assumption].
Qed.

Lemma sorted_unique (l : list A) :
  strict_total_on l ->
  forall s1 s2, (forall y, y ∈ s1 -> y ∈ l) ->
  StronglySorted precedes s1 -> StronglySorted precedes s2 ->
  s1 ≡ₚ s2 -> s1 = s2.
Proof.
  intros Hord. induction s1 as [|a t1 IH]; intros s2 Hin H1 H2 Hperm.
  - now apply Permutation_nil_l in Hperm.
  - destruct s2 as [|b t2]; [now apply Permutation_nil_r in Hperm|].
    apply StronglySorted_inv in H1 as [H1 Ha].
    apply StronglySorted_inv in H2 as [H2 Hb].
    rewrite Forall_forall in Ha, Hb.
    assert (Hab : a = b).
    { assert (Ha2 : a ∈ b :: t2) by (rewrite <- Hperm; left).
      assert (Hb1 : b ∈ a :: t1) by (rewrite Hperm; left).
      apply elem_of_cons in Ha2 as [?|Ha2]; [assumption|].
      apply elem_of_cons in Hb1 as [?|Hb1]; [congruence|].
      exfalso. apply (precedes_asym l a b Hord); auto.
      - apply Hin. now left.
      - apply Hin. now right. }
    subst b. f_equal. apply IH; try assumption.
    + intros y Hy. apply Hin. now right.
    + now apply Permutation_cons_inv in Hperm.
Qed.

(** The sorted array does not depend on the order of the input. *)
Lemma sort_permutation (l l' : list A) :
  strict_total_on l -> NoDup l -> l ≡ₚ l' ->
  exists sorted,
    g_ptr_array_sort compare_func l = Ret sorted
    /\ g_ptr_array_sort compare_func l' = Ret sorted
    /\ sorted ≡ₚ l
    /\ StronglySorted precedes sorted.
Proof.
  intros Hord Hnodup Hperm.
  destruct (sort_sorted l Hord l) as (s1 & Hrun1 & Hperm1 & Hsorted1); auto.
  destruct (sort_sorted l Hord l') as (s2 & Hrun2 & Hperm2 & Hsorted2).
  - now rewrite <- Hperm.
  - intros y Hy. now rewrite Hperm.
  - exists s1. repeat split; try assumption.
    rewrite Hrun2. f_equal. symmetry.
    apply (sorted_unique l Hord); try assumption.
    + intros y Hy. now rewrite <- Hperm1.
    + now rewrite Hperm1, Hperm2.
Qed.

(** Where the comparator answers, the sort returns a permutation of the
    array, whatever the answers are. *)
Lemma merge_permutation : forall b1 b2,
  (forall x y, x ∈ b1 -> y ∈ b2 -> exists z, compare_func x y = Ret z) ->
  exists out, merge compare_func b1 b2 = Ret out /\ out ≡ₚ b1 ++ b2.
Proof.
  induction b1 as [|x b1 IH1]; intros b2 Hcmp.
  { exists b2. rewrite merge_nil_l. split; reflexivity. }
  induction b2 as [|y b2 IH2].
  { exists (x :: b1). rewrite merge_nil_r, app_nil_r. split; reflexivity. }
  destruct (Hcmp x y) as [z Hz]; [left|left|].
  rewrite merge_cons, Hz. cbn [obind]. destruct (z <=? 0).
  - destruct (IH1 (y :: b2)) as (out & Hrun & Hperm).
    { intros a b Ha Hb. apply Hcmp; [now right | assumption]. }
    rewrite Hrun. cbn [obind]. exists (x :: out).
    split; [reflexivity | now rewrite Hperm].
  - destruct IH2 as (out & Hrun & Hperm).
    { intros a b Ha Hb. apply Hcmp; [assumption | now right]. }
    rewrite Hrun. cbn [obind]. exists (y :: out). split; [reflexivity|].
    rewrite Hperm. apply (Permutation_middle (x :: b1) b2 y).
Qed.

Lemma msort_permutation : forall depth b,
  (length b < depth)%nat ->
  (forall x y, x ∈ b -> y ∈ b -> exists z, compare_func x y = Ret z) ->
  exists out, msort_with_tmp compare_func depth b = Ret out /\ out ≡ₚ b.
Proof.
  induction depth as [|depth IH]; intros b Hlen Hcmp; [lia|].
  cbn [msort_with_tmp]. destruct (Nat.leb_spec (length b) 1) as [Hsmall|Hbig].
  { exists b. split; reflexivity. }
  cbn zeta. set (n1 := (length b / 2)%nat).
  pose proof (half_length b Hbig) as Hn1. fold n1 in Hn1.
  destruct (IH (take n1 b)) as (o1 & Hr1 & Hp1).
  { rewrite length_take. lia. }
  { intros x y Hx Hy. apply Hcmp; eapply elem_of_take_list; eassumption. }
  destruct (IH (drop n1 b)) as (o2 & Hr2 & Hp2).
  { rewrite length_drop. lia. }
  { intros x y Hx Hy. apply Hcmp; eapply elem_of_drop_list; eassumption. }
  rewrite Hr1, Hr2. cbn [obind].
  destruct (merge_permutation o1 o2) as (out & Hrun & Hperm).
  { intros x y Hx Hy. rewrite Hp1 in Hx. rewrite Hp2 in Hy.
    apply Hcmp; [eapply elem_of_take_list | eapply elem_of_drop_list]; eassumption. }
  exists out. split; [assumption|]. now rewrite Hperm, Hp1, Hp2, take_drop.
Qed.

Lemma sort_is_permutation : forall array,
  (forall x y, x ∈ array -> y ∈ array -> exists z, compare_func x y = Ret z) ->
  exists sorted,
    g_ptr_array_sort compare_func array = Ret sorted /\ sorted ≡ₚ array.
Proof.
  intros array Hcmp. unfold g_ptr_array_sort.
  apply msort_permutation; [lia|assumption].
Qed.

End SortProofs.

Lemma StronglySorted_weaken {A : Type} (R R' : A -> A -> Prop) (l : list A) :
  (forall x y, x ∈ l -> y ∈ l -> R x y -> R' x y) ->
  StronglySorted R l -> StronglySorted R' l.
Proof.
  induction l as [|a l IH]; intros Himp Hs; [constructor|].
  apply StronglySorted_inv in Hs as [Hs Ha]. constructor.
  - apply IH; [|assumption]. intros x y Hx Hy. apply Himp; now right.
  - rewrite Forall_forall in Ha |- *. intros y Hy.
    apply Himp; [now left | now right | auto].
Qed.

Lemma strlen_append (a b : string) : strlen (a +:+ b) = strlen a + strlen b.
Proof.
  unfold strlen. induction a as [|c a IH]; [reflexivity|].
  change (String c a +:+ b) with (String c (a +:+ b)).
  cbn [String.length]. lia.
Qed.

Lemma strlen_pos (a : string) : a <> EmptyString -> 0 < strlen a.
Proof. destruct a; [congruence|]. unfold strlen. cbn [String.length]. lia. Qed.

Lemma g_ptr_array_index_middle {A : Type} (before : list A) (x : A) (after : list A) :
  g_ptr_array_index (before ++ x :: after) (Z.of_nat (length before)) = Ret x.
Proof.
  unfold g_ptr_array_index. destruct (Z.ltb_spec (Z.of_nat (length before)) 0); [lia|].
  rewrite Nat2Z.id, nth_error_app2 by lia. now rewrite Nat.sub_diag.
Qed.

(** The rounds of the loop below [max_log_elts] that are not the last
    of the list: each writes its address and a comma. *)
Lemma write_addr_list_entries (lim : Z) (rounds : nat) (after : list rspamd_email_address) :
  forall (names : list string) (before : list rspamd_email_address) (varbuf : string),
  Forall (fun name => name <> EmptyString) names ->
  Z.of_nat (length before + length names) <= max_log_elts ->
  Z.of_nat (length before + length names) < lim ->
  write_addr_list_loop (length names + rounds) (Z.of_nat (length before)) lim
    (before ++ (address <$> names) ++ after) varbuf
  = write_addr_list_loop rounds (Z.of_nat (length before + length names)) lim
      (before ++ (address <$> names) ++ after) (with_entries varbuf names).
Proof.
  induction names as [|name names IH]; intros before varbuf Hne Hmax Hlim.
  - cbn [length with_entries Nat.add]. now rewrite Nat.add_0_r.
  - apply Forall_cons in Hne as [Hname Hne]. cbn [length] in Hmax, Hlim.
    cbn [length Nat.add write_addr_list_loop fmap list_fmap].
    rewrite <- app_comm_cons.
    rewrite g_ptr_array_index_middle. cbn [obind address addr].
    assert (Hpos : 0 < strlen (varbuf +:+ name)).
    { rewrite strlen_append. pose proof (strlen_pos name Hname).
      unfold strlen in *. lia. }
    apply Z.ltb_lt in Hpos as ->.
    destruct (Z.eqb_spec (Z.of_nat (length before)) (lim - 1)); [lia|].
    cbn [andb negb].
    destruct (Z.leb_spec max_log_elts (Z.of_nat (length before))); [lia|].
    replace (Z.of_nat (length before) + 1)
      with (Z.of_nat (length (before ++ [address name])))
      by (rewrite length_app; cbn [length]; lia).
    replace (before ++ address name :: (address <$> names) ++ after)
      with ((before ++ [address name]) ++ (address <$> names) ++ after)
      by (now rewrite <- app_assoc).
    rewrite IH.
    + cbn [with_entries]. do 2 f_equal. rewrite length_app. cbn [length]. lia.
    + assumption.
    + rewrite length_app. cbn [length]. lia.
    + rewrite length_app. cbn [length]. lia.
Qed.

(** Every list of more than seven addresses is rendered with its first
    eight: seven with a comma each, the eighth, a comma if more follow,
    and the dots. *)
Lemma long_addr_list_rendering (names : list string) (eighth : string)
    (more : list rspamd_email_address) :
  length names = 7%nat ->
  Forall (fun name => name <> EmptyString) names ->
  render_addr_list ((address <$> names) ++ address eighth :: more) (-1)
  = Ret ((if more is [] then with_entries EmptyString names +:+ eighth
          else (with_entries EmptyString names +:+ eighth) +:+ ",")
         +:+ "...").
Proof.
  intros Hlen Hne. unfold render_addr_list. cbn [Z.leb Z.compare].
  set (lim := Z.of_nat (length ((address <$> names) ++ address eighth :: more))).
  assert (Hlim : lim = 8 + Z.of_nat (length more)).
  { unfold lim. rewrite length_app, length_fmap, Hlen. cbn [length]. lia. }
  replace (Z.to_nat lim) with (length names + S (length more))%nat by lia.
  pose proof (write_addr_list_entries lim (S (length more))
                (address eighth :: more) names [] EmptyString Hne) as Hloop.
  cbn [length app Nat.add] in Hloop. change (Z.of_nat 0) with 0 in Hloop.
  rewrite Hloop by (rewrite Hlen; unfold max_log_elts; lia).
  cbn [write_addr_list_loop].
  rewrite <- (length_fmap address names) at 1.
  rewrite g_ptr_array_index_middle. rewrite Hlen.
  cbn [obind address addr].
  assert (Hpos : 0 < strlen (with_entries EmptyString names +:+ eighth)).
  { rewrite strlen_append. destruct names as [|name names]; [discriminate|].
    apply Forall_cons in Hne as [Hname _]. cbn [with_entries].
    assert (Hgrow : forall l v, strlen v <= strlen (with_entries v l)).
    { induction l as [|x l IHl]; intros v; cbn [with_entries]; [lia|].
      etransitivity; [|apply IHl]. rewrite !strlen_append.
      unfold strlen. lia. }
    pose proof (Hgrow names ((EmptyString +:+ name) +:+ ",")) as Hg.
    rewrite !strlen_append in Hg. pose proof (strlen_pos name Hname).
    unfold strlen in *. cbn [String.length] in *. lia. }
  apply Z.ltb_lt in Hpos as ->. cbn [andb].
  change (max_log_elts <=? Z.of_nat 7) with true. cbn match.
  destruct more as [|a more].
  - cbn [length] in Hlim. destruct (Z.eqb_spec (Z.of_nat 7) (lim - 1)); [reflexivity|lia].
  - cbn [length] in Hlim. destruct (Z.eqb_spec (Z.of_nat 7) (lim - 1)); [lia|reflexivity].
Qed.

Lemma append_nil_r (a : string) : a +:+ EmptyString = a.
Proof.
  induction a as [|c a IH]; [reflexivity|].
  change (String c a +:+ EmptyString) with (String c (a +:+ EmptyString)).
  now rewrite IH.
Qed.

Lemma append_assoc (a b c : string) : (a +:+ b) +:+ c = a +:+ b +:+ c.
Proof.
  induction a as [|ch a IH]; [reflexivity|].
  change ((String ch a +:+ b) +:+ c) with (String ch ((a +:+ b) +:+ c)).
  change (String ch a +:+ b +:+ c) with (String ch (a +:+ b +:+ c)).
  now rewrite IH.
Qed.

Lemma append_pending (res pending : string) :
  (if 0 <? strlen pending then res +:+ pending else res) = res +:+ pending.
Proof.
  destruct pending as [|c pending]; [now rewrite append_nil_r|].
  unfold strlen. cbn [String.length]. now destruct (Z.ltb_spec 0 (Z.of_nat (S (String.length pending)))); [|lia].
Qed.

Lemma write_var_loop_expands (var content : string) : forall res pending,
  write_var_loop res var pending content
  = (res +:+ pending) +:+ expand_template var content.
Proof.
  induction content as [|ch content IH]; intros res pending;
    cbn [write_var_loop expand_template].
  - now rewrite append_pending, append_nil_r.
  - destruct (Ascii.eqb ch "$"%char).
    + rewrite IH, append_pending, append_nil_r. now rewrite append_assoc.
    + rewrite IH. rewrite !append_assoc. reflexivity.
Qed.

(** X19.  The content template.  [rspamd_task_log_write_var] appends the
    template to the log buffer with every ['$'] of it replaced by the
    value, and every other character copied in its place; a template
    without a ['$'] is written as it is and the value is not. *)
Theorem write_var_expands_template (logbuf var content : string) :
  rspamd_task_log_write_var logbuf var (Some content)
  = logbuf +:+ expand_template var content
  /\ (String.index 0 "$" content = None -> expand_template var content = content).
Proof.
  split.
  - unfold rspamd_task_log_write_var. rewrite write_var_loop_expands.
    now rewrite append_nil_r.
  - induction content as [|ch content IH]; [reflexivity|].
    cbn [expand_template].
    destruct (Ascii.eqb_spec ch "$"%char) as [->|Hne].
    + cbn [String.index String.prefix].
      destruct (ascii_dec "$" "$") as [_|Hne]; [|congruence].
      assert (Hp : forall str, String.prefix EmptyString str = true) by (now destruct str).
      rewrite Hp. discriminate.
    + intros Hidx. f_equal. apply IH. revert Hidx.
      cbn [String.index String.prefix].
      destruct (ascii_dec "$" ch) as [Heq|_]; [congruence|].
      destruct (String.index 0 "$" content); [discriminate|reflexivity].
Qed.

Lemma with_entries_concat (names : list string) (last : string) : forall varbuf,
  with_entries varbuf names +:+ last
  = varbuf +:+ String.concat "," (names ++ [last]).
Proof.
  induction names as [|name names IH]; intros varbuf; [reflexivity|].
  cbn [with_entries app]. rewrite IH.
  change (String.concat "," (name :: names ++ [last]))
    with (match names ++ [last] with
          | [] => name
          | _ :: _ => name +:+ "," +:+ String.concat "," (names ++ [last])
          end).
  destruct (names ++ [last]) eqn:Happ.
  - now apply app_eq_nil in Happ as [_ [=]].
  - now rewrite !append_assoc.
Qed.

(** X20.  A list of at most [max_log_elts] addresses, none of them empty, is
    written in full by [rspamd_task_write_addr_list]: the addresses in
    their order with a comma between two of them, no comma at the end
    and no dots. *)
Theorem short_addr_list_rendering (names : list string) :
  (length names <= 7)%nat ->
  Forall (fun name => name <> EmptyString) names ->
  render_addr_list (address <$> names) (-1) = Ret (String.concat "," names).
Proof.
  intros Hlen Hne. induction names as [|last init _] using rev_ind;
    [reflexivity|].
  apply Forall_app in Hne as [Hinit _]. rewrite length_app in Hlen. cbn [length] in Hlen.
  unfold render_addr_list. cbn [Z.leb Z.compare].
  rewrite fmap_app, length_app, length_fmap. cbn [fmap list_fmap length].
  replace (Z.to_nat (Z.of_nat (length init + 1))) with (length init + 1)%nat by lia.
  pose proof (write_addr_list_entries (Z.of_nat (length init + 1)) 1
                [address last] init [] EmptyString Hinit) as Hloop.
  cbn [length app Nat.add] in Hloop. change (Z.of_nat 0) with 0 in Hloop.
  rewrite Hloop by (unfold max_log_elts; lia).
  cbn [write_addr_list_loop].
  rewrite <- (length_fmap address init) at 1.
  rewrite g_ptr_array_index_middle. cbn [obind address addr].
  destruct (Z.eqb_spec (Z.of_nat (length init)) (Z.of_nat (length init + 1) - 1));
    [|lia].
  rewrite andb_false_r.
  destruct (Z.leb_spec max_log_elts (Z.of_nat (length init)));
    [unfold max_log_elts in *; lia|].
  now rewrite with_entries_concat.
Qed.

Lemma ialist_get_address_middle
    (before : list InternetAddress) (x : InternetAddress) (after : list InternetAddress) :
  internet_address_list_get_address (before ++ x :: after) (Z.of_nat (length before))
  = Some x.
Proof.
  unfold internet_address_list_get_address.
  destruct (Z.ltb_spec (Z.of_nat (length before)) 0); [lia|].
  rewrite Nat2Z.id, nth_error_app2 by lia. now rewrite Nat.sub_diag.
Qed.

(** The rounds of the loop over a MIME list below [max_log_elts] that
    are not the last of the list: each writes its mailbox and a comma. *)
Lemma write_ialist_entries (lim : Z) (rounds : nat) (after : list InternetAddress) :
  forall (names : list string) (before : list InternetAddress) (varbuf : string),
  Forall (fun name => name <> EmptyString) names ->
  Z.of_nat (length before + length names) <= max_log_elts ->
  Z.of_nat (length before + length names) < lim ->
  write_ialist_loop (length names + rounds) (Z.of_nat (length before)) lim
    (before ++ (IA_Mailbox <$> names) ++ after) varbuf
  = write_ialist_loop rounds (Z.of_nat (length before + length names)) lim
      (before ++ (IA_Mailbox <$> names) ++ after) (with_entries varbuf names).
Proof.
  induction names as [|name names IH]; intros before varbuf Hne Hmax Hlim.
  - cbn [length with_entries Nat.add]. now rewrite Nat.add_0_r.
  - apply Forall_cons in Hne as [Hname Hne]. cbn [length] in Hmax, Hlim.
    cbn [length Nat.add write_ialist_loop fmap list_fmap].
    rewrite <- app_comm_cons.
    rewrite ialist_get_address_middle.
    assert (Hpos : 0 < strlen (varbuf +:+ name)).
    { rewrite strlen_append. pose proof (strlen_pos name Hname).
      unfold strlen in *. lia. }
    apply Z.ltb_lt in Hpos as ->.
    destruct (Z.eqb_spec (Z.of_nat (length before)) (lim - 1)); [lia|].
    cbn [andb negb].
    destruct (Z.leb_spec max_log_elts (Z.of_nat (length before))); [lia|].
    replace (Z.of_nat (length before) + 1)
      with (Z.of_nat (length (before ++ [IA_Mailbox name])))
      by (rewrite length_app; cbn [length]; lia).
    replace (before ++ IA_Mailbox name :: (IA_Mailbox <$> names) ++ after)
      with ((before ++ [IA_Mailbox name]) ++ (IA_Mailbox <$> names) ++ after)
      by (now rewrite <- app_assoc).
    rewrite IH.
    + cbn [with_entries]. do 2 f_equal. rewrite length_app. cbn [length]. lia.
    + assumption.
    + rewrite length_app. cbn [length]. lia.
    + rewrite length_app. cbn [length]. lia.
Qed.

(** X21.  A MIME list of at most [max_log_elts] mailboxes, none with an empty
    address, is written in full by [rspamd_task_write_ialist]: the
    addresses in their order with a comma between two of them, no comma
    at the end and no dots. *)
Theorem short_ialist_rendering (names : list string) :
  (length names <= 7)%nat ->
  Forall (fun name => name <> EmptyString) names ->
  render_ialist (IA_Mailbox <$> names) (-1) = String.concat "," names.
Proof.
  intros Hlen Hne. induction names as [|last init _] using rev_ind;
    [reflexivity|].
  apply Forall_app in Hne as [Hinit _]. rewrite length_app in Hlen. cbn [length] in Hlen.
  unfold render_ialist, internet_address_list_length. cbn [Z.leb Z.compare].
  rewrite fmap_app, length_app, length_fmap. cbn [fmap list_fmap length].
  replace (Z.to_nat (Z.of_nat (length init + 1))) with (length init + 1)%nat by lia.
  pose proof (write_ialist_entries (Z.of_nat (length init + 1)) 1
                [IA_Mailbox last] init [] EmptyString Hinit) as Hloop.
  cbn [length app Nat.add] in Hloop. change (Z.of_nat 0) with 0 in Hloop.
  rewrite Hloop by (unfold max_log_elts; lia).
  cbn [write_ialist_loop].
  assert (Hget : internet_address_list_get_address
                   ((IA_Mailbox <$> init) ++ [IA_Mailbox last])
                   (Z.of_nat (length init)) = Some (IA_Mailbox last))
    by (rewrite <- (length_fmap IA_Mailbox init); apply ialist_get_address_middle).
  rewrite Hget.
  destruct (Z.eqb_spec (Z.of_nat (length init)) (Z.of_nat (length init + 1) - 1));
    [|lia].
  rewrite andb_false_r.
  destruct (Z.leb_spec max_log_elts (Z.of_nat (length init)));
    [unfold max_log_elts in *; lia|].
  rewrite with_entries_concat. reflexivity.
Qed.

(** The loop over the envelope recipients stays inside the array when
    its rounds do. *)
Lemma write_addr_list_loop_returns (lim : Z) (addrs : list rspamd_email_address) :
  forall (rounds : nat) (i : Z) (varbuf : string),
  0 <= i -> i + Z.of_nat rounds <= Z.of_nat (length addrs) ->
  exists out, write_addr_list_loop rounds i lim addrs varbuf = Ret out.
Proof.
  induction rounds as [|rounds IH]; intros i varbuf Hi Hle.
  - now exists varbuf.
  - cbn [write_addr_list_loop]. unfold g_ptr_array_index.
    destruct (Z.ltb_spec i 0); [lia|].
    destruct (nth_error addrs (Z.to_nat i)) as [a|] eqn:Hnth.
    2:{ apply nth_error_None in Hnth. lia. }
    cbn [obind]. destruct (max_log_elts <=? i); [eexists; reflexivity|].
    apply IH; lia.
Qed.

Lemma render_addr_list_returns (addrs : list rspamd_email_address) (lim : Z) :
  lim <= Z.of_nat (length addrs) ->
  exists out, render_addr_list addrs lim = Ret out.
Proof.
  intros Hlim. unfold render_addr_list.
  destruct (Z.leb_spec lim 0); apply write_addr_list_loop_returns; lia.
Qed.

(** *** The comparator on scores in tenths *)

(** Checked on every two of the 201 scores. *)
Lemma tenths_agree :
  forallb (fun a => forallb (comparator_agrees a) tenths) tenths = true.
Proof. vm_compute. reflexivity. Qed.

Lemma tenths_pair (a b : float) :
  a ∈ tenths -> b ∈ tenths -> comparator_agrees a b = true.
Proof.
  intros Ha Hb. pose proof tenths_agree as Hall.
  rewrite forallb_forall in Hall. apply list_elem_of_In in Ha, Hb.
  specialize (Hall a Ha). rewrite forallb_forall in Hall. now apply Hall.
Qed.

Lemma ascii_compare_refl (a : ascii) : Ascii.compare a a = Eq.
Proof. unfold Ascii.compare. apply N.compare_refl. Qed.

Lemma ascii_compare_trans (a b c : ascii) :
  Ascii.compare a b = Lt -> Ascii.compare b c = Lt -> Ascii.compare a c = Lt.
Proof. unfold Ascii.compare. rewrite !N.compare_lt_iff. apply N.lt_trans. Qed.

Lemma string_compare_refl (a : string) : String.compare a a = Eq.
Proof.
  induction a as [|ch a IH]; [reflexivity|].
  cbn [String.compare]. now rewrite ascii_compare_refl.
Qed.

Lemma string_compare_trans : forall a b c : string,
  String.compare a b = Lt -> String.compare b c = Lt -> String.compare a c = Lt.
Proof.
  induction a as [|ca a IH]; intros [|cb b] [|cc c]; cbn [String.compare];
    try discriminate; try reflexivity.
  destruct (Ascii.compare ca cb) eqn:Hab; try discriminate;
    destruct (Ascii.compare cb cc) eqn:Hbc; try discriminate; intros H1 H2.
  - apply Ascii.compare_eq_iff in Hab, Hbc. subst.
    rewrite ascii_compare_refl. now apply (IH b c).
  - apply Ascii.compare_eq_iff in Hab. subst. now rewrite Hbc.
  - apply Ascii.compare_eq_iff in Hbc. subst. now rewrite Hab.
  - now rewrite (ascii_compare_trans _ _ _ Hab Hbc).
Qed.

Lemma strcmp_neg (a b : string) : strcmp a b < 0 <-> String.compare a b = Lt.
Proof.
  unfold strcmp. destruct (String.compare a b); split;
    (lia || discriminate || reflexivity).
Qed.

Lemma strcmp_pos (a b : string) : 0 < strcmp a b <-> String.compare b a = Lt.
Proof.
  unfold strcmp. rewrite (String.compare_antisym b a).
  destruct (String.compare a b); cbn [CompOpp]; split;
    (lia || discriminate || reflexivity).
Qed.

Lemma strcmp_zero (a b : string) : strcmp a b = 0 <-> a = b.
Proof.
  unfold strcmp. split.
  - destruct (String.compare a b) eqn:Hc; try lia. intros _.
    now apply String.compare_eq_iff.
  - intros ->. now rewrite string_compare_refl.
Qed.

(** The comparator on two named symbols with scores among [tenths]. *)
Lemma compare_on_tenths (x y : symbol) (nx ny : string) :
  sym_name x = Some nx -> sym_name y = Some ny ->
  sym_score x ∈ tenths -> sym_score y ∈ tenths ->
  let kx := score_key (sym_score x) in
  let ky := score_key (sym_score y) in
  exists z,
    rspamd_task_compare_log_sym x y = Ret z
    /\ (z < 0 <-> ky < kx \/ (kx = ky /\ String.compare nx ny = Lt))
    /\ (0 < z <-> kx < ky \/ (kx = ky /\ String.compare ny nx = Lt))
    /\ (z = 0 <-> kx = ky /\ nx = ny)
    /\ PrimFloat.eqb (PrimFloat.abs (sym_score x)) (PrimFloat.abs (sym_score y))
       = (kx =? ky)
    /\ PrimFloat.ltb (PrimFloat.abs (sym_score x)) (PrimFloat.abs (sym_score y))
       = (kx <? ky).
Proof.
  intros Hnx Hny Hx Hy kx ky.
  pose proof (tenths_pair _ _ Hx Hy) as Hpair.
  unfold comparator_agrees in Hpair. cbn zeta in Hpair.
  fold kx ky in Hpair.
  apply andb_prop in Hpair as [Hpair Hdiff].
  apply andb_prop in Hpair as [Heq Hlt].
  apply Bool.eqb_prop in Heq, Hlt.
  unfold rspamd_task_compare_log_sym. cbn zeta. rewrite Hnx, Hny, Heq.
  destruct (Z.eqb_spec kx ky) as [Hk|Hk].
  - exists (strcmp nx ny). split; [reflexivity|].
    rewrite strcmp_neg, strcmp_pos, strcmp_zero.
    split; [|split; [|split; [|split]]]; try assumption.
    + split; [intros Hc; right; now split | intros [?|[_ ?]]; [lia|assumption]].
    + split; [intros Hc; right; now split | intros [?|[_ ?]]; [lia|assumption]].
    + split; [intros Hc; now split | intros [_ ?]; assumption].
    + reflexivity.
  - destruct (double_to_gint _) as [z|]; [|discriminate].
    apply Z.eqb_eq in Hdiff. exists z. split; [reflexivity|].
    split; [|split; [|split; [|split]]]; try assumption; try lia; reflexivity.
Qed.

Lemma fmap_nodup_inj {A B : Type} (f : A -> B) (l : list A) (x y : A) :
  NoDup (f <$> l) -> x ∈ l -> y ∈ l -> f x = f y -> x = y.
Proof.
  induction l as [|a l IH]; intros Hnodup Hx Hy Hf.
  { now apply elem_of_nil in Hx. }
  rewrite fmap_cons in Hnodup. apply NoDup_cons in Hnodup as [Hnotin Hnodup].
  apply elem_of_cons in Hx as [->|Hx]; apply elem_of_cons in Hy as [->|Hy].
  - reflexivity.
  - exfalso. apply Hnotin. rewrite Hf. now apply list_elem_of_fmap_2.
  - exfalso. apply Hnotin. rewrite <- Hf. now apply list_elem_of_fmap_2.
  - now apply IH.
Qed.

(** Named symbols with different names and scores among [tenths] are
    ordered by the comparator, strictly and as the specification says. *)
Lemma tenths_ordered (l : list symbol) :
  Forall (fun x => is_Some (sym_name x) /\ sym_score x ∈ tenths) l ->
  NoDup (sym_name <$> l) ->
  comparator_orders l.
Proof.
  intros Hall Hnames. rewrite Forall_forall in Hall.
  assert (Hcmp : forall x y, x ∈ l -> y ∈ l ->
            exists nx ny, sym_name x = Some nx /\ sym_name y = Some ny
              /\ sym_score x ∈ tenths /\ sym_score y ∈ tenths).
  { intros x y Hx Hy. destruct (Hall x Hx) as [[nx Hnx] Hsx].
    destruct (Hall y Hy) as [[ny Hny] Hsy]. now exists nx, ny. }
  split; [split|].
  - intros x y Hx Hy Hne.
    destruct (Hcmp x y Hx Hy) as (nx & ny & Hnx & Hny & Hsx & Hsy).
    destruct (compare_on_tenths x y nx ny Hnx Hny Hsx Hsy)
      as (z & Hz & _ & _ & Hzero & _).
    exists z. split; [assumption|]. intros Hz0. apply Hzero in Hz0 as [_ Hn].
    apply Hne. apply (fmap_nodup_inj sym_name l); try assumption. congruence.
  - intros x y z z' Hx Hy Hz Hz'.
    destruct (Hcmp x y Hx Hy) as (nx & ny & Hnx & Hny & Hsx & Hsy).
    destruct (compare_on_tenths x y nx ny Hnx Hny Hsx Hsy)
      as (z1 & Hz1 & Hneg & _).
    destruct (compare_on_tenths y x ny nx Hny Hnx Hsy Hsx)
      as (z2 & Hz2 & _ & Hpos & _).
    assert (z1 = z) as -> by congruence. assert (z2 = z') as -> by congruence.
    rewrite Hneg, Hpos. split; intros [?|[? ?]]; [now left|right|now left|right];
      split; congruence.
  - intros x y w Hx Hy Hw (z1 & Hz1 & Hn1) (z2 & Hz2 & Hn2).
    destruct (Hcmp x y Hx Hy) as (nx & ny & Hnx & Hny & Hsx & Hsy).
    destruct (Hcmp w w Hw Hw) as (nw & _ & Hnw & _ & Hsw & _).
    destruct (compare_on_tenths x y nx ny Hnx Hny Hsx Hsy)
      as (z1' & Hz1' & Hneg1 & _).
    destruct (compare_on_tenths y w ny nw Hny Hnw Hsy Hsw)
      as (z2' & Hz2' & Hneg2 & _).
    destruct (compare_on_tenths x w nx nw Hnx Hnw Hsx Hsw)
      as (z3 & Hz3 & Hneg3 & _).
    assert (z1' = z1) as -> by congruence. assert (z2' = z2) as -> by congruence.
    apply Hneg1 in Hn1. apply Hneg2 in Hn2.
    exists z3. split; [assumption|]. apply Hneg3.
    destruct Hn1 as [?|[? Hlt1]]; destruct Hn2 as [?|[? Hlt2]];
      try (left; lia).
    right. split; [lia|]. now apply (string_compare_trans nx ny nw).
  - intros x y Hx Hy (z & Hz & Hn).
    destruct (Hcmp x y Hx Hy) as (nx & ny & Hnx & Hny & Hsx & Hsy).
    destruct (compare_on_tenths x y nx ny Hnx Hny Hsx Hsy)
      as (z1 & Hz1 & Hneg & _ & _ & Heq & _).
    destruct (compare_on_tenths y x ny nx Hny Hnx Hsy Hsx)
      as (_ & _ & _ & _ & _ & _ & Hlt).
    assert (z1 = z) as -> by congruence. apply Hneg in Hn.
    unfold sym_before. cbn zeta. rewrite Heq, Hlt.
    destruct Hn as [Hk|[Hk Hc]].
    + left. now apply Z.ltb_lt.
    + right. split; [now apply Z.eqb_eq|]. now exists nx, ny.
Qed.

Section LogProofs.
Context `{task_h} `{log_env}.

(** What the loop prints for a symbol after the first is what it prints
    for the first, after a comma. *)
Lemma write_symbol_next (lf : rspamd_log_format) (sym : symbol) :
  write_symbol lf false sym = "," +:+ write_symbol lf true sym.
Proof. unfold write_symbol. cbv iota. now rewrite !append_assoc. Qed.

Lemma write_symbols_from (lf : rspamd_log_format) :
  forall (l : list symbol) (sym : symbol) (symbuf : string),
  write_symbols lf false l (symbuf +:+ write_symbol lf true sym)
  = symbuf +:+ String.concat "," (write_symbol lf true <$> sym :: l).
Proof.
  induction l as [|next l IH]; intros sym symbuf; [reflexivity|].
  cbn [write_symbols]. rewrite write_symbol_next.
  rewrite <- (append_assoc _ "," (write_symbol lf true next)).
  rewrite IH.
  change (String.concat "," (write_symbol lf true <$> sym :: next :: l))
    with (write_symbol lf true sym +:+ "," +:+
          String.concat "," (write_symbol lf true <$> next :: l)).
  now rewrite !append_assoc.
Qed.

(** The loop over the sorted symbols writes their texts with commas
    between them. *)
Lemma write_symbols_concat (lf : rspamd_log_format) (l : list symbol) :
  write_symbols lf true l EmptyString
  = String.concat "," (write_symbol lf true <$> l).
Proof.
  destruct l as [|sym l]; [reflexivity|].
  cbn [write_symbols]. apply (write_symbols_from lf l sym EmptyString).
Qed.

(** The SYMBOLS rendering, given what the sort returns. *)
Lemma metric_res_symbols
    (task : rspamd_task) (lf : rspamd_log_format) (mres : metric_result)
    (sorted : list symbol) :
  lf_type lf = RSPAMD_LOG_SYMBOLS ->
  results task !! DEFAULT_METRIC = Some mres ->
  g_ptr_array_sort rspamd_task_compare_log_sym (mres_symbols mres) = Ret sorted ->
  let text := fun sym : symbol =>
    print_str (sym_name sym)
    +:+ (if has_bits (lf_flags lf) RSPAMD_LOG_FLAG_SYMBOLS_SCORES
         then "(" +:+ print_double2 (sym_score sym) +:+ ")" else EmptyString)
    +:+ (if has_bits (lf_flags lf) RSPAMD_LOG_FLAG_SYMBOLS_PARAMS
         then "{" +:+ write_options 0 (sym_options sym) +:+ "}"
         else EmptyString) in
  let symbuf := String.concat "," (text <$> sorted) in
  rspamd_task_log_metric_res task lf
  = Ret (symbuf, rspamd_mempool_add_destructor task (rspamd_fstring_free symbuf)).
Proof.
  intros Htype Hres Hrun text symbuf.
  unfold rspamd_task_log_metric_res. rewrite Hres, Htype, Hrun. cbn [obind].
  rewrite write_symbols_concat. reflexivity.
Qed.

(** Where the comparator is a strict total order on the symbols, and the
    specified one, they are rendered in that order for every order in
    which the table is iterated. *)
Lemma ordered_symbols_rendering (symbols : list symbol) :
  NoDup symbols ->
  comparator_orders symbols ->
  exists sorted,
    sorted ≡ₚ symbols
    /\ StronglySorted sym_before sorted
    /\ forall symbols',
         symbols ≡ₚ symbols' ->
         g_ptr_array_sort rspamd_task_compare_log_sym symbols' = Ret sorted.
Proof.
  intros Hnodup [Hstrict Hspec].
  destruct (sort_sorted rspamd_task_compare_log_sym _ Hstrict symbols Hnodup)
    as (sorted & Hrun & Hperm & Hsorted); [auto|].
  exists sorted. split; [assumption|]. split.
  - apply (StronglySorted_weaken (precedes rspamd_task_compare_log_sym));
      [|assumption].
    intros x y Hx Hy. apply Hspec; now rewrite <- Hperm.
  - intros symbols' Hperm'.
    destruct (sort_permutation rspamd_task_compare_log_sym _ _ Hstrict Hnodup Hperm')
      as (sorted' & Hrun1 & Hrun2 & _ & _).
    congruence.
Qed.

(** C10.  A variable item whose value is empty appends nothing: the log
    buffer is returned as it was given, with none of the text of the
    item's content template. *)
Theorem empty_value_appends_nothing
    (task : rspamd_task) (lf : rspamd_log_format) (logbuf : string) :
  log_variable_value task lf = Ret EmptyString ->
  exists task', rspamd_task_log_variable task lf logbuf = Ret (logbuf, task').
Proof.
  unfold log_variable_value, rspamd_task_log_variable, write_nonempty_var,
    rspamd_task_write_ialist, rspamd_task_write_addr_list.
  destruct (lf_type lf);
    repeat match goal with
    | |- context [match ?x with Some _ => _ | None => _ end] =>
        is_var x; destruct x
    | |- context [match ?f task with Some _ => _ | None => _ end] =>
        destruct (f task)
    end;
    try (intros [= ->]; eexists; reflexivity);
    try (intros ->; eexists; reflexivity);
    try (intros _; eexists; reflexivity).
  all: destruct (rspamd_task_log_metric_res task lf) as [[res task']|fault];
    cbn [obind fst snd]; try discriminate;
    intros [= ->]; eexists; reflexivity.
Qed.

(** The cases the specification names: no envelope sender, and no
    result for the default metric. *)
Lemma value_without_sender (task : rspamd_task) (lf : rspamd_log_format) :
  lf_type lf = RSPAMD_LOG_SMTP_FROM -> from_envelope task = None ->
  log_variable_value task lf = Ret EmptyString.
Proof. intros Htype Hfrom. unfold log_variable_value. now rewrite Htype, Hfrom. Qed.

Lemma value_without_metric (task : rspamd_task) (lf : rspamd_log_format) :
  lf_type lf = RSPAMD_LOG_ISSPAM \/ lf_type lf = RSPAMD_LOG_ACTION
    \/ lf_type lf = RSPAMD_LOG_SCORES \/ lf_type lf = RSPAMD_LOG_SYMBOLS ->
  results task !! DEFAULT_METRIC = None ->
  log_variable_value task lf = Ret EmptyString.
Proof.
  intros Htype Hres. unfold log_variable_value, rspamd_task_log_metric_res.
  rewrite Hres. now destruct Htype as [->|[->|[->| ->]]].
Qed.

(** A content template is otherwise written with its literal text, also
    around a value. *)
Lemma write_var_literal_text (logbuf var : string) :
  rspamd_task_log_write_var logbuf var (Some "from=<$>")
  = ((logbuf +:+ "from=<") +:+ var) +:+ ">".
Proof. reflexivity. Qed.

(** X22.  Every symbol is logged once.  Where the comparator answers for
    every two symbols of the default metric (the conversion of its
    result to [gint] is defined), the merge sort returns a permutation
    [sorted] of them, whatever their scores and names are, also when the
    comparator calls different symbols equal.  The SYMBOLS item is the
    texts of [sorted] with a comma between two of them, the text of a
    symbol being its name, then its score in brackets when the item has
    the scores flag, then its options in braces when the item has the
    parameters flag; the buffer is handed to the pool of the task. *)
Theorem symbols_listed_once
    (task : rspamd_task) (lf : rspamd_log_format) (mres : metric_result) :
  lf_type lf = RSPAMD_LOG_SYMBOLS ->
  results task !! DEFAULT_METRIC = Some mres ->
  (forall x y, x ∈ mres_symbols mres -> y ∈ mres_symbols mres ->
     exists z, rspamd_task_compare_log_sym x y = Ret z) ->
  exists sorted,
    sorted ≡ₚ mres_symbols mres
    /\ g_ptr_array_sort rspamd_task_compare_log_sym (mres_symbols mres)
       = Ret sorted
    /\ let text := fun sym : symbol =>
         print_str (sym_name sym)
         +:+ (if has_bits (lf_flags lf) RSPAMD_LOG_FLAG_SYMBOLS_SCORES
              then "(" +:+ print_double2 (sym_score sym) +:+ ")"
              else EmptyString)
         +:+ (if has_bits (lf_flags lf) RSPAMD_LOG_FLAG_SYMBOLS_PARAMS
              then "{" +:+ write_options 0 (sym_options sym) +:+ "}"
              else EmptyString) in
       let symbuf := String.concat "," (text <$> sorted) in
       rspamd_task_log_metric_res task lf
       = Ret (symbuf,
              rspamd_mempool_add_destructor task (rspamd_fstring_free symbuf)).
Proof.
  intros Htype Hres Hcmp.
  destruct (sort_is_permutation rspamd_task_compare_log_sym _ Hcmp)
    as (sorted & Hrun & Hperm).
  exists sorted. split; [assumption|]. split; [assumption|].
  now apply (metric_res_symbols task lf mres sorted).
Qed.

(** X28.  Scores in tenths are logged in the order of the comparator's
    comment.  Let the symbols of the default metric have names, no two
    the same, and scores among -10.0, -9.9, ..., 10.0.  Then there is one
    list [sorted] of them, the greater absolute score first and the
    lower name first among equal absolute scores, and the SYMBOLS item
    is the texts of [sorted] with commas between them for the task and
    for every task whose default metric holds the same symbols in
    another iteration order. *)
Theorem symbols_sorted_on_tenths
    (task : rspamd_task) (lf : rspamd_log_format) (mres : metric_result) :
  lf_type lf = RSPAMD_LOG_SYMBOLS ->
  results task !! DEFAULT_METRIC = Some mres ->
  Forall (fun sym => is_Some (sym_name sym) /\ sym_score sym ∈ tenths)
    (mres_symbols mres) ->
  NoDup (sym_name <$> mres_symbols mres) ->
  exists sorted,
    sorted ≡ₚ mres_symbols mres
    /\ StronglySorted sym_before sorted
    /\ forall task' mres',
         results task' !! DEFAULT_METRIC = Some mres' ->
         mres_symbols mres ≡ₚ mres_symbols mres' ->
         let text := fun sym : symbol =>
           print_str (sym_name sym)
           +:+ (if has_bits (lf_flags lf) RSPAMD_LOG_FLAG_SYMBOLS_SCORES
                then "(" +:+ print_double2 (sym_score sym) +:+ ")"
                else EmptyString)
           +:+ (if has_bits (lf_flags lf) RSPAMD_LOG_FLAG_SYMBOLS_PARAMS
                then "{" +:+ write_options 0 (sym_options sym) +:+ "}"
                else EmptyString) in
         let symbuf := String.concat "," (text <$> sorted) in
         rspamd_task_log_metric_res task' lf
         = Ret (symbuf,
                rspamd_mempool_add_destructor task' (rspamd_fstring_free symbuf)).
Proof.
  intros Htype Hres Hall Hnames.
  destruct (ordered_symbols_rendering (mres_symbols mres))
    as (sorted & Hperm & Hsorted & Hrun).
  { now apply (NoDup_fmap_1 sym_name). }
  { now apply tenths_ordered. }
  exists sorted. split; [assumption|]. split; [assumption|].
  intros task' mres' Hres' Hperm'.
  apply (metric_res_symbols task' lf mres' sorted Htype Hres').
  now apply Hrun.
Qed.

(** X23.  The item [$smtp_rcpt].  With an array of envelope recipients the
    item writes the first of them and no other; when the array is empty
    the item reads its element 0 all the same, outside the array. *)
Theorem smtp_rcpt_item
    (task : rspamd_task) (lf : rspamd_log_format) (logbuf : string)
    (addrs : list rspamd_email_address) :
  lf_type lf = RSPAMD_LOG_SMTP_RCPT ->
  rcpt_envelope task = Some addrs ->
  rspamd_task_log_variable task lf logbuf
  = match addrs with
    | a :: _ =>
        Ret (write_nonempty_var lf logbuf (default EmptyString (addr a)), task)
    | [] => Fault OutOfBounds
    end.
Proof.
  intros Htype Hrcpt. unfold rspamd_task_log_variable. rewrite Htype, Hrcpt.
  unfold rspamd_task_write_addr_list, render_addr_list.
  destruct addrs as [|a rest]; [reflexivity|].
  change (1 <=? 0) with false. cbn iota.
  change (Z.to_nat 1) with 1%nat. cbn [write_addr_list_loop].
  change (g_ptr_array_index (a :: rest) 0) with (Ret a). cbn [obind].
  change (0 =? 1 - 1) with true. cbn [negb]. rewrite andb_false_r.
  change (max_log_elts <=? 0) with false. cbn iota. cbn [obind].
  unfold write_nonempty_var. now destruct (addr a).
Qed.

(** X24.  The condition guards the read.  An item [$smtp_rcpt] or
    [$smtp_rcpts] that carries the condition flag is written without a
    read outside the array of envelope recipients: with no array or an
    empty one the item is passed over, and otherwise the loop stays
    within the array.  The rest of the format is written next, on the
    same task. *)
Theorem conditional_recipient_item_is_safe
    (task : rspamd_task) (lf : rspamd_log_format)
    (rest : list rspamd_log_format) (logbuf : string) :
  has_bits (lf_flags lf) RSPAMD_LOG_FLAG_CONDITION = true ->
  lf_type lf = RSPAMD_LOG_SMTP_RCPT \/ lf_type lf = RSPAMD_LOG_SMTP_RCPTS ->
  exists logbuf',
    write_log_items task (lf :: rest) logbuf = write_log_items task rest logbuf'.
Proof.
  intros Hcond Htype. cbn [write_log_items]. rewrite Hcond.
  unfold rspamd_task_log_check_condition, rspamd_task_log_variable,
    rspamd_task_write_addr_list.
  destruct Htype as [-> | ->]; cbn iota;
    (destruct (rcpt_envelope task) as [addrs|]; [|now exists logbuf]);
    (destruct addrs as [|a more]; [now exists logbuf|]);
    change (0 <? Z.of_nat (length (a :: more))) with true; cbn [negb andb].
  - destruct (render_addr_list_returns (a :: more) 1) as [out ->];
      [cbn [length]; lia|].
    cbn [obind fst snd]. eexists. reflexivity.
  - destruct (render_addr_list_returns (a :: more) (-1)) as [out ->];
      [cbn [length]; lia|].
    cbn [obind fst snd]. eexists. reflexivity.
Qed.

Lemma concat_nil_sep (x : string) (rest : list string) :
  String.concat EmptyString (x :: rest) = x +:+ String.concat EmptyString rest.
Proof.
  destruct rest as [|y rest]; [now rewrite append_nil_r | reflexivity].
Qed.

Lemma write_options_from (options : list string) : forall j,
  0 <= j <= max_log_elts ->
  write_options j options
  = String.concat EmptyString
      ((fun opt => opt +:+ ";") <$> take (Z.to_nat (max_log_elts + 1 - j)) options)
    +:+ (if (Z.to_nat (max_log_elts + 1 - j) <=? length options)%nat
         then "...;" else EmptyString).
Proof.
  unfold max_log_elts.
  induction options as [|opt rest IH]; intros j Hj.
  - cbn [write_options length]. rewrite take_nil.
    destruct (Nat.leb_spec (Z.to_nat (7 + 1 - j)) 0); [lia|reflexivity].
  - cbn [write_options].
    replace (Z.to_nat (7 + 1 - j)) with (S (Z.to_nat (7 - j))) by lia.
    cbn [take fmap list_fmap length]. rewrite concat_nil_sep.
    change (max_log_elts <=? j) with (7 <=? j).
    destruct (Z.leb_spec 7 j) as [Hlast|Hmore].
    + replace (Z.to_nat (7 - j)) with 0%nat by lia.
      rewrite take_0. cbn [fmap list_fmap String.concat Nat.leb].
      now rewrite append_nil_r, !append_assoc.
    + rewrite IH by lia.
      replace (Z.to_nat (7 + 1 - (j + 1))) with (Z.to_nat (7 - j)) by lia.
      cbn [Nat.leb]. now rewrite !append_assoc.
Qed.

(** X25.  The options of a symbol.  At most [max_log_elts + 1 = 8] options are
    written, each followed by a semicolon, and the dots follow whenever
    the symbol has eight options or more, also when it has exactly
    eight and none is left out. *)
Theorem symbol_options_rendering (options : list string) :
  write_options 0 options
  = String.concat EmptyString ((fun opt => opt +:+ ";") <$> take 8 options)
    +:+ (if (8 <=? length options)%nat then "...;" else EmptyString).
Proof. apply (write_options_from options 0). unfold max_log_elts. lia. Qed.

Lemma write_var_appends (logbuf var : string) (content : option string) :
  rspamd_task_log_write_var logbuf var content
  = logbuf +:+ rspamd_task_log_write_var EmptyString var content.
Proof.
  destruct content as [content|]; [|reflexivity].
  unfold rspamd_task_log_write_var. rewrite !write_var_loop_expands.
  now rewrite append_nil_r.
Qed.

Lemma write_nonempty_var_appends (lf : rspamd_log_format) (logbuf var : string) :
  write_nonempty_var lf logbuf var
  = logbuf +:+ write_nonempty_var lf EmptyString var.
Proof.
  unfold write_nonempty_var. destruct (0 <? strlen var).
  - apply write_var_appends.
  - now rewrite append_nil_r.
Qed.

Lemma write_ialist_appends
    (ialist : list InternetAddress) (lim : Z) (lf : rspamd_log_format)
    (logbuf : string) :
  rspamd_task_write_ialist ialist lim lf logbuf
  = logbuf +:+ rspamd_task_write_ialist ialist lim lf EmptyString.
Proof.
  unfold rspamd_task_write_ialist. destruct (0 <? strlen _).
  - apply write_var_appends.
  - now rewrite append_nil_r.
Qed.

(** What a variable item appends does not depend on the buffer. *)
Lemma log_variable_appends
    (task : rspamd_task) (lf : rspamd_log_format) (logbuf : string) :
  rspamd_task_log_variable task lf logbuf
  = do res <- rspamd_task_log_variable task lf EmptyString;
    Ret (logbuf +:+ fst res, snd res).
Proof.
  unfold rspamd_task_log_variable, rspamd_task_write_addr_list.
  destruct (lf_type lf);
    repeat match goal with
    | |- context [match ?f task with Some _ => _ | None => _ end] =>
        destruct (f task)
    end;
    cbn [obind fst snd];
    try (f_equal; f_equal;
         first [ apply write_nonempty_var_appends | apply write_ialist_appends ]).
  all: try (destruct (render_addr_list _ _) as [varbuf|]; [|reflexivity];
            cbn [obind fst snd]; f_equal; f_equal;
            destruct (0 <? strlen varbuf);
            [apply write_var_appends | now rewrite append_nil_r]).
  all: destruct (rspamd_task_log_metric_res task lf) as [res|]; [|reflexivity];
    cbn [obind fst snd]; f_equal; f_equal; apply write_nonempty_var_appends.
Qed.

(** X26.  The log record is built by appending.  Whatever the format and the
    task, [rspamd_task_write_log] only adds to its buffer, and what the
    items add does not depend on what the buffer holds: writing a format
    into a buffer is writing it into an empty one and appending the
    result (where a read is outside an array, in both). *)
Theorem write_log_appends (items : list rspamd_log_format) :
  forall (task : rspamd_task) (logbuf : string),
  write_log_items task items logbuf
  = do res <- write_log_items task items EmptyString;
    Ret (logbuf +:+ fst res, snd res).
Proof.
  induction items as [|lf rest IH]; intros task logbuf.
  - cbn [write_log_items obind fst snd]. now rewrite append_nil_r.
  - assert (Hstep : forall task text,
              write_log_items task rest (logbuf +:+ text)
              = do res <- write_log_items task rest text;
                Ret (logbuf +:+ fst res, snd res)).
    { intros task0 text. rewrite (IH task0 (logbuf +:+ text)), (IH task0 text).
      destruct (write_log_items task0 rest EmptyString) as [[out task1]|];
        [|reflexivity].
      cbn [obind fst snd]. now rewrite append_assoc. }
    assert (Hsame : write_log_items task rest logbuf
                    = do res <- write_log_items task rest EmptyString;
                      Ret (logbuf +:+ fst res, snd res)) by apply IH.
    cbn [write_log_items].
    destruct (lf_type lf);
      try (destruct (has_bits (lf_flags lf) RSPAMD_LOG_FLAG_CONDITION
                     && negb (rspamd_task_log_check_condition task lf));
           [exact Hsame|];
           rewrite (log_variable_appends task lf logbuf);
           destruct (rspamd_task_log_variable task lf EmptyString)
             as [[text task1]|]; [|reflexivity];
           cbn [obind fst snd]; apply Hstep).
    + destruct (lf_data lf) as [|text|ref]; try exact Hsame.
      apply (Hstep task text).
    + destruct (lf_data lf) as [|text|ref]; try exact Hsame.
      destruct (lua_log_call ref task) as [lua_str|]; [|exact Hsame].
      apply (Hstep task lua_str).
Qed.

End LogProofs.

End LogFacts.

(** * Runs on concrete tasks

    The statements above at concrete inputs, with the header values
    [spec_task_h] and the collaborators of [Fixtures]. *)

Module Runs.
Import Fixtures.

#[local] Existing Instance spec_task_h.

(** *** The selector and the engine *)

(** The selector answers COMPOSITES and marks the three classifier
    stages, which were not asked for, done. *)
Example stage_skip_run :
  Select.rspamd_task_select_processing_stage 33 stage_skip_task stage_skip_request
  = Ret (RSPAMD_TASK_STAGE_COMPOSITES,
         set_processed_stages stage_skip_task
           (processed_stages stage_skip_task
            + RSPAMD_TASK_STAGE_CLASSIFIERS_PRE + RSPAMD_TASK_STAGE_CLASSIFIERS
            + RSPAMD_TASK_STAGE_CLASSIFIERS_POST)).
Proof. reflexivity. Qed.

(** With COMPOSITES done too, it answers DONE. *)
Example stage_skip_next_run :
  fst <$> (match Select.rspamd_task_select_processing_stage 33
                   (set_processed_stages stage_skip_task
                      (2 * RSPAMD_TASK_STAGE_COMPOSITES - 1))
                   stage_skip_request with
           | Ret res => Some res
           | Fault _ => None
           end)
  = Some RSPAMD_TASK_STAGE_DONE.
Proof. reflexivity. Qed.

(** [select_stage_correct] on that task and request. *)
Lemma select_stage_correct_witness :
  exists r ps',
    Select.rspamd_task_select_processing_stage 33 stage_skip_task stage_skip_request
      = Ret (r, set_processed_stages stage_skip_task ps')
    /\ Select.selected 11 (processed_stages stage_skip_task)
         stage_skip_request r ps'.
Proof.
  apply (SelectFacts.select_stage_correct 11 stage_skip_task stage_skip_request 33).
  - reflexivity.
  - lia.
  - vm_compute. split; [discriminate | reflexivity].
  - vm_compute. discriminate.
  - left. vm_compute. reflexivity.
  - lia.
Defined.

(** With the stages on the bits 0 to 11, as the specification lists
    them, the selector is correct on every bitmap and every request of
    stages. *)
Lemma select_stage_correct_on_stages (task : rspamd_task) (req : Z) :
  0 <= processed_stages task < 2 * RSPAMD_TASK_STAGE_DONE ->
  0 <= req < 2 * RSPAMD_TASK_STAGE_DONE ->
  exists r ps',
    Select.rspamd_task_select_processing_stage Process.select_fuel task req
      = Ret (r, set_processed_stages task ps')
    /\ Select.selected 11 (processed_stages task) req r ps'.
Proof.
  intros Hps Hreq. change (2 * RSPAMD_TASK_STAGE_DONE) with 4096 in *.
  apply (SelectFacts.select_stage_aux 11 req).
  - reflexivity.
  - lia.
  - lia.
  - change (2 ^ 30) with 1073741824. lia.
  - right. change (2 ^ (11 + 1)) with 4096. lia.
  - pose proof (SelectFacts.next_bit_nonneg (processed_stages task)).
    unfold Process.select_fuel. lia.
  - unfold Process.select_fuel. lia.
Qed.

(** On a new task the first stage is selected. *)
Example first_stage_run :
  Select.rspamd_task_select_processing_stage 33 new_task RSPAMD_TASK_PROCESS_ALL
  = Ret (RSPAMD_TASK_STAGE_READ_MESSAGE, new_task).
Proof. reflexivity. Qed.

(** [pre_result_short_circuit] on a task with a forced REJECT. *)
Lemma pre_result_short_circuit_witness :
  @Process.rspamd_task_process _ quiet_handlers 1 rejected_task
     RSPAMD_TASK_PROCESS_ALL []
  = Ret (true, Process.mark_done rejected_task, [])
  /\ RSPAMD_TASK_IS_PROCESSED (Process.mark_done rejected_task) = true
  /\ err (Process.mark_done rejected_task) = err rejected_task.
Proof.
  apply (@ProcessFacts.pre_result_short_circuit _ quiet_handlers 11).
  - reflexivity.
  - lia.
  - vm_compute. discriminate.
  - reflexivity.
  - lia.
Defined.

(** C2 as it is stated fails on a nested call.  The action of
    [pre_result] is not MAX, yet the call returns at its first guard
    with the task as it was: the DONE bit is not set. *)
Lemma pre_result_nested_call :
  pre_result_action rejected_task_in_progress <> METRIC_ACTION_MAX
  /\ @Process.rspamd_task_process _ quiet_handlers 1 rejected_task_in_progress
       RSPAMD_TASK_PROCESS_ALL []
     = Ret (true, rejected_task_in_progress, [])
  /\ RSPAMD_TASK_IS_PROCESSED rejected_task_in_progress = false.
Proof. split; [vm_compute; discriminate | split; reflexivity]. Qed.

Lemma stage_labels_distinct : NoDup stage_labels.
Proof. apply (bool_decide_unpack _). vm_compute. exact I. Defined.

(** [learner_failure] on a task to be learned as spam, with a learner
    that fails. *)
Lemma learner_failure_witness :
  exists task',
    @Process.rspamd_task_process _ failing_learner 1 learn_task
       RSPAMD_TASK_PROCESS_ALL []
      = Ret (true, task', [] ++ [Process.call_stat_learn RSPAMD_TASK_STAGE_LEARN_PRE])
    /\ (has_bits (flags learn_task_running) RSPAMD_TASK_FLAG_LEARN_AUTO = false ->
        err task' = Some learn_error)
    /\ (has_bits (flags learn_task_running) RSPAMD_TASK_FLAG_LEARN_AUTO = true ->
        err task' = err learn_task_running)
    /\ RSPAMD_TASK_IS_PROCESSED task' = true.
Proof.
  apply (@ProcessFacts.learner_failure _ failing_learner learn_task
           RSPAMD_TASK_PROCESS_ALL [] 1 RSPAMD_TASK_STAGE_LEARN_PRE
           learn_task_running learn_task_running (Some learn_error)).
  - exact stage_labels_distinct.
  - vm_compute. discriminate.
  - reflexivity.
  - reflexivity.
  - reflexivity.
  - reflexivity.
  - right. left. reflexivity.
  - reflexivity.
  - reflexivity.
  - reflexivity.
  - lia.
Defined.

(** The learner's error is in [err], and the task is terminal. *)
Example learner_failure_run :
  (fun res => (err (snd (fst res)), RSPAMD_TASK_IS_PROCESSED (snd (fst res))))
  <$> (match @Process.rspamd_task_process _ failing_learner 1 learn_task
               RSPAMD_TASK_PROCESS_ALL [] with
       | Ret res => Some res
       | Fault _ => None
       end)
  = Some (Some learn_error, true).
Proof. reflexivity. Qed.

(** With no events pending, one call takes a new task through every
    stage. *)
Example whole_pipeline_run :
  (fun res => (fst (fst res), processed_stages (snd (fst res)), snd res))
  <$> (match @Process.rspamd_task_process _ quiet_handlers 13 new_task
               RSPAMD_TASK_PROCESS_ALL [] with
       | Ret res => Some res
       | Fault _ => None
       end)
  = Some (true, RSPAMD_TASK_PROCESS_ALL,
          [ Process.call_message_parse; Process.call_pre_filters;
            Process.call_process_filters;
            Process.call_stat_classify RSPAMD_TASK_STAGE_CLASSIFIERS_PRE;
            Process.call_stat_classify RSPAMD_TASK_STAGE_CLASSIFIERS;
            Process.call_stat_classify RSPAMD_TASK_STAGE_CLASSIFIERS_POST;
            Process.call_make_composites; Process.call_post_filters ]).
Proof. reflexivity. Qed.

(** *** The loader *)

(** C4 on the code.  The offset, or the length, is above the size of the
    segment: the load fails and releases the mapping, and the task is
    returned as it came, with no error in [err]. *)
Theorem shm_bounds_leave_err_unset :
  @Load.rspamd_task_load_message _ test_loader shm_offset_task None 0 0
    = (false, shm_offset_task, [Load.os_close 3; Load.os_munmap 196608 10])
  /\ err shm_offset_task = None
  /\ @Load.rspamd_task_load_message _ test_loader shm_length_task None 0 0
    = (false, shm_length_task, [Load.os_close 3; Load.os_munmap 196608 10])
  /\ err shm_length_task = None.
Proof.
  split; [|split; [reflexivity|split; [|reflexivity]]].
  - apply (@LoadFacts.shm_out_of_bounds _ test_loader shm_offset_task None 0 0
             "/seg" 3 10 196608); try reflexivity.
    left. exists "100". split; [reflexivity | vm_compute; reflexivity].
  - apply (@LoadFacts.shm_out_of_bounds _ test_loader shm_length_task None 0 0
             "/seg" 3 10 196608); try reflexivity.
    right. exists "11". split; [reflexivity | vm_compute; reflexivity].
Qed.

(** The segment within its bounds is mapped. *)
Example shm_load_run :
  @Load.rspamd_task_load_message _ test_loader shm_task None 0 0
  = (true, Load.map_message shm_task 196608 4 10 10, [Load.os_close 3]).
Proof. reflexivity. Qed.

(** [control_length_check] on a message of 3 bytes said to have 5 after
    its control chunk. *)
Lemma control_length_check_witness :
  @Load.rspamd_task_load_message _ test_loader control_task None 4096 3
    = (false,
       set_err (Load.with_inline_window control_task 4096 3)
         (Some (Load.protocol_error "Invalid length")),
       [])
  /\ msg (set_err (Load.with_inline_window control_task 4096 3)
            (Some (Load.protocol_error "Invalid length")))
     = {| begin := 4096; len := 3 |}.
Proof.
  apply (@LoadFacts.control_length_check _ test_loader control_task None 4096 3
           CInt.guint_bits).
  - repeat split.
  - reflexivity.
  - vm_compute. discriminate.
  - lia.
  - vm_compute. discriminate.
  - vm_compute. reflexivity.
  - reflexivity.
Defined.

(** C5 as it is stated fails there.  The control length wraps above the
    3 bytes that arrive and the load fails with "Invalid length", but
    the [msg] window of the task is no longer the one it had. *)
Lemma control_length_check_mutates :
  3 < CInt.to_guint (3 - message_len control_task)
  /\ exists task',
       @Load.rspamd_task_load_message _ test_loader control_task None 4096 3
         = (false, task', [])
       /\ err task' = Some (Load.protocol_error "Invalid length")
       /\ msg control_task = {| begin := 0; len := 0 |}
       /\ msg task' = {| begin := 4096; len := 3 |}
       /\ msg task' <> msg control_task.
Proof.
  split; [vm_compute; reflexivity|].
  eexists. split; [reflexivity|]. repeat split. discriminate.
Qed.



(** The flag is clear and the window empty after that load. *)
Example control_chunk_only_run :
  (fun res => (fst (fst res), RSPAMD_TASK_IS_EMPTY (snd (fst res)),
               msg (snd (fst res))))
    (@Load.rspamd_task_load_message _ test_loader control_only_task None 4096 12)
  = (true, false, {| begin := 4108; len := 0 |}).
Proof. reflexivity. Qed.

(** An empty inline message sets the flag. *)
Example empty_message_run :
  RSPAMD_TASK_IS_EMPTY
    (snd (fst (@Load.rspamd_task_load_message _ test_loader new_task None 4096 0)))
  = true.
Proof. reflexivity. Qed.

(** *** The principal recipient *)

(** C7 on the code.  Element 0 of the empty array is read: the read is
    out of bounds, and the MIME recipient is not reached. *)
Theorem empty_envelope_read_out_of_bounds :
  rspamd_mempool_get_variable empty_envelope_task "recipient" = None
  /\ deliver_to empty_envelope_task = None
  /\ rcpt_envelope empty_envelope_task = Some []
  /\ @Recipient.rspamd_task_get_principal_recipient ascii_lower empty_envelope_task
     = Fault OutOfBounds.
Proof. repeat split. Qed.

(** With no envelope array at all, the MIME recipient is the answer. *)
Example mime_recipient_run :
  fst <$> (match @Recipient.rspamd_task_get_principal_recipient ascii_lower
                   (set_rcpt_envelope empty_envelope_task None) with
           | Ret res => Some res
           | Fault _ => None
           end)
  = Some (Some "user@example.org").
Proof. reflexivity. Qed.

(** *** The log formatter *)

(** C3 on the code.  With more than [max_log_elts = 7] addresses the
    eighth is written too before the dots: the output has eight
    entries, for the envelope list and for the MIME list. *)
Theorem long_lists_render_eight_entries :
  @Log.rspamd_task_log_variable _ test_log eight_rcpt_task smtp_rcpts EmptyString
    = Ret ("r0,r1,r2,r3,r4,r5,r6,r7...", eight_rcpt_task)
  /\ @Log.rspamd_task_log_variable _ test_log nine_rcpt_task smtp_rcpts EmptyString
    = Ret ("r0,r1,r2,r3,r4,r5,r6,r7,...", nine_rcpt_task)
  /\ @Log.rspamd_task_log_variable _ test_log eight_mime_task mime_rcpts EmptyString
    = Ret ("r0,r1,r2,r3,r4,r5,r6,r7...", eight_mime_task).
Proof. repeat split. Qed.

(** Seven addresses are written out in full. *)
Example seven_rcpt_run :
  Log.render_addr_list (Log.address <$> ["r0"; "r1"; "r2"; "r3"; "r4"; "r5"; "r6"]) (-1)
  = Ret "r0,r1,r2,r3,r4,r5,r6".
Proof. reflexivity. Qed.

(** The symbols of three scores, with the scores. *)
Example symbols_render_run :
  rendered (@Log.rspamd_task_log_metric_res _ test_log
              (task_with_symbols three_symbols)
              (symbols_item RSPAMD_LOG_FLAG_SYMBOLS_SCORES))
  = Some "B(-3.00),C(3.00),A(1.00)".
Proof. reflexivity. Qed.

(** C6 on the code.  The comparator sorts by score down to a thousandth
    only.  For the scores 1 and 3 it answers their difference in
    thousandths, 2000, and -2000 the other way.  For two absolute scores
    less than 0.001 apart it answers 0 both ways, whatever the names
    are: the names are compared for equal scores only.  The sort leaves
    such symbols in the order the table is iterated in, so the symbols
    [na]: 1 and [nb]: 1.000244140625 are logged as "na,nb" for one
    iteration order, the lower score first, and as "nb,na" for the
    other, against "sort by symbol's score -> name". *)
Theorem near_scores_keep_iteration_order (na nb : string) :
  let a := sym na 1%float in
  let b := sym nb 1.000244140625%float in
  let c := sym nb 3%float in
  Log.rspamd_task_compare_log_sym a c = Ret 2000
  /\ Log.rspamd_task_compare_log_sym c a = Ret (-2000)
  /\ PrimFloat.ltb (PrimFloat.abs (sym_score a)) (PrimFloat.abs (sym_score b))
     = true
  /\ Log.rspamd_task_compare_log_sym a b = Ret 0
  /\ Log.rspamd_task_compare_log_sym b a = Ret 0
  /\ rendered (@Log.rspamd_task_log_metric_res _ test_log
                 (task_with_symbols [a; b]) (symbols_item 0))
     = Some (na +:+ "," +:+ nb)
  /\ rendered (@Log.rspamd_task_log_metric_res _ test_log
                 (task_with_symbols [b; a]) (symbols_item 0))
     = Some (nb +:+ "," +:+ na).
Proof.
  intros a b c.
  split; [reflexivity|]. split; [reflexivity|]. split; [reflexivity|].
  split; [reflexivity|]. split; [reflexivity|].
  split.
  - rewrite (@LogFacts.metric_res_symbols _ test_log (task_with_symbols [a; b])
               (symbols_item 0) (metric_of [a; b]) [a; b]) by reflexivity.
    cbn. now rewrite !LogFacts.append_nil_r.
  - rewrite (@LogFacts.metric_res_symbols _ test_log (task_with_symbols [b; a])
               (symbols_item 0) (metric_of [b; a]) [b; a]) by reflexivity.
    cbn. now rewrite !LogFacts.append_nil_r.
Qed.

(** The same with the names A and B. *)
Example near_scores_run :
  rendered (@Log.rspamd_task_log_metric_res _ test_log
              (task_with_symbols [near_a; near_b]) (symbols_item 0))
  = Some "A,B"
  /\ rendered (@Log.rspamd_task_log_metric_res _ test_log
                 (task_with_symbols [near_b; near_a]) (symbols_item 0))
     = Some "B,A".
Proof. split; reflexivity. Qed.

(** Four scores about 0.0006 apart, iterated from the lowest to the
    highest.  The merge sort sorts A, B and C, D, each pair comparing
    equal, and merges them: C and D go before A, and B after it.  The
    order by score is D, C, B, A. *)
Example near_four_run :
  Log.g_ptr_array_sort Log.rspamd_task_compare_log_sym near_four
  = Ret [sym "C" 1.001220703125%float; sym "D" 1.0018310546875%float;
         sym "A" 1%float; sym "B" 1.0006103515625%float]
  /\ rendered (@Log.rspamd_task_log_metric_res _ test_log
                 (task_with_symbols near_four) (symbols_item 0))
     = Some "C,D,A,B".
Proof. split; reflexivity. Qed.

(** Equal absolute scores are ordered by name. *)
Example equal_scores_run :
  Log.rspamd_task_compare_log_sym (sym "B" (-3)%float) (sym "C" 3%float) = Ret (-1)
  /\ rendered (@Log.rspamd_task_log_metric_res _ test_log
                 (task_with_symbols [sym "C" 3%float; sym "B" (-3)%float])
                 (symbols_item 0))
     = Some "B,C".
Proof. split; reflexivity. Qed.

(** [empty_value_appends_nothing] on a task with no envelope sender. *)
Lemma empty_value_appends_nothing_witness :
  exists task',
    @Log.rspamd_task_log_variable _ test_log new_task smtp_from "id: <undef>, "
    = Ret ("id: <undef>, ", task').
Proof.
  apply (@LogFacts.empty_value_appends_nothing _ test_log new_task smtp_from).
  reflexivity.
Defined.

(** With a sender the template is written around it. *)
Example smtp_from_run :
  rendered (@Log.rspamd_task_log_variable _ test_log
              (set_from_envelope new_task (Some (Log.address "a@example.org")))
              smtp_from "id: <undef>, ")
  = Some "id: <undef>, from=<a@example.org>".
Proof. reflexivity. Qed.

(** *** Further properties of the selector and the engine *)

(** [select_stage_again] on the task of [stage_skip_run]. *)
Lemma select_stage_again_witness :
  exists st task',
    Select.rspamd_task_select_processing_stage 33 stage_skip_task stage_skip_request
      = Ret (st, task')
    /\ Select.rspamd_task_select_processing_stage 33 task' stage_skip_request
      = Ret (st, task').
Proof.
  apply (SelectFacts.select_stage_again 11 stage_skip_task stage_skip_request 33).
  - reflexivity.
  - lia.
  - vm_compute. split; [discriminate | reflexivity].
  - vm_compute. discriminate.
  - left. vm_compute. reflexivity.
  - lia.
Defined.

(** [select_stage_shift_overflow] on a bitmap with bit 30. *)
Lemma select_stage_shift_overflow_witness :
  Select.rspamd_task_select_processing_stage 33 overflow_task RSPAMD_TASK_PROCESS_ALL
  = Fault UndefinedShift.
Proof.
  apply (SelectFacts.select_stage_shift_overflow overflow_task RSPAMD_TASK_PROCESS_ALL 32).
  vm_compute. split; [discriminate | reflexivity].
Defined.

(** The handlers of [quiet_handlers] change nothing of the task. *)
Lemma quiet_handlers_keep {A : Type} (field : rspamd_task -> A) :
  @Process.handlers_keep quiet_handlers A field.
Proof. split; reflexivity. Defined.

(** [process_terminal_or_pending] on a task with an event pending: the
    call returns after the first stage. *)
Lemma process_terminal_or_pending_witness :
  exists ret task' calls',
    @Process.rspamd_task_process _ quiet_handlers 32 pending_task
       RSPAMD_TASK_PROCESS_ALL [] = Ret (ret, task', calls')
    /\ (ret = false -> RSPAMD_TASK_IS_PROCESSED task' = true)
    /\ (RSPAMD_TASK_IS_PROCESSED task' = false ->
        ret = true /\ Process.rspamd_session_events_pending (s task') <> 0).
Proof.
  apply (@ProcessFacts.process_terminal_or_pending _ quiet_handlers 11).
  - reflexivity.
  - lia.
  - apply quiet_handlers_keep.
  - vm_compute. split; [discriminate | reflexivity].
  - reflexivity.
  - lia.
Defined.

Example pending_run :
  (fun res => (fst (fst res), RSPAMD_TASK_IS_PROCESSED (snd (fst res)), snd res))
  <$> (match @Process.rspamd_task_process _ quiet_handlers 32 pending_task
               RSPAMD_TASK_PROCESS_ALL [] with
       | Ret res => Some res
       | Fault _ => None
       end)
  = Some (true, false, [Process.call_message_parse]).
Proof. reflexivity. Qed.

(** [process_releases_flag] on that task. *)
Lemma process_releases_flag_witness :
  exists ret task' calls',
    @Process.rspamd_task_process _ quiet_handlers 32 pending_task
       RSPAMD_TASK_PROCESS_ALL [] = Ret (ret, task', calls')
    /\ has_bits (flags task') RSPAMD_TASK_FLAG_PROCESSING = false.
Proof.
  apply (@ProcessFacts.process_releases_flag _ quiet_handlers 11).
  - reflexivity.
  - lia.
  - apply quiet_handlers_keep.
  - vm_compute. split; [discriminate | reflexivity].
  - reflexivity.
  - lia.
Defined.

(** [fin_true_iff_terminal] on that task: one more iteration is asked
    for. *)
Lemma fin_true_iff_terminal_witness :
  exists task' calls',
    @Process.rspamd_task_fin _ quiet_handlers 32 RSPAMD_TASK_PROCESS_ALL
       pending_task []
      = Ret (RSPAMD_TASK_IS_PROCESSED task', task', calls')
    /\ (RSPAMD_TASK_IS_PROCESSED task' = false ->
        Process.rspamd_session_events_pending (s task') <> 0).
Proof.
  apply (@ProcessFacts.fin_true_iff_terminal _ quiet_handlers 11).
  - reflexivity.
  - lia.
  - apply quiet_handlers_keep.
  - vm_compute. split; [discriminate | reflexivity].
  - reflexivity.
  - lia.
Defined.

(** [process_runs_requested_stages] on a new task and the request of
    [stage_skip_run]. *)
Lemma process_runs_requested_stages_witness :
  exists ret task' new,
    @Process.rspamd_task_process _ quiet_handlers 32 new_task
       stage_skip_request [] = Ret (ret, task', [] ++ new)
    /\ Forall (fun c => has_bits stage_skip_request (Process.stage_of_call c) = true)
         new.
Proof.
  apply (@ProcessFacts.process_runs_requested_stages _ quiet_handlers 11).
  - reflexivity.
  - lia.
  - exact stage_labels_distinct.
  - apply quiet_handlers_keep.
  - vm_compute. split; [discriminate | reflexivity].
  - reflexivity.
  - lia.
Defined.

Example requested_stages_run :
  (fun res => (processed_stages (snd (fst res)), snd res))
  <$> (match @Process.rspamd_task_process _ quiet_handlers 32 new_task
               stage_skip_request [] with
       | Ret res => Some res
       | Fault _ => None
       end)
  = Some (RSPAMD_TASK_PROCESS_ALL, [Process.call_make_composites]).
Proof. reflexivity. Qed.

(** [empty_message_not_classified] on an empty message. *)
Lemma empty_message_not_classified_witness :
  exists ret task' new,
    @Process.rspamd_task_process _ quiet_handlers 32 empty_task
       RSPAMD_TASK_PROCESS_ALL [] = Ret (ret, task', [] ++ new)
    /\ Forall (fun c => Process.classifier_call c = false) new.
Proof.
  apply (@ProcessFacts.empty_message_not_classified _ quiet_handlers 11).
  - reflexivity.
  - lia.
  - reflexivity.
  - apply quiet_handlers_keep.
  - apply quiet_handlers_keep.
  - vm_compute. split; [discriminate | reflexivity].
  - reflexivity.
  - reflexivity.
  - lia.
Defined.

Example empty_message_pipeline_run :
  snd <$> (match @Process.rspamd_task_process _ quiet_handlers 32 empty_task
                   RSPAMD_TASK_PROCESS_ALL [] with
           | Ret res => Some res
           | Fault _ => None
           end)
  = Some [ Process.call_message_parse; Process.call_pre_filters;
           Process.call_process_filters; Process.call_make_composites;
           Process.call_post_filters ].
Proof. reflexivity. Qed.

(** [skipped_task_finishes] on a task with the skip flag. *)
Lemma skipped_task_finishes_witness :
  exists ret task' new st,
    @Process.rspamd_task_process _ quiet_handlers 1 skipped_task
       RSPAMD_TASK_PROCESS_ALL [] = Ret (ret, task', [] ++ new)
    /\ RSPAMD_TASK_IS_PROCESSED task' = true
    /\ Forall (fun c => Process.stage_of_call c = st) new.
Proof.
  apply (@ProcessFacts.skipped_task_finishes _ quiet_handlers 11).
  - reflexivity.
  - lia.
  - apply quiet_handlers_keep.
  - vm_compute. split; [discriminate | reflexivity].
  - reflexivity.
  - reflexivity.
  - lia.
Defined.

(** [process_frame] for the [msg] window. *)
Lemma process_frame_witness :
  exists ret task' calls',
    @Process.rspamd_task_process _ quiet_handlers 32 pending_task
       RSPAMD_TASK_PROCESS_ALL [] = Ret (ret, task', calls')
    /\ msg task' = msg pending_task.
Proof.
  apply (@ProcessFacts.process_frame _ quiet_handlers task_msg msg 11).
  - reflexivity.
  - lia.
  - apply quiet_handlers_keep.
  - apply quiet_handlers_keep.
  - intros t v. now destruct t.
  - intros t v. now destruct t.
  - intros t e. now destruct t.
  - intros t c. now destruct t.
  - vm_compute. split; [discriminate | reflexivity].
  - reflexivity.
  - lia.
Defined.

(** [synchronous_run_completes] on a new task. *)
Lemma synchronous_run_completes_witness :
  exists ret task' calls',
    @Process.rspamd_task_process _ quiet_handlers 32 new_task
       RSPAMD_TASK_PROCESS_ALL [] = Ret (ret, task', calls')
    /\ RSPAMD_TASK_IS_PROCESSED task' = true.
Proof.
  apply (@ProcessFacts.synchronous_run_completes _ quiet_handlers 11).
  - reflexivity.
  - lia.
  - apply quiet_handlers_keep.
  - apply quiet_handlers_keep.
  - vm_compute. split; [discriminate | reflexivity].
  - reflexivity.
  - reflexivity.
  - lia.
Defined.

(** [learn_request_reaches_learner] for a request to learn ham on a new
    task. *)
Lemma learn_request_reaches_learner_witness :
  let t1 := snd (fst (Process.rspamd_learn_task_spam new_task false None)) in
  let spam := Z.land (flags t1) RSPAMD_TASK_FLAG_LEARN_SPAM in
  fst (fst (Process.rspamd_learn_task_spam new_task false None)) = true
  /\ fst (fst (@Process.dispatch_stage _ quiet_handlers RSPAMD_TASK_STAGE_LEARN t1 []))
     = true
  /\ snd (@Process.dispatch_stage _ quiet_handlers RSPAMD_TASK_STAGE_LEARN t1 [])
     = [] ++ [Process.call_stat_learn RSPAMD_TASK_STAGE_LEARN]
  /\ snd (fst (@Process.dispatch_stage _ quiet_handlers RSPAMD_TASK_STAGE_LEARN t1 []))
     = (let '(ok, stat_error, task') :=
          @Process.rspamd_stat_learn quiet_handlers t1 spam RSPAMD_TASK_STAGE_LEARN in
        if negb ok then
          Process.mark_done
            (if negb (has_bits (flags task') RSPAMD_TASK_FLAG_LEARN_AUTO)
             then set_err task' stat_error else task')
        else task')
  /\ negb (spam =? 0)
     = false || has_bits (flags new_task) RSPAMD_TASK_FLAG_LEARN_SPAM.
Proof.
  apply (@ProcessFacts.learn_request_reaches_learner _ quiet_handlers
           new_task false None RSPAMD_TASK_STAGE_LEARN []).
  - exact stage_labels_distinct.
  - vm_compute. discriminate.
  - vm_compute. discriminate.
  - reflexivity.
  - left. reflexivity.
  - reflexivity.
Defined.

(** *** Further properties of the loader *)

(** [descriptor_closed] on a request for a file. *)
Lemma descriptor_closed_witness :
  List.filter Load.is_close
    (snd (@Load.rspamd_task_load_message _ test_loader file_task None 0 0))
  = [Load.os_close 4].
Proof.
  apply (@LoadFacts.descriptor_closed _ test_loader file_task None 0 0 4).
  vm_compute. split; [exists 120; reflexivity | reflexivity].
Defined.

(** [mapping_released_or_owned] on the request of
    [shm_bounds_leave_err_unset]: the mapping is released. *)
Lemma mapping_released_or_owned_witness :
  match @Load.rspamd_task_load_message _ test_loader shm_offset_task None 0 0 with
  | (true, task', events) =>
      destructors (task_pool task')
      = rspamd_task_unmapper 196608 10
          :: destructors (task_pool (@Load.with_headers test_loader shm_offset_task None))
      /\ List.filter Load.is_munmap events = []
  | (false, task', events) =>
      destructors (task_pool task')
      = destructors (task_pool (@Load.with_headers test_loader shm_offset_task None))
      /\ List.filter Load.is_munmap events = [Load.os_munmap 196608 10]
  end.
Proof.
  apply (@LoadFacts.mapping_released_or_owned _ test_loader shm_offset_task None
           0 0 196608 10).
  vm_compute. exists 3. repeat split.
Defined.

(** [load_keeps_first_error] on a request for a missing file by a task
    that holds an error. *)
Lemma load_keeps_first_error_witness :
  err (snd (fst (@Load.rspamd_task_load_message _ test_loader failed_task None 0 0)))
  = Some learn_error.
Proof.
  apply (@LoadFacts.load_keeps_first_error _ test_loader failed_task None 0 0
           learn_error).
  - reflexivity.
  - reflexivity.
Defined.

(** [shm_window_unchecked_sum] on the request of [shm_load_run]: the
    window of 10 bytes from offset 4 ends 4 bytes past the segment. *)
Lemma shm_window_unchecked_sum_witness :
  exists task',
    @Load.rspamd_task_load_message _ test_loader shm_task None 0 0
      = (true, task', [Load.os_close 3])
    /\ msg task' = {| begin := 196608 + 4; len := 10 |}
    /\ (10 < 4 + 10 -> 196608 + 10 < begin (msg task') + len (msg task')).
Proof.
  apply (@LoadFacts.shm_window_unchecked_sum _ test_loader shm_task None 0 0
           "/seg" 3 10 196608).
  - reflexivity.
  - reflexivity.
  - reflexivity.
  - reflexivity.
  - lia.
  - vm_compute. discriminate.
  - vm_compute. discriminate.
Defined.

(** [load_failure_reports_error] on a request for a missing file. *)
Lemma load_failure_reports_error_witness :
  (exists message,
      err (snd (fst (@Load.rspamd_task_load_message _ test_loader
                       missing_file_task None 0 0)))
      = Some (Load.protocol_error message))
  \/ (exists fd map st_size,
        @Load.rspamd_task_load_message _ test_loader missing_file_task None 0 0
        = (false, @Load.with_headers test_loader missing_file_task None,
           [Load.os_close fd; Load.os_munmap map st_size])).
Proof.
  apply (@LoadFacts.load_failure_reports_error _ test_loader missing_file_task
           None 0 0).
  - reflexivity.
  - reflexivity.
Defined.

Example missing_file_run :
  err (snd (fst (@Load.rspamd_task_load_message _ test_loader
                   missing_file_task None 0 0)))
  = Some (Load.protocol_error "Invalid file (/missing): No such file or directory").
Proof. reflexivity. Qed.

(** [new_task_loads_input] on an input of 12 bytes. *)
Lemma new_task_loads_input_witness :
  exists task',
    @Load.rspamd_task_load_message _ test_loader
      (rspamd_task_new test_cfg 0%float 0%float) None 4096 12
    = (true, task', [])
    /\ task' = Load.with_inline_window (rspamd_task_new test_cfg 0%float 0%float)
                 4096 12
    /\ msg task' = {| begin := 4096; len := 12 |}
    /\ err task' = None.
Proof.
  apply (@LoadFacts.new_task_loads_input _ test_loader test_cfg 0%float 0%float
           4096 12).
  - reflexivity.
  - reflexivity.
Defined.

(** *** Further properties of the principal recipient *)

(** [principal_recipient_cached] on a task with a [deliver_to]. *)
Lemma principal_recipient_cached_witness :
  rspamd_mempool_get_variable
    (rspamd_mempool_set_variable deliver_task "recipient" "postmaster@example.org")
    "recipient"
  = Some "postmaster@example.org"
  /\ @Recipient.rspamd_task_get_principal_recipient ascii_lower
       (rspamd_mempool_set_variable deliver_task "recipient" "postmaster@example.org")
     = Ret (Some "postmaster@example.org",
            rspamd_mempool_set_variable deliver_task "recipient"
              "postmaster@example.org").
Proof.
  apply (@RecipientFacts.principal_recipient_cached ascii_lower deliver_task
           (Some "postmaster@example.org")
           (rspamd_mempool_set_variable deliver_task "recipient"
              "postmaster@example.org")).
  reflexivity.
Defined.

(** *** Further properties of the log formatter *)

(** [short_addr_list_rendering] and [short_ialist_rendering] on seven
    addresses. *)
Lemma short_addr_list_rendering_witness :
  Log.render_addr_list (Log.address <$> ["r0"; "r1"; "r2"; "r3"; "r4"; "r5"; "r6"]) (-1)
  = Ret (String.concat "," ["r0"; "r1"; "r2"; "r3"; "r4"; "r5"; "r6"]).
Proof.
  apply (LogFacts.short_addr_list_rendering ["r0"; "r1"; "r2"; "r3"; "r4"; "r5"; "r6"]).
  - cbn [length]. lia.
  - repeat constructor; discriminate.
Defined.

Lemma short_ialist_rendering_witness :
  Log.render_ialist (IA_Mailbox <$> ["r0"; "r1"; "r2"; "r3"; "r4"; "r5"; "r6"]) (-1)
  = String.concat "," ["r0"; "r1"; "r2"; "r3"; "r4"; "r5"; "r6"].
Proof.
  apply (LogFacts.short_ialist_rendering ["r0"; "r1"; "r2"; "r3"; "r4"; "r5"; "r6"]).
  - cbn [length]. lia.
  - repeat constructor; discriminate.
Defined.

(** [symbols_listed_once] on two symbols that the comparator calls
    equal. *)
Lemma symbols_listed_once_witness :
  exists sorted,
    sorted ≡ₚ mres_symbols (metric_of [near_a; near_b])
    /\ Log.g_ptr_array_sort Log.rspamd_task_compare_log_sym
         (mres_symbols (metric_of [near_a; near_b]))
       = Ret sorted
    /\ let text := fun sym : symbol =>
         @Log.print_str test_log (sym_name sym)
         +:+ (if has_bits (lf_flags (symbols_item 0)) RSPAMD_LOG_FLAG_SYMBOLS_SCORES
              then "(" +:+ @Log.print_double2 test_log (sym_score sym) +:+ ")"
              else EmptyString)
         +:+ (if has_bits (lf_flags (symbols_item 0)) RSPAMD_LOG_FLAG_SYMBOLS_PARAMS
              then "{" +:+ Log.write_options 0 (sym_options sym) +:+ "}"
              else EmptyString) in
       let symbuf := String.concat "," (text <$> sorted) in
       @Log.rspamd_task_log_metric_res _ test_log
         (task_with_symbols [near_a; near_b]) (symbols_item 0)
       = Ret (symbuf,
              rspamd_mempool_add_destructor (task_with_symbols [near_a; near_b])
                (rspamd_fstring_free symbuf)).
Proof.
  apply (@LogFacts.symbols_listed_once _ test_log (task_with_symbols [near_a; near_b])
           (symbols_item 0) (metric_of [near_a; near_b])).
  - reflexivity.
  - reflexivity.
  - intros x y Hx Hy. cbn [metric_of mres_symbols] in Hx, Hy.
    elements Hx; elements Hy; eexists; vm_compute; reflexivity.
Defined.

(** [symbols_sorted_on_tenths] on the symbols A: 1, B: -3, C: 3. *)
Lemma symbols_sorted_on_tenths_witness :
  exists sorted,
    sorted ≡ₚ mres_symbols (metric_of three_symbols)
    /\ StronglySorted Log.sym_before sorted
    /\ forall task' mres',
         results task' !! DEFAULT_METRIC = Some mres' ->
         mres_symbols (metric_of three_symbols) ≡ₚ mres_symbols mres' ->
         let text := fun sym : symbol =>
           @Log.print_str test_log (sym_name sym)
           +:+ (if has_bits (lf_flags (symbols_item 0)) RSPAMD_LOG_FLAG_SYMBOLS_SCORES
                then "(" +:+ @Log.print_double2 test_log (sym_score sym) +:+ ")"
                else EmptyString)
           +:+ (if has_bits (lf_flags (symbols_item 0)) RSPAMD_LOG_FLAG_SYMBOLS_PARAMS
                then "{" +:+ Log.write_options 0 (sym_options sym) +:+ "}"
                else EmptyString) in
         let symbuf := String.concat "," (text <$> sorted) in
         @Log.rspamd_task_log_metric_res _ test_log task' (symbols_item 0)
         = Ret (symbuf,
                rspamd_mempool_add_destructor task' (rspamd_fstring_free symbuf)).
Proof.
  apply (@LogFacts.symbols_sorted_on_tenths _ test_log
           (task_with_symbols three_symbols) (symbols_item 0)
           (metric_of three_symbols)).
  - reflexivity.
  - reflexivity.
  - assert (Hin : forall k, -100 <= k <= 100 -> Log.tenth k ∈ Log.tenths).
    { intros k Hk. apply list_elem_of_fmap_2. apply elem_of_seqZ. lia. }
    unfold three_symbols, metric_of, mres_symbols.
    apply List.Forall_cons.
    { split; [eexists; reflexivity | apply (Hin 10); lia]. }
    apply List.Forall_cons.
    { split; [eexists; reflexivity | apply (Hin (-30)); lia]. }
    apply List.Forall_cons.
    { split; [eexists; reflexivity | apply (Hin 30); lia]. }
    apply List.Forall_nil.
  - cbn [metric_of mres_symbols three_symbols fmap list_fmap sym sym_name].
    repeat (apply NoDup_cons; split);
      [ | | | apply NoDup_nil; exact I ];
      rewrite ?elem_of_cons, elem_of_nil; intros H;
      repeat destruct H as [H|H]; try discriminate H; exact H.
Defined.

(** [smtp_rcpt_item] on a task with two envelope recipients. *)
Lemma smtp_rcpt_item_witness :
  @Log.rspamd_task_log_variable _ test_log two_rcpt_task smtp_rcpt "rcpt: "
  = match [Log.address "a@example.org"; Log.address "b@example.org"] with
    | a :: _ =>
        Ret (Log.write_nonempty_var smtp_rcpt "rcpt: " (default EmptyString (addr a)),
             two_rcpt_task)
    | [] => Fault OutOfBounds
    end.
Proof.
  apply (@LogFacts.smtp_rcpt_item _ test_log two_rcpt_task smtp_rcpt "rcpt: "
           [Log.address "a@example.org"; Log.address "b@example.org"]).
  - reflexivity.
  - reflexivity.
Defined.

Example smtp_rcpt_run :
  rendered (@Log.rspamd_task_log_variable _ test_log two_rcpt_task smtp_rcpt "rcpt: ")
  = Some "rcpt: a@example.org".
Proof. reflexivity. Qed.

(** [conditional_recipient_item_is_safe] on the task with an empty
    array of envelope recipients. *)
Lemma conditional_recipient_item_is_safe_witness :
  exists logbuf',
    @Log.write_log_items _ test_log empty_envelope_task [smtp_rcpt_if; smtp_from]
      "rcpt: "
    = @Log.write_log_items _ test_log empty_envelope_task [smtp_from] logbuf'.
Proof.
  apply (@LogFacts.conditional_recipient_item_is_safe _ test_log empty_envelope_task
           smtp_rcpt_if [smtp_from] "rcpt: ").
  - reflexivity.
  - left. reflexivity.
Defined.

End Runs.
